(** * PPO trainer with adapters: a shallow embedding of
    [LLM-RLHF-Tuning/script/utils/ppo_trainer_with_peft.py]

    Conventions of the embedding.
    - A 1-D tensor is a list, a 2-D tensor ([batch, time]) a list of rows.
    - Integer tensors (token ids, attention and response masks) are lists of
      [Z]; floating tensors are lists of [R]: floating-point numbers are
      idealised as real numbers, rounding is not modelled (except in the
      one product whose truncation decides a branch, see [Warmup]).
    - A Python exception is a [None] result (or, where the model state
      survives the exception, an explicit [Raised] outcome next to the state).
    - Python dictionaries with string keys are [gmap string _].
    - Slices [x[a:]], [x[:b]] with indices in range are [drop a x], [take b x]. *)

From Stdlib Require Import Reals Lra Lia ZArith List String.
From stdpp Require Import gmap strings list fin_maps.
Import ListNotations.

(** ** Tensor helpers shared by the trainer's functions *)

Module Tensor.

(** [torch.zeros_like(x)] for an integer row. *)
Definition zeros_like (x : list Z) : list Z := replicate (length x) 0%Z.

(** [(x == v).sum().item()] and [(x != v).sum().item()]. *)
Definition count_eq (v : Z) (x : list Z) : nat :=
  length (List.filter (fun t => Z.eqb t v) x).
Definition count_ne (v : Z) (x : list Z) : nat :=
  length (List.filter (fun t => negb (Z.eqb t v)) x).

(** [x.ne(v).long()]. *)
Definition ne_long (v : Z) (x : list Z) : list Z :=
  (fun t => if Z.eqb t v then 0%Z else 1%Z) <$> x.

(** [torch.nn.utils.rnn.pad_sequence(seqs, batch_first=True, padding_value=v)]
    on a non-empty list of rows: every row is right-padded to the longest. *)
Definition pad_sequence (v : Z) (seqs : list (list Z)) : list (list Z) :=
  let width := max_list (length <$> seqs) in
  (fun s => s ++ replicate (width - length s) v) <$> seqs.

(** Indices of the nonzero entries, in increasing order: [x.nonzero()]. *)
Fixpoint nonzero_from (i : nat) (x : list Z) : list nat :=
  match x with
  | [] => []
  | m :: x' => if Z.eqb m 0 then nonzero_from (S i) x'
               else i :: nonzero_from (S i) x'
  end.
Definition nonzero (x : list Z) : list nat := nonzero_from 0 x.

(** [x.nonzero()[-1].item()]: the last nonzero index; indexing an empty
    result with [-1] raises [IndexError]. *)
Definition last_nonzero (x : list Z) : option nat := last (nonzero x).

(** [torch.stack(tensors)] on a Python list of tensors: stacking an empty
    list raises. (The tensors the trainer stacks are rows of one tensor, so
    they have one size.) *)
Definition stack {A} (tensors : list A) : option (list A) :=
  match tensors with
  | [] => None
  | _ => Some tensors
  end.

(** [e] is the last index at which [x] is nonzero. *)
Definition is_last_nonzero (x : list Z) (e : nat) : Prop :=
  (exists m, x !! e = Some m /\ m <> 0%Z) /\
  (forall j m, e < j -> x !! j = Some m -> m = 0%Z).

End Tensor.

(** ** Response mask: [get_responses_mask] *)

Module ResponseMask.
Import Tensor.

(** Body of the loop for one example:
    [response_mask = zeros_like(sequences_mask[i]);
     response_mask[len(prompt):] = sequences_mask[i][len(prompt):]]. *)
Definition response_mask_of (sequence_mask prompt : list Z) : list Z :=
  let response_mask := zeros_like sequence_mask in
  take (length prompt) response_mask ++ drop (length prompt) sequence_mask.

(** [for i in range(batch_size)] with [batch_size = sequences_mask.shape[0]]:
    the list [responses_mask] the loop builds; [prompts_without_padding[i]]
    raises when the prompt list is too short. *)
Fixpoint responses_mask_rows (sequences_mask prompts_without_padding : list (list Z))
  : option (list (list Z)) :=
  match sequences_mask with
  | [] => Some []
  | row :: rows =>
      match prompts_without_padding with
      | [] => None
      | prompt :: prompts =>
          match responses_mask_rows rows prompts with
          | Some rest => Some (response_mask_of row prompt :: rest)
          | None => None
          end
      end
  end.

(** [get_responses_mask]: the loop, then [torch.stack(responses_mask)],
    which raises on an empty batch. *)
Definition get_responses_mask (sequences_mask prompts_without_padding : list (list Z))
  : option (list (list Z)) :=
  responses_mask ← responses_mask_rows sequences_mask prompts_without_padding;
  stack responses_mask.

End ResponseMask.

(** ** Stripping and repacking sequences: [process_sequences] *)

Module SequenceProcessor.
Import Tensor.

Record sequences := {
  input_ids : list (list Z);
  attention_mask : list (list Z)
}.

(** Loop body for example [i]. *)
Definition strip_example (pad_token_id : Z) (prompt response : list Z)
  : list Z * list Z :=
  let prompt_left_padding_length := count_eq pad_token_id prompt in
  let response_length := count_ne pad_token_id response in
  let prompt_without_padding := drop prompt_left_padding_length prompt in
  let response_without_padding := take response_length response in
  (prompt_without_padding, response_without_padding).

(** [for i in range(batch_size)] with [batch_size = prompts_ids.shape[0]];
    [responses_ids[i]] raises when there are fewer responses than prompts. *)
Fixpoint strip_batch (pad_token_id : Z) (prompts_ids responses_ids : list (list Z))
  : option (list (list Z) * list (list Z)) :=
  match prompts_ids with
  | [] => Some ([], [])
  | prompt :: prompts =>
      match responses_ids with
      | [] => None
      | response :: responses =>
          match strip_batch pad_token_id prompts responses with
          | Some (ps, rs) =>
              let '(p, r) := strip_example pad_token_id prompt response in
              Some (p :: ps, r :: rs)
          | None => None
          end
      end
  end.

(** [process_sequences]: returns the stripped prompts, the stripped
    responses and the repacked batch. [pad_sequence] rejects an empty
    list of sequences. *)
Definition process_sequences (pad_token_id : Z) (prompts_ids responses_ids : list (list Z))
  : option (list (list Z) * list (list Z) * sequences) :=
  match strip_batch pad_token_id prompts_ids responses_ids with
  | None => None
  | Some (prompts_without_padding, responses_without_padding) =>
      let new_sequences :=
        zip_with (fun q r => q ++ r) prompts_without_padding responses_without_padding in
      match new_sequences with
      | [] => None
      | _ =>
          let padded := pad_sequence pad_token_id new_sequences in
          Some (prompts_without_padding, responses_without_padding,
                {| input_ids := padded;
                   attention_mask := ne_long pad_token_id <$> padded |})
      end
  end.

End SequenceProcessor.

(** ** Training arguments read by the functions below ([self.args]) *)

Record Args := {
  kl_penalty_method : string;
  kl_penalty_beta : R;
  reward_score_clip : option R;
  gamma : R;
  lam : R;
  use_advantage_norm : bool;
  ratio_clip : R;
  per_device_mini_train_batch_size : nat;
  extra_loss_weight : R;
  extra_warmup_steps_ratio : option R
}.

(** ** Floating tensors *)

Module FloatTensor.
Local Open Scope R_scope.

(** [torch.clamp(x, lo, hi)]: [min(max(x, lo), hi)]. *)
Definition clamp (x lo hi : R) : R := Rmin (Rmax x lo) hi.

(** [x.sum()] of a row, of a 2-D tensor, and of an integer mask (the
    integer total is used as a float in the divisions below). *)
Definition row_sum (x : list R) : R := foldr Rplus 0 x.
Definition tensor_sum (x : list (list R)) : R := row_sum (row_sum <$> x).

(** Elementwise operations on 2-D tensors of one shape. *)
Definition map2d {A B} (f : A -> B) (x : list (list A)) : list (list B) :=
  (fun row : list A => f <$> row) <$> x.
Definition zip2d {A B C} (f : A -> B -> C) (x : list (list A)) (y : list (list B))
  : list (list C) :=
  zip_with (zip_with f) x y.

(** Entry [x[i][t]]. *)
Definition entry {A} (x : list (list A)) (i t : nat) : option A :=
  row ← x !! i; row !! t.

Definition mask_sum (mask : list (list Z)) : R := tensor_sum (map2d IZR mask).

(** [x.mul(mask)] and [x * mask] with an integer mask. *)
Definition mul_mask (x : list (list R)) (mask : list (list Z)) : list (list R) :=
  zip2d (fun d m => d * IZR m) x mask.

End FloatTensor.

(** ** KL-penalised rewards: [get_last_reward_score] and
       [compute_rewards_with_kl_penalty] *)

Module Rewards.
Import Tensor FloatTensor.
Local Open Scope R_scope.

(** Loop body of [get_last_reward_score]:
    [end_index = responses_mask[i].nonzero()[-1]; value[end_index]]. *)
Definition last_reward_score_of (value : list R) (response_mask : list Z) : option R :=
  end_index ← last_nonzero response_mask;
  value !! end_index.

(** [for i in range(batch_size)] with [batch_size = values.shape[0]], then
    [torch.stack(reward_score)], which raises on an empty batch. *)
Definition get_last_reward_score (values : list (list R)) (responses_mask : list (list Z))
  : option (list R) :=
  reward_score ← mapM (fun i : nat =>
                         value ← values !! i;
                         response_mask ← responses_mask !! i;
                         last_reward_score_of value response_mask)
                      (seq 0 (length values));
  stack reward_score.

(** The transform selected by [kl_penalty_method]: ['abs'], ['mse'], and the
    identity for any other string. *)
Definition kl_transform (method : string) (kl : R) : R :=
  if String.eqb method "abs" then Rabs kl
  else if String.eqb method "mse" then kl ^ 2 * 0.5
  else kl.

(** [- self.args.kl_penalty_beta * kl] at one position. *)
Definition kl_penalty_at (args : Args) (actor_log_prob ref_log_prob : R) : R :=
  - kl_penalty_beta args * kl_transform (kl_penalty_method args) (actor_log_prob - ref_log_prob).

(** The reward score after the optional clamp. *)
Definition clip_reward_score (args : Args) (reward_score : R) : R :=
  match reward_score_clip args with
  | Some c => clamp reward_score (- c) c
  | None => reward_score
  end.

(** Loop body of [compute_rewards_with_kl_penalty] for example [i].
    The subtraction needs rows of one length (broadcasting of rows of
    length one is not modelled); [kl_penalty[end_index] += ...] raises when
    [end_index] is out of range. The in-place addition acts on the very
    tensor that was appended to [kl_penalty_all], so both returned series
    are the updated one. *)
Definition rewards_of_example (args : Args) (reward_score : R)
    (actor_log_prob ref_log_prob : list R) (mask : list Z)
  : option (list R * list R * R) :=
  if decide (length actor_log_prob = length ref_log_prob) then
    let kl_penalty := zip_with (kl_penalty_at args) actor_log_prob ref_log_prob in
    let reward_score := clip_reward_score args reward_score in
    end_index ← last_nonzero mask;
    if decide (end_index < length kl_penalty)%nat then
      let kl_penalty := alter (fun x => x + reward_score) end_index kl_penalty in
      Some (kl_penalty, kl_penalty, reward_score)
    else None
  else None.

Definition compute_rewards_with_kl_penalty (args : Args)
    (ref_values actor_log_probs ref_log_probs : list (list R))
    (responses_mask : list (list Z))
  : option (list (list R) * list (list R) * list R) :=
  let masks := (fun row : list Z => drop 1 row) <$> responses_mask in
  rewards_score ← get_last_reward_score ref_values responses_mask;
  let batch_size := length rewards_score in
  rows ← mapM (fun i : nat =>
                 mask ← masks !! i;
                 actor_log_prob ← actor_log_probs !! i;
                 ref_log_prob ← ref_log_probs !! i;
                 reward_score ← rewards_score !! i;
                 rewards_of_example args reward_score actor_log_prob ref_log_prob mask)
              (seq 0 batch_size);
  Some ((fun r : list R * list R * R => r.1.1) <$> rows,
        (fun r : list R * list R * R => r.1.2) <$> rows,
        (fun r : list R * list R * R => r.2) <$> rows).

End Rewards.

(** ** Masked statistics: [masked_mean], [masked_var], [masked_whiten] *)

Module Whiten.
Import FloatTensor.
Local Open Scope R_scope.

(** [masked_mean(data, mask)] with [dim=None] and [eps=1e-8]. *)
Definition masked_mean (data : list (list R)) (mask : list (list Z)) : R :=
  let data := mul_mask data mask in
  tensor_sum data / (mask_sum mask + 1e-8).

(** [masked_var(data, mask)] with [dim=None]. *)
Definition masked_var (data : list (list R)) (mask : list (list Z)) : R :=
  let mean := masked_mean data mask in
  let centered_values := map2d (fun d => d - mean) data in
  masked_mean (map2d (fun c => c ^ 2) centered_values) mask.

(** [torch.rsqrt]. *)
Definition rsqrt (x : R) : R := / sqrt x.

(** The two statistics [masked_whiten] computes: the numerator of [mean]
    is the sum of all of [data], masked or not. *)
Definition whiten_mean (data : list (list R)) (mask : list (list Z)) : R :=
  tensor_sum data / mask_sum mask.
Definition whiten_var (data : list (list R)) (mask : list (list Z)) : R :=
  let mean := whiten_mean data mask in
  tensor_sum (mul_mask (map2d (fun d => (d - mean) ^ 2) data) mask) / mask_sum mask.

(** [masked_whiten(data, mask, shift_mean)]. *)
Definition masked_whiten (data : list (list R)) (mask : list (list Z))
    (shift_mean : bool) : list (list R) :=
  let mean := whiten_mean data mask in
  let var := whiten_var data mask in
  let whitened := map2d (fun d => (d - mean) * rsqrt (var + 1e-6)) data in
  if negb shift_mean then map2d (fun w => w + mean) whitened else whitened.

(** The mean and the variance of [data] over the positions where the 0/1
    [mask] is set, without the [eps] of [masked_mean]: the quantities the
    whitening property is measured by. *)
Definition exact_masked_mean (data : list (list R)) (mask : list (list Z)) : R :=
  tensor_sum (mul_mask data mask) / mask_sum mask.
Definition exact_masked_var (data : list (list R)) (mask : list (list Z)) : R :=
  let mean := exact_masked_mean data mask in
  tensor_sum (mul_mask (map2d (fun d => (d - mean) ^ 2) data) mask) / mask_sum mask.

End Whiten.

(** ** Generalised advantage estimation: [get_advantages_and_returns] *)

Module Advantages.
Import Tensor FloatTensor Whiten.
Local Open Scope R_scope.

(** One iteration of [for t in reversed(range(length))] on one row of the
    batch (every tensor operation of the loop acts on each row
    independently); returns the new [lastgaelam]. Indexing a column that
    does not exist raises. *)
Definition gae_step (args : Args) (length : nat) (values rewards : list R)
    (t : nat) (lastgaelam : R) : option R :=
  nextvalues ← (if decide (t < length - 1)%nat then values !! (t + 1)%nat else Some 0);
  reward ← rewards !! t;
  value ← values !! t;
  let delta := reward + gamma args * nextvalues - value in
  Some (delta + gamma args * lam args * lastgaelam).

(** The loop over the given time indices, threading [lastgaelam] and
    appending to [advantages_reversed]. *)
Fixpoint gae_loop (args : Args) (length : nat) (values rewards : list R)
    (ts : list nat) (lastgaelam : R) (advantages_reversed : list R)
  : option (list R) :=
  match ts with
  | [] => Some advantages_reversed
  | t :: ts' =>
      lastgaelam ← gae_step args length values rewards t lastgaelam;
      gae_loop args length values rewards ts' lastgaelam
               (advantages_reversed ++ [lastgaelam])
  end.

(** [torch.stack(advantages_reversed[::-1])] for one row, with
    [length = rewards.size()[-1]] and [lastgaelam = 0] initially: with no
    time step the list is empty and stacking it raises. *)
Definition gae_row (args : Args) (values rewards : list R) : option (list R) :=
  let length := length rewards in
  advantages_reversed ←
    gae_loop args length values rewards (reverse (seq 0 length)) 0 [];
  stack (reverse advantages_reversed).

(** The un-whitened advantages of the whole batch. The operations of the
    loop act on columns of [rewards] and [values], which must have one
    batch size (broadcasting a dimension of size one is not modelled). *)
Definition gae_batch (args : Args) (values rewards : list (list R))
  : option (list (list R)) :=
  if decide (length values = length rewards) then
    mapM (fun vr : list R * list R => gae_row args vr.1 vr.2) (zip values rewards)
  else None.

(** [x + y] on two 2-D tensors: the shapes must agree (broadcasting a
    dimension of size one is not modelled). *)
Definition tensor_add (x y : list (list R)) : option (list (list R)) :=
  if decide (length <$> x = length <$> y) then Some (zip2d Rplus x y) else None.

Definition get_advantages_and_returns (args : Args)
    (values rewards : list (list R)) (responses_mask : list (list Z))
  : option (list (list R) * list (list R)) :=
  let masks := (fun row : list Z => drop 1 row) <$> responses_mask in
  advantages ← gae_batch args values rewards;
  returns ← tensor_add advantages values;
  let advantages :=
    if use_advantage_norm args then masked_whiten advantages masks true
    else advantages in
  Some (advantages, returns).

(** The recursion as the specification words it, on one row:
    [delta_t = reward_t + gamma * value_{t+1} - value_t] with the value
    after the last step taken as [0], and
    [gae_t = delta_t + gamma * lam * gae_{t+1}] accumulated backward. *)
Fixpoint gae_spec (args : Args) (values rewards : list R) : list R :=
  match rewards, values with
  | reward :: rewards', value :: values' =>
      let rest := gae_spec args values' rewards' in
      let delta := reward + gamma args * hd 0 values' - value in
      (delta + gamma args * lam args * hd 0 rest) :: rest
  | _, _ => []
  end.

End Advantages.

(** ** Clipped surrogate: [actor_loss] *)

Module ActorLoss.
Import FloatTensor Whiten.
Local Open Scope R_scope.

(** [ratio = torch.exp((mini_batch_actor_log_probs - actor_log_probs) * mask)]. *)
Definition ratio_of (actor_log_probs mini_batch_actor_log_probs : list (list R))
    (mask : list (list Z)) : list (list R) :=
  map2d exp (mul_mask (zip2d Rminus mini_batch_actor_log_probs actor_log_probs) mask).

(** [torch.max(loss1, loss2)], the per-position loss terms. *)
Definition loss_terms (args : Args) (advantages ratio : list (list R)) : list (list R) :=
  let loss1 := zip2d (fun a r => - a * r) advantages ratio in
  let loss2 :=
    zip2d (fun a r => - a * clamp r (1.0 - ratio_clip args) (1.0 + ratio_clip args))
          advantages ratio in
  zip2d Rmax loss1 loss2.

Definition actor_loss (args : Args)
    (actor_log_probs mini_batch_actor_log_probs advantages : list (list R))
    (mask : list (list Z)) : R * list (list R) :=
  let ratio := ratio_of actor_log_probs mini_batch_actor_log_probs mask in
  let loss := masked_mean (loss_terms args advantages ratio) mask in
  (loss, ratio).

End ActorLoss.

(** ** Auxiliary-loss weight of [train_step] *)

Module Warmup.
Local Open Scope R_scope.

(** Python's [int(x)] on a float: truncation toward zero. *)
Definition py_int (x : R) : Z :=
  if Rle_dec 0 x then Int_part x else (- Int_part (- x))%Z.

Section FloatProduct.
(** The number of warm-up steps is the truncation of a floating-point
    product, and rounding decides it: [int(0.29 * 100)] is [28], the product
    being [28.999999999999996]. The rounded product is therefore not
    idealised: [fmul x y] stands for [x * y] as the machine computes it. *)
Variable fmul : R -> R -> R.

(** [extra_loss_weight_warmup] as [train_step] computes it at a call with
    the given [step]: a local variable, initialised from the configured
    weight at every call. [w ** 1.001] is [Rpower w 1.001] for the positive
    weights the properties below are about. *)
Definition extra_loss_weight_warmup (args : Args) (max_steps : R) (step : Z) : R :=
  let extra_loss_weight_warmup := extra_loss_weight args in
  match extra_warmup_steps_ratio args with
  | None => extra_loss_weight_warmup
  | Some ratio =>
      let extra_warmup_steps := py_int (fmul ratio max_steps) in
      if (step <? extra_warmup_steps)%Z
      then IZR step / IZR extra_warmup_steps * extra_loss_weight args
      else Rpower extra_loss_weight_warmup 1.001
  end.

End FloatProduct.

End Warmup.

(** ** Replay buffer flattening: [get_mini_dataset] *)

Module MiniDataset.

(** The result of a run that may loop: exhausting the fuel stands for a
    loop that has not finished. *)
Inductive outcome (T : Type) : Type :=
| Returns (x : T)
| Raises
| OutOfFuel.
Arguments Returns {T} x.
Arguments Raises {T}.
Arguments OutOfFuel {T}.

Section WithExample.
(** What one field of a record holds for one example (a tensor row, or
    an element of a Python list of tensors). *)
Context {A : Type}.

(** An element of [data_buffer]: [{'exp': ..., 'extra': ...}]. *)
Record item := {
  exp : gmap string (list A);
  extra : option (gmap string (list A))
}.

(** [v[index : index + size]]. *)
Definition slice (index size : nat) (v : list A) : list A :=
  take size (drop index v).

(** The dictionary [dic] built by one iteration of the [while] loop;
    the entries of the extra data are assigned last. *)
Definition mini_batch (size index : nat) (it : item) : gmap string (list A) :=
  let dic := slice index size <$> exp it in
  match extra it with
  | Some batch_extra_data => (slice index size <$> batch_extra_data) ∪ dic
  | None => dic
  end.

(** [while index < batch_size: ...; index += size] for one item; the
    minibatches it appends, in order. *)
Fixpoint while_loop (fuel batch_size size index : nat) (it : item)
  : option (list (gmap string (list A))) :=
  if decide (index < batch_size) then
    match fuel with
    | O => None
    | S fuel' =>
        rest ← while_loop fuel' batch_size size (index + size) it;
        Some (mini_batch size index it :: rest)
    end
  else Some [].

(** [for item in data_buffer], each inner loop given [fuel] iterations. *)
Fixpoint for_items (fuel batch_size size : nat) (data_buffer : list item)
  : option (list (gmap string (list A))) :=
  match data_buffer with
  | [] => Some []
  | it :: items =>
      minis ← while_loop fuel batch_size size 0 it;
      rest ← for_items fuel batch_size size items;
      Some (minis ++ rest)
  end.

(** [get_mini_dataset]; [batch_size] is read once, from the first item:
    [data_buffer[0]["exp"]["sequences_ids"].shape[0]]. *)
Definition get_mini_dataset (fuel : nat) (args : Args) (data_buffer : list item)
  : outcome (list (gmap string (list A))) :=
  match data_buffer with
  | [] => Raises
  | first :: _ =>
      match exp first !! "sequences_ids"%string with
      | None => Raises
      | Some sequences_ids =>
          let batch_size := length sequences_ids in
          match for_items fuel batch_size
                  (per_device_mini_train_batch_size args) data_buffer with
          | Some mini_dataset => Returns mini_dataset
          | None => OutOfFuel
          end
      end
  end.

(** Vocabulary for the properties of the flattening: the number of
    iterations of the inner loop, the minibatches one item contributes, and
    the fields of an item as a minibatch sees them (extra data shadowing the
    experience data). *)
Definition div_ceil (n d : nat) : nat := (n + d - 1) / d.
Definition minis_of_item (batch_size size : nat) (it : item)
  : list (gmap string (list A)) :=
  (fun j => mini_batch size (j * size) it) <$> seq 0 (div_ceil batch_size size).
Definition fields (it : item) : gmap string (list A) :=
  match extra it with
  | Some batch_extra_data => batch_extra_data ∪ exp it
  | None => exp it
  end.

End WithExample.
Arguments item A : clear implicits.

End MiniDataset.

(** ** Role switching on the shared critic: [get_model_output] and
       [get_co_model_output] *)

Module RoleSwitch.

Definition tensor := list R.

(** The state-dict of a value head, [{"summary.weight": _, "summary.bias": _}],
    holding references to tensor storages. *)
Record head_dict := {
  summary_weight : nat;
  summary_bias : nat
}.

(** The mutable state of a model with a value head. [storage] maps the
    address of a tensor's storage to its contents; the parameters of
    [v_head] and the attributes registered as buffers
    ([reward_head_weight], [reward_head_bias], [critic_head_weight],
    [critic_head_bias]) refer to storages. *)
Record value_head_model := {
  storage : gmap nat tensor;
  v_head : head_dict;
  buffers : gmap string nat;
  adapters_enabled : bool;
  active_adapter : string
}.

Definition set_storage (st : gmap nat tensor) (m : value_head_model) :=
  {| storage := st; v_head := v_head m; buffers := buffers m;
     adapters_enabled := adapters_enabled m; active_adapter := active_adapter m |}.
Definition set_buffers (bs : gmap string nat) (m : value_head_model) :=
  {| storage := storage m; v_head := v_head m; buffers := bs;
     adapters_enabled := adapters_enabled m; active_adapter := active_adapter m |}.
Definition set_adapters_enabled (b : bool) (m : value_head_model) :=
  {| storage := storage m; v_head := v_head m; buffers := buffers m;
     adapters_enabled := b; active_adapter := active_adapter m |}.
Definition set_active_adapter (name : string) (m : value_head_model) :=
  {| storage := storage m; v_head := v_head m; buffers := buffers m;
     adapters_enabled := adapters_enabled m; active_adapter := name |}.

(** The separate-models trainer: the actor (of which only the adapter
    switch changes here) and the critic. *)
Record models := {
  actor_adapters_enabled : bool;
  critic_model : value_head_model
}.

(** A computation on a mutable state that returns or raises; the state
    survives the exception. *)
Inductive result (A : Type) : Type :=
| Returned (a : A)
| Raised.
Arguments Returned {A} a.
Arguments Raised {A}.

Definition M (S A : Type) : Type := S -> result A * S.

Definition ret {S A} (a : A) : M S A := fun s => (Returned a, s).
Definition bind {S A B} (c : M S A) (k : A -> M S B) : M S B :=
  fun s => match c s with
           | (Returned a, s') => k a s'
           | (Raised, s') => (Raised, s')
           end.
Definition get {S} : M S S := fun s => (Returned s, s).
Definition modify {S} (f : S -> S) : M S unit := fun s => (Returned tt, f s).
Definition raise {S A} : M S A := fun s => (Raised, s).
Definition of_option {S A} (o : option A) : M S A :=
  match o with Some a => ret a | None => raise end.

(** Run a computation of the critic inside the two-model state. *)
Definition on_critic {A} (c : M value_head_model A) : M models A :=
  fun s => let '(r, m) := c (critic_model s) in
           (r, {| actor_adapters_enabled := actor_adapters_enabled s;
                  critic_model := m |}).

(** [with model.disable_adapter(): body]. The adapter layers are disabled
    on entry and re-enabled when the body returns. Whether they are
    re-enabled when the body raises depends on the release of the adapter
    library (a [try]/[finally] in the context manager or not):
    [reenable_on_raise] says which. *)
Definition with_disable_adapter {S A} (reenable_on_raise : bool)
    (set_enabled : bool -> S -> S) (body : M S A) : M S A :=
  fun s => match body (set_enabled false s) with
           | (Returned a, s') => (Returned a, set_enabled true s')
           | (Raised, s') =>
               (Raised, if reenable_on_raise then set_enabled true s' else s')
           end.

(** [v_head.state_dict()]: references to the parameters, not copies. *)
Definition state_dict : M value_head_model head_dict :=
  fun m => (Returned (v_head m), m).

(** [setattr(model, name, t)] on a registered buffer stores the reference. *)
Definition setattr (name : string) (t : nat) : M value_head_model unit :=
  modify (fun m => set_buffers (<[name := t]> (buffers m)) m).

(** [getattr(model, name)]. *)
Definition getattr (name : string) : M value_head_model nat :=
  fun m => of_option (buffers m !! name) m.

(** [v_head.load_state_dict(d)]: each parameter is overwritten in place
    with the contents of the tensor given for its key, weight first. *)
Definition load_state_dict (d : head_dict) : M value_head_model unit :=
  fun m =>
    match storage m !! summary_weight d with
    | None => (Raised, m)
    | Some w =>
        let st := <[summary_weight (v_head m) := w]> (storage m) in
        match st !! summary_bias d with
        | None => (Raised, set_storage st m)
        | Some b =>
            (Returned tt, set_storage (<[summary_bias (v_head m) := b]> st) m)
        end
    end.

(** The contents of the value head and of the frozen reward head. *)
Definition head_contents (m : value_head_model) : option (tensor * tensor) :=
  match storage m !! summary_weight (v_head m), storage m !! summary_bias (v_head m) with
  | Some w, Some b => Some (w, b)
  | _, _ => None
  end.
Definition reward_head_contents (m : value_head_model) : option (tensor * tensor) :=
  match buffers m !! "reward_head_weight"%string,
        buffers m !! "reward_head_bias"%string with
  | Some rw, Some rb =>
      match storage m !! rw, storage m !! rb with
      | Some w, Some b => Some (w, b)
      | _, _ => None
      end
  | _, _ => None
  end.

(** A critic after some training: the value head ([1.0], [0.0]) has moved
    away from the frozen reward head ([2.0], [0.5]); both buffer pairs still
    refer to the tensors they were registered with. *)
Definition trained_critic : value_head_model :=
  {| storage := {[ 0%nat := [1%R]; 1%nat := [0%R]; 2%nat := [2%R]; 3%nat := [0.5%R] ]};
     v_head := {| summary_weight := 0; summary_bias := 1 |};
     buffers := {[ "reward_head_weight"%string := 2%nat;
                   "reward_head_bias"%string := 3%nat;
                   "critic_head_weight"%string := 2%nat;
                   "critic_head_bias"%string := 3%nat ]};
     adapters_enabled := true;
     active_adapter := "default" |}.
Definition trained_models : models :=
  {| actor_adapters_enabled := true; critic_model := trained_critic |}.

Section Forward.
(** The forward passes are external: they read the current weights and
    adapter configuration, change nothing (they run under
    [torch.no_grad]) and may raise. *)
Context {logits values : Type}.
Variable reenable_on_raise : bool.
Variable actor_forward : bool -> result logits.
Variable critic_forward : value_head_model -> result values.
Variable co_forward : value_head_model -> result (logits * values).
Variable use_multi_adapters : bool.

Definition call {S A} (f : S -> result A) : M S A := fun s => (f s, s).

(** The block that reads the reward score: save the critic head, load
    the reward head, run the model, load the saved head back. *)
Definition reward_pass (forward : M value_head_model values)
  : M value_head_model values :=
  bind state_dict (fun v_head_stat_dict =>
  bind (setattr "critic_head_weight" (summary_weight v_head_stat_dict)) (fun _ =>
  bind (setattr "critic_head_bias" (summary_bias v_head_stat_dict)) (fun _ =>
  bind (getattr "reward_head_weight") (fun rw =>
  bind (getattr "reward_head_bias") (fun rb =>
  bind (load_state_dict {| summary_weight := rw; summary_bias := rb |}) (fun _ =>
  bind forward (fun ref_values =>
  bind (getattr "critic_head_weight") (fun cw =>
  bind (getattr "critic_head_bias") (fun cb =>
  bind (load_state_dict {| summary_weight := cw; summary_bias := cb |}) (fun _ =>
  ret ref_values)))))))))).

Definition set_actor_enabled (b : bool) (s : models) : models :=
  {| actor_adapters_enabled := b; critic_model := critic_model s |}.
Definition set_critic_enabled (b : bool) (s : models) : models :=
  {| actor_adapters_enabled := actor_adapters_enabled s;
     critic_model := set_adapters_enabled b (critic_model s) |}.

Definition get_model_output : M models (logits * values * logits * values) :=
  bind (call (fun s => actor_forward (actor_adapters_enabled s))) (fun actor_logits =>
  bind (call (fun s => critic_forward (critic_model s))) (fun critic_values =>
  bind (with_disable_adapter reenable_on_raise set_actor_enabled
          (call (fun s => actor_forward (actor_adapters_enabled s)))) (fun ref_logits =>
  bind (with_disable_adapter reenable_on_raise set_critic_enabled
          (on_critic (reward_pass (call critic_forward)))) (fun ref_values =>
  ret (actor_logits, critic_values, ref_logits, ref_values))))).

Definition get_co_model_output
  : M value_head_model (logits * values * logits * values) :=
  bind (call co_forward) (fun out =>
  let actor_logits := out.1 in
  bind (if use_multi_adapters then
          bind (modify (set_active_adapter "critic")) (fun _ =>
          bind (call co_forward) (fun out' =>
          bind (modify (set_active_adapter "default")) (fun _ =>
          ret out'.2)))
        else ret out.2) (fun critic_values =>
  bind (with_disable_adapter reenable_on_raise set_adapters_enabled
          (bind (call co_forward) (fun out_ref =>
           bind (reward_pass (bind (call co_forward) (fun o => ret o.2)))
                (fun ref_values => ret (out_ref.1, ref_values)))))
       (fun ref =>
  ret (actor_logits, critic_values, ref.1, ref.2)))).

End Forward.

End RoleSwitch.

(** ** Clipped value loss: [critic_loss] *)

Module CriticLoss.
Import FloatTensor Whiten.
Local Open Scope R_scope.

(** [torch.clamp(mini_batch_critic_values, critic_values - value_clip,
    critic_values + value_clip)], with [value_clip] for
    [self.args.value_clip]. *)
Definition critic_values_clip (value_clip : R)
    (critic_values mini_batch_critic_values : list (list R)) : list (list R) :=
  zip2d (fun new old => clamp new (old - value_clip) (old + value_clip))
        mini_batch_critic_values critic_values.

(** [(x - returns) ** 2]. *)
Definition squared_error (x returns : list (list R)) : list (list R) :=
  zip2d (fun v ret => (v - ret) ^ 2) x returns.

(** [torch.max(values_error, values_clip_error)]. *)
Definition error_terms (value_clip : R)
    (critic_values mini_batch_critic_values returns : list (list R)) : list (list R) :=
  let values_error := squared_error mini_batch_critic_values returns in
  let values_clip_error :=
    squared_error (critic_values_clip value_clip critic_values mini_batch_critic_values)
                  returns in
  zip2d Rmax values_error values_clip_error.

Definition critic_loss (value_clip : R)
    (critic_values mini_batch_critic_values returns : list (list R))
    (mask : list (list Z)) : R * list (list R) :=
  let values_error := squared_error mini_batch_critic_values returns in
  let loss :=
    0.5 * masked_mean
            (error_terms value_clip critic_values mini_batch_critic_values returns) mask in
  (loss, values_error).

End CriticLoss.

(** ** Log-probabilities and entropy: [get_log_probs], [get_entropy] *)

Module LogProbs.
Import FloatTensor Whiten.
Local Open Scope R_scope.

(** [F.log_softmax(logits, dim=-1)] and [softmax(logits, dim=-1)] on the
    vocabulary axis of one position. *)
Definition sum_exp (logits : list R) : R := row_sum (exp <$> logits).
Definition log_softmax (logits : list R) : list R :=
  (fun x => x - ln (sum_exp logits)) <$> logits.
Definition softmax (logits : list R) : list R :=
  (fun x => exp x / sum_exp logits) <$> logits.

(** [log_probs.gather(dim=-1, index=label)] at one position: the index must
    lie in the vocabulary. *)
Definition gather (log_probs : list R) (label : Z) : option R :=
  if (0 <=? label)%Z then log_probs !! Z.to_nat label else None.

(** [gather] along a row and along the batch: the result has the shape of
    the index tensor, which may not exceed the input on the other axes. *)
Fixpoint gather_row (log_probs : list (list R)) (labels : list Z) : option (list R) :=
  match labels with
  | [] => Some []
  | label :: labels' =>
      match log_probs with
      | [] => None
      | lp :: log_probs' =>
          x ← gather lp label;
          rest ← gather_row log_probs' labels';
          Some (x :: rest)
      end
  end.

Fixpoint gather_batch (log_probs : list (list (list R))) (labels : list (list Z))
  : option (list (list R)) :=
  match labels with
  | [] => Some []
  | row_labels :: labels' =>
      match log_probs with
      | [] => None
      | row :: log_probs' =>
          x ← gather_row row row_labels;
          rest ← gather_batch log_probs' labels';
          Some (x :: rest)
      end
  end.

Definition get_log_probs (logits : list (list (list R))) (labels : list (list Z))
  : option (list (list R)) :=
  let log_probs := (fun row : list (list R) => log_softmax <$> row) <$> logits in
  gather_batch log_probs labels.

(** [-torch.sum(probs * log_probs, dim=-1)] at one position. *)
Definition position_entropy (logits : list R) : R :=
  - row_sum (zip_with Rmult (softmax logits) (log_softmax logits)).

Definition get_entropy (logits : list (list (list R))) (mask : list (list Z)) : R :=
  masked_mean (map2d position_entropy logits) mask.

End LogProbs.

(** ** Checkpoint contents: [get_state_dict] *)

Module Checkpoint.

Section WithTensor.
Context {T : Type}.

(** [for k, v in v_head_state_dict.items(): d[f"v_head.{k}"] = v]. *)
Definition add_v_head (d v_head_state_dict : gmap string T) : gmap string T :=
  map_fold (fun k v acc => <[("v_head." +:+ k)%string := v]> acc) d v_head_state_dict.

Definition get_state_dict (pretrained_model_state_dict v_head_state_dict : gmap string T)
  : gmap string T :=
  add_v_head pretrained_model_state_dict v_head_state_dict.

End WithTensor.

End Checkpoint.

(** ** Collecting one batch of experience: [get_experience_data] *)

Module Experience.
Import Tensor FloatTensor SequenceProcessor ResponseMask Rewards Advantages LogProbs.
Local Open Scope R_scope.

(** [x[:, :-1]] and [x[:, 1:]]. *)
Definition drop_last_column {A} (x : list (list A)) : list (list A) :=
  (fun row : list A => take (length row - 1) row) <$> x.
Definition drop_first_column {A} (x : list (list A)) : list (list A) :=
  (fun row : list A => drop 1 row) <$> x.

(** [masked_mean(data, mask, dim=-1)]: one mean per row. *)
Definition masked_mean_rows (data : list (list R)) (mask : list (list Z)) : list R :=
  let data := mul_mask data mask in
  zip_with (fun (d : list R) (m : list Z) => row_sum d / (row_sum (IZR <$> m) + 1e-8))
           data mask.

(** The dictionary that [get_experience_data] returns. *)
Record experience := {
  prompts_ids : list (list Z);
  responses_ids : list (list Z);
  responses_mask : list (list Z);
  sequences_ids : list (list Z);
  sequences_mask : list (list Z);
  actor_log_probs : list (list R);
  ref_log_probs : list (list R);
  rewards_with_kl_penalty : list (list R);
  rewards_score : list R;
  kl_penalty : list (list R);
  critic_values : list (list R);
  advantages : list (list R);
  returns : list (list R);
  actor_ce_loss : list R;
  ref_ce_loss : list R
}.

Section WithModel.
(** Generation and the forward passes ([get_model_output] or
    [get_co_model_output], according to [use_co_model]) are external here:
    they give the responses and
    [(actor_logits, critic_values, ref_logits, ref_values)], or raise. *)
Variable pad_token_id : Z.
Variable generate : list (list Z) -> option (list (list Z)).
Variable model_output :
  sequences ->
  option (list (list (list R)) * list (list R) * list (list (list R)) * list (list R)).

(** [get_experience_data] on one process ([is_distributed] false, no padding
    across processes). *)
Definition get_experience_data (args : Args) (prompts_ids : list (list Z))
  : option experience :=
  responses_ids ← generate prompts_ids;
  '(prompts_without_padding, responses_without_padding, seqs) ←
    process_sequences pad_token_id prompts_ids responses_ids;
  '(actor_logits, critic_values, ref_logits, ref_values) ← model_output seqs;
  actor_log_probs ←
    get_log_probs (drop_last_column actor_logits) (drop_first_column (input_ids seqs));
  let actor_ce_loss :=
    Ropp <$> masked_mean_rows actor_log_probs (drop_first_column (attention_mask seqs)) in
  ref_log_probs ←
    get_log_probs (drop_last_column ref_logits) (drop_first_column (input_ids seqs));
  let ref_ce_loss :=
    Ropp <$> masked_mean_rows ref_log_probs (drop_first_column (attention_mask seqs)) in
  responses_mask ← get_responses_mask (attention_mask seqs) prompts_without_padding;
  '(rewards_with_kl_penalty, kl_penalty, rewards_score) ←
    compute_rewards_with_kl_penalty args ref_values actor_log_probs ref_log_probs
      responses_mask;
  let critic_values :=
    mul_mask (drop_last_column critic_values) (drop_first_column responses_mask) in
  let rewards_with_kl_penalty :=
    mul_mask rewards_with_kl_penalty (drop_first_column responses_mask) in
  '(advantages, returns) ←
    get_advantages_and_returns args critic_values rewards_with_kl_penalty responses_mask;
  Some {| prompts_ids := prompts_without_padding;
          responses_ids := responses_without_padding;
          responses_mask := responses_mask;
          sequences_ids := input_ids seqs;
          sequences_mask := attention_mask seqs;
          actor_log_probs := actor_log_probs;
          ref_log_probs := ref_log_probs;
          rewards_with_kl_penalty := rewards_with_kl_penalty;
          rewards_score := rewards_score;
          kl_penalty := kl_penalty;
          critic_values := critic_values;
          advantages := advantages;
          returns := returns;
          actor_ce_loss := actor_ce_loss;
          ref_ce_loss := ref_ce_loss |}.

End WithModel.

End Experience.

(** * Properties *)

(** ** Response mask *)

Section ResponseMaskFacts.
Import Tensor ResponseMask.

Lemma response_mask_of_length (row prompt : list Z) :
  length (response_mask_of row prompt) = length row.
Proof.
  unfold response_mask_of, zeros_like.
  rewrite length_app, length_take, length_drop, length_replicate. lia.
Qed.

Lemma response_mask_of_prompt (row prompt : list Z) (j : nat) :
  j < length prompt -> j < length row ->
  response_mask_of row prompt !! j = Some 0%Z.
Proof.
  intros Hp Hr. unfold response_mask_of, zeros_like.
  rewrite lookup_app_l by (rewrite length_take, length_replicate; lia).
  rewrite lookup_take_lt by lia.
  apply lookup_replicate_2. lia.
Qed.

Lemma response_mask_of_response (row prompt : list Z) (j : nat) :
  length prompt <= j ->
  response_mask_of row prompt !! j = row !! j.
Proof.
  intros Hp. unfold response_mask_of, zeros_like.
  destruct (decide (length prompt <= length row)) as [Hle | Hgt].
  - rewrite lookup_app_r by (rewrite length_take, length_replicate; lia).
    rewrite length_take, length_replicate, lookup_drop.
    f_equal. lia.
  - rewrite (lookup_ge_None_2 row j) by lia.
    apply lookup_ge_None_2.
    rewrite length_app, length_take, length_drop, length_replicate. lia.
Qed.

Lemma responses_mask_rows_returns
    (sequences_mask prompts_without_padding : list (list Z)) :
  length sequences_mask <= length prompts_without_padding ->
  exists responses_mask,
    responses_mask_rows sequences_mask prompts_without_padding = Some responses_mask /\
    length responses_mask = length sequences_mask /\
    forall i row prompt,
      sequences_mask !! i = Some row ->
      prompts_without_padding !! i = Some prompt ->
      responses_mask !! i = Some (response_mask_of row prompt).
Proof.
  revert prompts_without_padding.
  induction sequences_mask as [| row rows IH]; intros prompts Hlen.
  - exists []. split; [reflexivity | split; [reflexivity |]].
    intros i r p Hi. rewrite lookup_nil in Hi. discriminate.
  - destruct prompts as [| prompt prompts]; [simpl in Hlen; lia |].
    simpl in Hlen.
    destruct (IH prompts) as (rest & Hrest & Hlrest & Hrows); [lia |].
    exists (response_mask_of row prompt :: rest).
    split; [simpl; rewrite Hrest; reflexivity |].
    split; [simpl; lia |].
    intros [| i] r p Hr Hp; simpl in Hr, Hp.
    + inversion Hr; inversion Hp; subst. reflexivity.
    + apply (Hrows i r p Hr Hp).
Qed.

Lemma responses_mask_rows_short
    (sequences_mask prompts_without_padding : list (list Z)) :
  length prompts_without_padding < length sequences_mask ->
  responses_mask_rows sequences_mask prompts_without_padding = None.
Proof.
  revert prompts_without_padding.
  induction sequences_mask as [| row rows IH]; intros prompts Hlen;
    [simpl in Hlen; lia |].
  destruct prompts as [| prompt prompts]; [reflexivity |].
  simpl in Hlen. simpl. rewrite IH by lia. reflexivity.
Qed.

Lemma stack_returns {A} (tensors : list A) :
  tensors <> [] -> stack tensors = Some tensors.
Proof. destruct tensors; [congruence | reflexivity]. Qed.

Lemma stack_inv {A} (tensors stacked : list A) :
  stack tensors = Some stacked -> stacked = tensors /\ tensors <> [].
Proof. destruct tensors; [discriminate |]. intros [= <-]. split; congruence. Qed.

(** What a returned response mask is made of. *)
Lemma get_responses_mask_inv
    (sequences_mask prompts_without_padding responses_mask : list (list Z)) :
  get_responses_mask sequences_mask prompts_without_padding = Some responses_mask ->
  sequences_mask <> [] /\
  length sequences_mask <= length prompts_without_padding /\
  responses_mask_rows sequences_mask prompts_without_padding = Some responses_mask.
Proof.
  unfold get_responses_mask. intros Hrun.
  destruct (responses_mask_rows sequences_mask prompts_without_padding)
    as [rows |] eqn:Hrows; [| discriminate].
  simpl in Hrun. apply stack_inv in Hrun. destruct Hrun as [-> Hne].
  destruct (decide (length sequences_mask <= length prompts_without_padding))
    as [Hle | Hgt];
    [| rewrite responses_mask_rows_short in Hrows by lia; discriminate].
  split; [| split; [exact Hle | reflexivity]].
  intros ->. simpl in Hrows. injection Hrows as <-. congruence.
Qed.

(** C4. For every non-empty batch (with a prompt for each row),
    [get_responses_mask] returns a mask with the shape of the attention mask
    that is zero at every prompt-segment index of every example, whatever
    the attention mask holds there, and equal to the attention mask at every
    index at or past the prompt's length; and these are the only batches on
    which it returns: on an empty batch [torch.stack] raises, on a missing
    prompt the indexing does. *)
Theorem get_responses_mask_invariant
    (sequences_mask prompts_without_padding : list (list Z)) :
  (is_Some (get_responses_mask sequences_mask prompts_without_padding) <->
   sequences_mask <> [] /\ length sequences_mask <= length prompts_without_padding) /\
  (sequences_mask <> [] ->
   length sequences_mask <= length prompts_without_padding ->
   exists responses_mask,
     get_responses_mask sequences_mask prompts_without_padding = Some responses_mask /\
     length responses_mask = length sequences_mask /\
     forall i row prompt,
       sequences_mask !! i = Some row ->
       prompts_without_padding !! i = Some prompt ->
       exists r,
         responses_mask !! i = Some r /\
         length r = length row /\
         (forall j, j < length prompt -> j < length row -> r !! j = Some 0%Z) /\
         (forall j, length prompt <= j -> r !! j = row !! j)).
Proof.
  assert (Hreturns :
    sequences_mask <> [] ->
    length sequences_mask <= length prompts_without_padding ->
    exists responses_mask,
      get_responses_mask sequences_mask prompts_without_padding = Some responses_mask /\
      length responses_mask = length sequences_mask /\
      forall i row prompt,
        sequences_mask !! i = Some row ->
        prompts_without_padding !! i = Some prompt ->
        exists r,
          responses_mask !! i = Some r /\
          length r = length row /\
          (forall j, j < length prompt -> j < length row -> r !! j = Some 0%Z) /\
          (forall j, length prompt <= j -> r !! j = row !! j)).
  { intros Hne Hlen.
    destruct (responses_mask_rows_returns sequences_mask prompts_without_padding Hlen)
      as (rows & Hrows & Hlrows & Hrow).
    exists rows. split.
    - unfold get_responses_mask. rewrite Hrows. simpl. apply stack_returns.
      intros ->. simpl in Hlrows. destruct sequences_mask; [congruence | discriminate].
    - split; [exact Hlrows |].
      intros i row prompt Hr Hp.
      exists (response_mask_of row prompt). split; [exact (Hrow i row prompt Hr Hp) |].
      split; [apply response_mask_of_length |].
      split; [intros; now apply response_mask_of_prompt
             | intros; now apply response_mask_of_response]. }
  split; [| exact Hreturns].
  split.
  - intros [rm Hrm]. destruct (get_responses_mask_inv _ _ _ Hrm) as (Hne & Hle & _).
    split; assumption.
  - intros [Hne Hle]. destruct (Hreturns Hne Hle) as (rm & Hrm & _). eauto.
Qed.

Lemma get_responses_mask_invariant_witness :
  [[1; 1; 1; 1; 0]%Z; [1; 1; 1; 0; 0]%Z] <> [] /\
  length [[1; 1; 1; 1; 0]%Z; [1; 1; 1; 0; 0]%Z] <= length [[7; 8]%Z; [9]%Z] /\
  exists responses_mask,
    get_responses_mask [[1; 1; 1; 1; 0]%Z; [1; 1; 1; 0; 0]%Z] [[7; 8]%Z; [9]%Z]
    = Some responses_mask /\
    length responses_mask = 2 /\
    responses_mask = [[0; 0; 1; 1; 0]%Z; [0; 1; 1; 0; 0]%Z].
Proof.
  assert (Hne : [[1; 1; 1; 1; 0]%Z; [1; 1; 1; 0; 0]%Z] <> []) by discriminate.
  assert (Hlen : length [[1; 1; 1; 1; 0]%Z; [1; 1; 1; 0; 0]%Z]
                 <= length [[7; 8]%Z; [9]%Z]) by (simpl; lia).
  split; [exact Hne |]. split; [exact Hlen |].
  destruct (proj2 (get_responses_mask_invariant
                     [[1; 1; 1; 1; 0]%Z; [1; 1; 1; 0; 0]%Z] [[7; 8]%Z; [9]%Z])
              Hne Hlen)
    as (rm & Hrm & Hl & _).
  exists rm. split; [exact Hrm |]. split; [exact Hl |].
  cbv in Hrm. injection Hrm as <-. reflexivity.
Defined.

End ResponseMaskFacts.

(** ** Sequence processing *)

Section SequenceProcessorFacts.
Import Tensor SequenceProcessor.

Lemma count_ne_all_padding (pad : Z) (response : list Z) :
  Forall (fun t => t = pad) response -> count_ne pad response = 0.
Proof.
  unfold count_ne. induction 1 as [| t ts Ht _ IH]; [reflexivity |].
  simpl. subst t. rewrite Z.eqb_refl. simpl. exact IH.
Qed.

Lemma strip_example_all_padding (pad : Z) (prompt response : list Z) :
  Forall (fun t => t = pad) response ->
  snd (strip_example pad prompt response) = [].
Proof.
  intros Hall. unfold strip_example. simpl.
  rewrite count_ne_all_padding by assumption. reflexivity.
Qed.

Lemma strip_batch_returns (pad : Z) (prompts_ids responses_ids : list (list Z)) :
  length prompts_ids <= length responses_ids ->
  exists ps rs,
    strip_batch pad prompts_ids responses_ids = Some (ps, rs) /\
    length ps = length prompts_ids /\ length rs = length prompts_ids /\
    forall i prompt response,
      prompts_ids !! i = Some prompt -> responses_ids !! i = Some response ->
      ps !! i = Some (fst (strip_example pad prompt response)) /\
      rs !! i = Some (snd (strip_example pad prompt response)).
Proof.
  revert responses_ids.
  induction prompts_ids as [| prompt prompts IH]; intros responses Hlen.
  - exists [], []. repeat split; intros; rewrite lookup_nil in *; discriminate.
  - destruct responses as [| response responses]; [simpl in Hlen; lia |].
    simpl in Hlen.
    destruct (IH responses) as (ps & rs & Hs & Hlp & Hlr & Hrows); [lia |].
    exists (fst (strip_example pad prompt response) :: ps),
           (snd (strip_example pad prompt response) :: rs).
    split; [simpl strip_batch; rewrite Hs; reflexivity |].
    split; [simpl; lia |]. split; [simpl; lia |].
    intros [| i] p r Hp Hr; simpl in Hp, Hr.
    + inversion Hp; inversion Hr; subst. split; reflexivity.
    + apply (Hrows i p r Hp Hr).
Qed.

(** C9 fails on the code: a batch whose only response is entirely padding
    is processed without any error being raised and without clamping; the
    returned response of that example has length zero. *)
Lemma process_sequences_empty_response_counterexample :
  Forall (fun t => t = 0%Z) [0; 0]%Z /\
  process_sequences 0 [[0; 5]%Z] [[0; 0]%Z]
  = Some ([[5]%Z], [[]],
          {| input_ids := [[5]%Z]; attention_mask := [[1]%Z] |}).
Proof. split; [repeat constructor | reflexivity]. Qed.

(** C9, amended. For every non-empty batch with a response row for each
    prompt row, [process_sequences] returns normally and never raises;
    every example whose response consists entirely of padding tokens is
    returned with a zero-length response (no clamping to length 1). *)
Theorem process_sequences_all_padding_response
    (pad : Z) (prompts_ids responses_ids : list (list Z)) :
  prompts_ids <> [] ->
  length prompts_ids <= length responses_ids ->
  exists prompts_without_padding responses_without_padding seqs,
    process_sequences pad prompts_ids responses_ids
    = Some (prompts_without_padding, responses_without_padding, seqs) /\
    length responses_without_padding = length prompts_ids /\
    forall i response,
      i < length prompts_ids ->
      responses_ids !! i = Some response ->
      Forall (fun t => t = pad) response ->
      responses_without_padding !! i = Some [].
Proof.
  intros Hne Hlen.
  destruct (strip_batch_returns pad prompts_ids responses_ids Hlen)
    as (ps & rs & Hs & Hlp & Hlr & Hrows).
  unfold process_sequences. rewrite Hs.
  destruct prompts_ids as [| prompt prompts]; [congruence |].
  destruct ps as [| p ps]; [simpl in Hlp; lia |].
  destruct rs as [| r rs]; [simpl in Hlr; lia |].
  simpl zip_with. cbv iota.
  eexists _, _, _. split; [reflexivity |]. split; [exact Hlr |].
  intros i response Hi Hresp Hall.
  destruct (lookup_lt_is_Some_2 (prompt :: prompts) i Hi) as [q Hq].
  destruct (Hrows i q response Hq Hresp) as [_ Hr].
  rewrite Hr. f_equal. now apply strip_example_all_padding.
Qed.

Lemma process_sequences_all_padding_response_witness :
  [[0; 5]%Z] <> [] /\
  length [[0; 5]%Z] <= length [[0; 0]%Z] /\
  exists prompts_without_padding responses_without_padding seqs,
    process_sequences 0 [[0; 5]%Z] [[0; 0]%Z]
    = Some (prompts_without_padding, responses_without_padding, seqs) /\
    length responses_without_padding = length [[0; 5]%Z] /\
    forall i response,
      i < length [[0; 5]%Z] ->
      [[0; 0]%Z] !! i = Some response ->
      Forall (fun t => t = 0%Z) response ->
      responses_without_padding !! i = Some [].
Proof.
  assert (Hne : [[0; 5]%Z] <> []) by discriminate.
  assert (Hlen : length [[0; 5]%Z] <= length [[0; 0]%Z]) by (simpl; lia).
  split; [exact Hne |]. split; [exact Hlen |].
  exact (process_sequences_all_padding_response 0 _ _ Hne Hlen).
Defined.

End SequenceProcessorFacts.

(** ** Replay buffer flattening *)

Section MiniDatasetFacts.
Import MiniDataset.
Context {A : Type}.

Lemma div_ceil_step (n d : nat) :
  0 < d -> 0 < n -> div_ceil n d = S (div_ceil (n - d) d).
Proof.
  intros Hd Hn. unfold div_ceil.
  destruct (decide (d <= n)) as [Hle | Hlt].
  - replace (n + d - 1) with ((n - d + d - 1) + 1 * d) by lia.
    rewrite Nat.div_add by lia. lia.
  - replace (n - d) with 0 by lia.
    rewrite (Nat.div_small (0 + d - 1) d) by lia.
    replace (n + d - 1) with ((n - 1) + 1 * d) by lia.
    rewrite Nat.div_add by lia.
    rewrite Nat.div_small by lia. reflexivity.
Qed.

Lemma div_ceil_zero (d : nat) : 0 < d -> div_ceil 0 d = 0.
Proof. intros Hd. unfold div_ceil. apply Nat.div_small. lia. Qed.

Lemma while_loop_returns (fuel batch_size size index : nat) (it : item A) :
  0 < size -> batch_size <= index + fuel ->
  while_loop fuel batch_size size index it
  = Some ((fun j => mini_batch size (index + j * size) it)
            <$> seq 0 (div_ceil (batch_size - index) size)).
Proof.
  intros Hsize. revert index.
  induction fuel as [| fuel IH]; intros index Hfuel.
  - simpl. destruct (decide (index < batch_size)); [lia |].
    replace (batch_size - index) with 0 by lia.
    rewrite div_ceil_zero by lia. reflexivity.
  - simpl. destruct (decide (index < batch_size)) as [Hlt | Hge].
    + rewrite IH by lia. simpl.
      rewrite (div_ceil_step (batch_size - index) size) by lia.
      replace (batch_size - index - size) with (batch_size - (index + size)) by lia.
      simpl. rewrite Nat.add_0_r. do 2 f_equal.
      rewrite <- (fmap_S_seq 0), <- list_fmap_compose.
      apply list_fmap_ext. intros _ j _. simpl. f_equal. lia.
    + replace (batch_size - index) with 0 by lia.
      rewrite div_ceil_zero by lia. reflexivity.
Qed.

Lemma for_items_returns (fuel batch_size size : nat) (data_buffer : list (item A)) :
  0 < size -> batch_size <= fuel ->
  for_items fuel batch_size size data_buffer
  = Some (flat_map (minis_of_item batch_size size) data_buffer).
Proof.
  intros Hsize Hfuel.
  induction data_buffer as [| it items IH]; [reflexivity |].
  simpl. rewrite while_loop_returns by lia. simpl. rewrite IH. simpl.
  rewrite Nat.sub_0_r. reflexivity.
Qed.

Lemma mini_batch_lookup (size index : nat) (it : item A) (k : string) :
  mini_batch size index it !! k = slice index size <$> fields it !! k.
Proof.
  unfold mini_batch, fields. destruct (extra it) as [e |].
  - rewrite <- map_fmap_union. apply lookup_fmap.
  - apply lookup_fmap.
Qed.

Lemma slice_length (index size : nat) (v : list A) :
  length (slice index size v) = Nat.min size (length v - index).
Proof. unfold slice. rewrite length_take, length_drop. reflexivity. Qed.

Lemma last_slice_partial (batch_size size j : nat) :
  0 < size -> j < div_ceil batch_size size -> batch_size < (j + 1) * size ->
  j = batch_size / size /\
  Nat.min size (batch_size - j * size) = batch_size mod size /\
  0 < batch_size mod size < size.
Proof.
  intros Hsize Hj Hlast. unfold div_ceil in Hj.
  assert (Hjs : j * size < batch_size).
  { pose proof (Nat.Div0.mul_div_le (batch_size + size - 1) size). nia. }
  assert (Hq : j = batch_size / size).
  { apply (Nat.div_unique batch_size size j (batch_size - j * size)); lia. }
  pose proof (Nat.div_mod_eq batch_size size) as Hdm.
  pose proof (Nat.mod_upper_bound batch_size size) as Hmod.
  rewrite <- Hq in Hdm. split; [exact Hq |]. nia.
Qed.

(** C5 fails on the code: with a record of 3 examples and a minibatch size
    of 2, the flattening emits a second minibatch that holds the one
    remaining example; nothing is dropped and the shapes are not uniform. *)
Lemma get_mini_dataset_partial_counterexample :
  get_mini_dataset 3
    (Build_Args "identity" 0.1 None 1 1 false 0.2 2 1 None)
    [ {| exp := {[ "sequences_ids"%string := [10; 11; 12] ]}; extra := None |} ]
  = Returns [ {[ "sequences_ids"%string := [10; 11] ]};
              {[ "sequences_ids"%string := [12] ]} ].
Proof. vm_compute. reflexivity. Qed.

(** C5, amended. For a positive minibatch size and a non-empty buffer whose
    first record has [batch_size] examples ([batch_size] is read once, from
    the first record), [get_mini_dataset] returns, for each record in order,
    the minibatches starting at the indices [0, size, 2*size, ...] below
    [batch_size]. In minibatch [j] of a record, every field [v] of the
    record is cut to [v[j*size : (j+1)*size]], which holds
    [min(size, len(v) - j*size)] examples, at most [size]. A field of
    [batch_size] examples is thus cut into slices of exactly [size]
    examples, followed, when [batch_size] is not a multiple of [size], by a
    last, partial slice of the remaining [batch_size mod size] examples:
    that minibatch is emitted, neither dropped nor padded. *)
Theorem get_mini_dataset_slices
    (fuel : nat) (args : Args) (first : item A) (rest : list (item A))
    (sequences_ids : list A) :
  0 < per_device_mini_train_batch_size args ->
  exp first !! "sequences_ids"%string = Some sequences_ids ->
  length sequences_ids <= fuel ->
  get_mini_dataset fuel args (first :: rest)
  = Returns (flat_map (minis_of_item (length sequences_ids)
                         (per_device_mini_train_batch_size args))
                      (first :: rest)) /\
  forall (it : item A) (j : nat) (k : string) (v : list A),
    In it (first :: rest) ->
    j < div_ceil (length sequences_ids) (per_device_mini_train_batch_size args) ->
    fields it !! k = Some v ->
    exists v',
      mini_batch (per_device_mini_train_batch_size args)
                 (j * per_device_mini_train_batch_size args) it !! k = Some v' /\
      v' = slice (j * per_device_mini_train_batch_size args)
                 (per_device_mini_train_batch_size args) v /\
      length v'
      = Nat.min (per_device_mini_train_batch_size args)
                (length v - j * per_device_mini_train_batch_size args) /\
      length v' <= per_device_mini_train_batch_size args /\
      (length v = length sequences_ids ->
       length v'
       = (if decide ((j + 1) * per_device_mini_train_batch_size args
                     <= length sequences_ids)
          then per_device_mini_train_batch_size args
          else length sequences_ids mod per_device_mini_train_batch_size args) /\
       0 < length v').
Proof.
  set (size := per_device_mini_train_batch_size args).
  set (batch_size := length sequences_ids).
  intros Hsize Hids Hfuel. split.
  - unfold get_mini_dataset. rewrite Hids. fold batch_size size.
    rewrite for_items_returns by assumption. reflexivity.
  - intros it j k v _ Hj Hv.
    exists (slice (j * size) size v).
    rewrite mini_batch_lookup, Hv. split; [reflexivity |].
    split; [reflexivity |].
    rewrite slice_length. split; [reflexivity |]. split; [lia |].
    intros Hlen. rewrite Hlen.
    destruct (decide ((j + 1) * size <= batch_size)) as [Hfull | Hpart].
    + split; lia.
    + destruct (last_slice_partial batch_size size j) as (_ & Hmin & Hmod);
        [assumption | assumption | lia |].
      rewrite Hmin. split; lia.
Qed.

End MiniDatasetFacts.

Lemma get_mini_dataset_slices_witness :
  0 < 2 /\
  ({[ "sequences_ids"%string := [10; 11; 12] ]} : gmap string (list nat))
    !! "sequences_ids"%string = Some [10; 11; 12] /\
  length [10; 11; 12] <= 3 /\
  exists v',
    MiniDataset.mini_batch 2 (1 * 2)
      {| MiniDataset.exp := {[ "sequences_ids"%string := [10; 11; 12] ]}; MiniDataset.extra := None |}
      !! "sequences_ids"%string = Some v' /\
    length v' = 1.
Proof.
  pose (args := Build_Args "identity" 0.1 None 1 1 false 0.2 2 1 None).
  pose (it := {| MiniDataset.exp := {[ "sequences_ids"%string := [10; 11; 12] ]};
                 MiniDataset.extra := None |} : MiniDataset.item nat).
  assert (Hsize : 0 < per_device_mini_train_batch_size args) by (simpl; lia).
  assert (Hids : MiniDataset.exp it !! "sequences_ids"%string = Some [10; 11; 12])
    by apply lookup_singleton_eq.
  assert (Hfuel : length [10; 11; 12] <= 3) by (simpl; lia).
  split; [exact Hsize |]. split; [exact Hids |]. split; [exact Hfuel |].
  destruct (get_mini_dataset_slices (A := nat) 3 args it [] [10; 11; 12]
              Hsize Hids Hfuel)
    as [_ Hslices].
  destruct (Hslices it 1 "sequences_ids"%string [10; 11; 12])
    as (v' & Hv' & _ & Hlen & _).
  - left. reflexivity.
  - vm_compute. lia.
  - exact Hids.
  - exists v'. split; [exact Hv' | exact Hlen].
Defined.


(** ** Index loops and the last nonzero index *)

Section LoopFacts.
Import Tensor.

Lemma mapM_cons_eq {A B} (f : A -> option B) (x : A) (l : list A) :
  mapM f (x :: l) = y ← f x; k ← mapM f l; Some (y :: k).
Proof. reflexivity. Qed.

Lemma mapM_seq_lookup {B} (f : nat -> option B) (n : nat) (k : list B) :
  mapM f (seq 0 n) = Some k ->
  length k = n /\ forall i, i < n -> exists y, k !! i = Some y /\ f i = Some y.
Proof.
  intros Hm. pose proof (length_mapM _ _ _ Hm) as Hlen.
  rewrite length_seq in Hlen. split; [lia |].
  apply mapM_Some_1 in Hm. intros i Hi.
  destruct (lookup_lt_is_Some_2 k i) as [y Hy]; [lia |].
  exists y. split; [exact Hy |].
  apply (Forall2_lookup_lr _ _ _ i i y Hm); [| exact Hy].
  apply lookup_seq. lia.
Qed.

Lemma mapM_seq_is_Some {B} (f : nat -> option B) (n : nat) :
  (forall i, i < n -> is_Some (f i)) -> is_Some (mapM f (seq 0 n)).
Proof.
  intros Hf. apply mapM_is_Some_2, Forall_forall.
  intros i Hi. apply elem_of_seq in Hi. apply Hf. lia.
Qed.

Lemma last_nonzero_from_spec (i : nat) (x : list Z) :
  match last (nonzero_from i x) with
  | Some k => exists e, k = i + e /\ is_last_nonzero x e
  | None => Forall (fun m => m = 0%Z) x
  end.
Proof.
  revert i. induction x as [| m x IH]; intros i; [constructor |].
  simpl. specialize (IH (S i)).
  destruct (Z.eqb_spec m 0) as [Hz | Hnz].
  - destruct (last (nonzero_from (S i) x)) as [k |].
    + destruct IH as (e & -> & (y & Hy & Hny) & Hlater).
      exists (S e). split; [lia |]. split; [exists y; split; assumption |].
      intros [| j] y' Hj Hy'; [lia |]. apply (Hlater j y'); [lia | exact Hy'].
    + constructor; assumption.
  - rewrite last_cons.
    destruct (last (nonzero_from (S i) x)) as [k |].
    + destruct IH as (e & -> & (y & Hy & Hny) & Hlater).
      exists (S e). split; [lia |]. split; [exists y; split; assumption |].
      intros [| j] y' Hj Hy'; [lia |]. apply (Hlater j y'); [lia | exact Hy'].
    + exists 0. split; [lia |]. split; [exists m; split; [reflexivity | assumption] |].
      intros [| j] y' Hj Hy'; [lia |]. simpl in Hy'.
      rewrite Forall_forall in IH. apply IH.
      apply list_elem_of_lookup. exists j. exact Hy'.
Qed.

Lemma last_nonzero_Some (x : list Z) :
  (exists j m, x !! j = Some m /\ m <> 0%Z) ->
  exists e, last_nonzero x = Some e /\ is_last_nonzero x e.
Proof.
  intros (j & m & Hj & Hm). unfold last_nonzero, nonzero.
  pose proof (last_nonzero_from_spec 0 x) as Hspec.
  destruct (last (nonzero_from 0 x)) as [k |].
  - destruct Hspec as (e & -> & He). exists e. split; [reflexivity | exact He].
  - rewrite Forall_forall in Hspec. exfalso. apply Hm, Hspec.
    apply list_elem_of_lookup. exists j. exact Hj.
Qed.

Lemma is_last_nonzero_lt (x : list Z) (e : nat) :
  is_last_nonzero x e -> e < length x.
Proof. intros [(m & Hm & _) _]. apply lookup_lt_Some in Hm. exact Hm. Qed.

End LoopFacts.

(** ** KL-penalised rewards *)

Section RewardsFacts.
Import Tensor FloatTensor Rewards.
Local Open Scope R_scope.

Lemma kl_transform_cases (kl : R) :
  kl_transform "identity" kl = kl /\
  kl_transform "abs" kl = Rabs kl /\
  kl_transform "mse" kl = kl ^ 2 * 0.5.
Proof. repeat split. Qed.

Lemma last_reward_score_of_returns (value : list R) (response_mask : list Z) :
  length value = length response_mask ->
  (exists j m, response_mask !! j = Some m /\ m <> 0%Z) ->
  exists e score,
    is_last_nonzero response_mask e /\ value !! e = Some score /\
    last_reward_score_of value response_mask = Some score.
Proof.
  intros Hlen Hnz.
  destruct (last_nonzero_Some response_mask Hnz) as (e & He & Hlast).
  destruct (lookup_lt_is_Some_2 value e) as [score Hscore].
  { rewrite Hlen. now apply is_last_nonzero_lt. }
  exists e, score. split; [exact Hlast |]. split; [exact Hscore |].
  unfold last_reward_score_of. rewrite He. simpl. exact Hscore.
Qed.

Lemma rewards_of_example_returns (args : Args) (reward_score : R)
    (actor_log_prob ref_log_prob : list R) (mask : list Z) :
  length actor_log_prob = length mask ->
  length ref_log_prob = length mask ->
  (exists j m, mask !! j = Some m /\ m <> 0%Z) ->
  exists e row,
    is_last_nonzero mask e /\
    rewards_of_example args reward_score actor_log_prob ref_log_prob mask
    = Some (row, row, clip_reward_score args reward_score) /\
    forall t a_t r_t,
      actor_log_prob !! t = Some a_t -> ref_log_prob !! t = Some r_t ->
      row !! t
      = Some (if decide (t = e)
              then kl_penalty_at args a_t r_t + clip_reward_score args reward_score
              else kl_penalty_at args a_t r_t).
Proof.
  intros Hla Hlr Hnz.
  destruct (last_nonzero_Some mask Hnz) as (e & He & Hlast).
  pose proof (is_last_nonzero_lt _ _ Hlast) as Hlt.
  exists e. eexists. split; [exact Hlast |].
  unfold rewards_of_example.
  rewrite decide_True by congruence. rewrite He. simpl.
  rewrite decide_True by (rewrite length_zip_with; lia).
  split; [reflexivity |].
  intros t a_t r_t Ha Hr.
  destruct (decide (t = e)) as [-> | Hne].
  - rewrite list_lookup_alter, decide_True by reflexivity.
    rewrite lookup_zip_with, Ha. simpl. rewrite Hr. reflexivity.
  - rewrite list_lookup_alter_ne by congruence.
    rewrite lookup_zip_with, Ha. simpl. rewrite Hr. reflexivity.
Qed.

Lemma get_last_reward_score_inv
    (values : list (list R)) (responses_mask : list (list Z)) (scores : list R) :
  get_last_reward_score values responses_mask = Some scores ->
  values <> [] /\
  mapM (fun i : nat =>
          value ← values !! i;
          response_mask ← responses_mask !! i;
          last_reward_score_of value response_mask)
       (seq 0 (length values)) = Some scores.
Proof.
  unfold get_last_reward_score. intros Hrun.
  destruct (mapM _ (seq 0 (length values))) as [reward_score |] eqn:Hloop;
    [| discriminate].
  simpl in Hrun. destruct reward_score as [| s0 reward_score]; [discriminate |].
  injection Hrun as <-. split; [| reflexivity].
  intros ->. simpl in Hloop. discriminate.
Qed.

Lemma get_last_reward_score_returns
    (values : list (list R)) (responses_mask : list (list Z)) (scores : list R) :
  values <> [] ->
  mapM (fun i : nat =>
          value ← values !! i;
          response_mask ← responses_mask !! i;
          last_reward_score_of value response_mask)
       (seq 0 (length values)) = Some scores ->
  get_last_reward_score values responses_mask = Some scores.
Proof.
  intros Hne Hloop. unfold get_last_reward_score. rewrite Hloop. simpl.
  destruct scores as [| s0 scores]; [| reflexivity].
  apply length_mapM in Hloop. rewrite length_seq in Hloop.
  destruct values; [congruence | discriminate].
Qed.

(** C1 fails on the code as stated: an example whose response mask is
    nonzero only at index 0 satisfies the claim's hypothesis, but
    [responses_mask[:, 1:]] is then all zero and
    [mask.nonzero()[-1]] raises: no reward series is produced. *)
Lemma compute_rewards_first_index_counterexample :
  (exists j m, [1; 0]%Z !! j = Some m /\ m <> 0%Z) /\
  compute_rewards_with_kl_penalty
    (Build_Args "identity" 0.1 None 1 1 false 0.2 2 1 None)
    [[3; 4]] [[-1]] [[-2]] [[1; 0]%Z]
  = None.
Proof.
  split; [exists 0%nat, 1%Z; split; [reflexivity | discriminate] |].
  reflexivity.
Qed.

(** C1, amended. For every non-empty batch of well-shaped tensors in which
    each example has at least one nonzero position in [responses_mask[:, 1:]],
    [compute_rewards_with_kl_penalty] returns, and the reward series of each
    example equals [- kl_penalty_beta * f (actor_log_prob_t - ref_log_prob_t)]
    at every position [t], with [f] the identity, the absolute value or
    [0.5 * kl^2] according to [kl_penalty_method], except at exactly the
    last index [e] where [responses_mask[:, 1:]] is nonzero, where the reward
    score (the reference value at the last nonzero index of the full response
    mask, clamped to [[-c, c]] when a clip [c] is configured) is added; no
    other position receives any part of the reward score. *)
Theorem compute_rewards_with_kl_penalty_placement
    (args : Args) (ref_values actor_log_probs ref_log_probs : list (list R))
    (responses_mask : list (list Z)) :
  ref_values <> [] ->
  length responses_mask = length ref_values ->
  length actor_log_probs = length ref_values ->
  length ref_log_probs = length ref_values ->
  (forall i value a r m,
      ref_values !! i = Some value -> actor_log_probs !! i = Some a ->
      ref_log_probs !! i = Some r -> responses_mask !! i = Some m ->
      length value = length m /\
      length a = length (drop 1 m) /\ length r = length (drop 1 m) /\
      exists j x, drop 1 m !! j = Some x /\ x <> 0%Z) ->
  (forall kl, kl_transform "identity" kl = kl /\
              kl_transform "abs" kl = Rabs kl /\
              kl_transform "mse" kl = kl ^ 2 * 0.5) /\
  exists rewards kl_all scores,
    compute_rewards_with_kl_penalty args ref_values actor_log_probs
      ref_log_probs responses_mask = Some (rewards, kl_all, scores) /\
    length rewards = length ref_values /\
    forall i value a r m,
      ref_values !! i = Some value -> actor_log_probs !! i = Some a ->
      ref_log_probs !! i = Some r -> responses_mask !! i = Some m ->
      exists e_full e score row,
        is_last_nonzero m e_full /\ value !! e_full = Some score /\
        is_last_nonzero (drop 1 m) e /\
        scores !! i = Some (clip_reward_score args score) /\
        rewards !! i = Some row /\
        forall t a_t r_t,
          a !! t = Some a_t -> r !! t = Some r_t ->
          row !! t
          = Some (if decide (t = e)
                  then - kl_penalty_beta args
                         * kl_transform (kl_penalty_method args) (a_t - r_t)
                       + clip_reward_score args score
                  else - kl_penalty_beta args
                         * kl_transform (kl_penalty_method args) (a_t - r_t)).
Proof.
  intros Hne Hlm Hla Hlr Hshape. split; [apply kl_transform_cases |].
  set (n := length ref_values) in *.
  assert (Hrows : forall i, (i < n)%nat -> exists value a r m,
             ref_values !! i = Some value /\ actor_log_probs !! i = Some a /\
             ref_log_probs !! i = Some r /\ responses_mask !! i = Some m).
  { intros i Hi.
    destruct (lookup_lt_is_Some_2 ref_values i) as [value Hv]; [exact Hi |].
    destruct (lookup_lt_is_Some_2 actor_log_probs i) as [a Ha]; [lia |].
    destruct (lookup_lt_is_Some_2 ref_log_probs i) as [r Hr]; [lia |].
    destruct (lookup_lt_is_Some_2 responses_mask i) as [m Hm]; [lia |].
    exists value, a, r, m. repeat split; assumption. }
  assert (Hfull : forall m, (exists j x, drop 1 m !! j = Some x /\ x <> 0%Z) ->
                            exists j x, m !! j = Some x /\ x <> 0%Z).
  { intros m (j & x & Hj & Hx). rewrite lookup_drop in Hj. eauto. }
  (* the reward scores *)
  destruct (mapM_seq_is_Some
              (fun i : nat =>
                 value ← ref_values !! i;
                 response_mask ← responses_mask !! i;
                 last_reward_score_of value response_mask) n)
    as [scores0 Hscores0].
  { intros i Hi. destruct (Hrows i Hi) as (value & a & r & m & Hv & Ha & Hr & Hm).
    destruct (Hshape i value a r m Hv Ha Hr Hm) as (Hlv & _ & _ & Hnz).
    destruct (last_reward_score_of_returns value m Hlv (Hfull m Hnz))
      as (e & score & _ & _ & Hscore).
    rewrite Hv, Hm. simpl. rewrite Hscore. eauto. }
  destruct (mapM_seq_lookup _ _ _ Hscores0) as [Hls0 Hscore_at].
  (* the per-example series *)
  set (body := fun i : nat =>
         mask ← ((fun row : list Z => drop 1 row) <$> responses_mask) !! i;
         actor_log_prob ← actor_log_probs !! i;
         ref_log_prob ← ref_log_probs !! i;
         reward_score ← scores0 !! i;
         rewards_of_example args reward_score actor_log_prob ref_log_prob mask).
  assert (Hbody : forall i value a r m,
             ref_values !! i = Some value -> actor_log_probs !! i = Some a ->
             ref_log_probs !! i = Some r -> responses_mask !! i = Some m ->
             exists e_full e score row,
               is_last_nonzero m e_full /\ value !! e_full = Some score /\
               is_last_nonzero (drop 1 m) e /\
               scores0 !! i = Some score /\
               body i = Some (row, row, clip_reward_score args score) /\
               forall t a_t r_t,
                 a !! t = Some a_t -> r !! t = Some r_t ->
                 row !! t
                 = Some (if decide (t = e)
                         then kl_penalty_at args a_t r_t + clip_reward_score args score
                         else kl_penalty_at args a_t r_t)).
  { intros i value a r m Hv Ha Hr Hm.
    assert (Hi : (i < n)%nat) by (apply lookup_lt_Some in Hv; exact Hv).
    destruct (Hshape i value a r m Hv Ha Hr Hm) as (Hlv & Hlena & Hlenr & Hnz).
    destruct (last_reward_score_of_returns value m Hlv (Hfull m Hnz))
      as (e_full & score & Hlast_full & Hval & Hscore).
    destruct (Hscore_at i Hi) as (s & Hs & Hfs).
    rewrite Hv, Hm in Hfs. simpl in Hfs. rewrite Hscore in Hfs.
    injection Hfs as <-.
    destruct (rewards_of_example_returns args score a r (drop 1 m) Hlena Hlenr Hnz)
      as (e & row & Hlast & Hex & Hpos).
    exists e_full, e, score, row.
    repeat (split; [assumption |]).
    split; [| exact Hpos].
    unfold body. rewrite list_lookup_fmap, Hm, Ha, Hr, Hs. simpl. exact Hex. }
  destruct (mapM_seq_is_Some body (length scores0)) as [rows Hrows_eq].
  { intros i Hi. destruct (Hrows i) as (value & a & r & m & Hv & Ha & Hr & Hm); [lia |].
    destruct (Hbody i value a r m Hv Ha Hr Hm) as (? & ? & ? & ? & _ & _ & _ & _ & Hb & _).
    rewrite Hb. eauto. }
  destruct (mapM_seq_lookup _ _ _ Hrows_eq) as [Hlrows Hrow_at].
  eexists _, _, _. split.
  { unfold compute_rewards_with_kl_penalty.
    rewrite (get_last_reward_score_returns _ _ scores0 Hne Hscores0). simpl.
    fold body. rewrite Hrows_eq. simpl. reflexivity. }
  split; [rewrite length_fmap; lia |].
  intros i value a r m Hv Ha Hr Hm.
  destruct (Hbody i value a r m Hv Ha Hr Hm)
    as (e_full & e & score & row & Hlast_full & Hval & Hlast & Hs & Hb & Hpos).
  assert (Hi : (i < length scores0)%nat) by (apply lookup_lt_Some in Hs; exact Hs).
  destruct (Hrow_at i Hi) as (y & Hy & Hfy).
  rewrite Hb in Hfy. injection Hfy as <-.
  exists e_full, e, score, row.
  repeat (split; [assumption |]).
  split; [rewrite list_lookup_fmap, Hy; reflexivity |].
  split; [rewrite list_lookup_fmap, Hy; reflexivity |].
  exact Hpos.
Qed.

Lemma compute_rewards_with_kl_penalty_placement_witness :
  [[0; 0; 5]] <> [] /\
  length [[0; 1; 1]%Z] = length [[0; 0; 5]] /\
  length [[-1; -2]] = length [[0; 0; 5]] /\
  length [[-2; -1]] = length [[0; 0; 5]] /\
  exists rewards kl_all scores,
    compute_rewards_with_kl_penalty
      (Build_Args "abs" 0.1 (Some 1) 1 1 false 0.2 2 1 None)
      [[0; 0; 5]] [[-1; -2]] [[-2; -1]] [[0; 1; 1]%Z]
    = Some (rewards, kl_all, scores) /\
    rewards
    = [[kl_penalty_at (Build_Args "abs" 0.1 (Some 1) 1 1 false 0.2 2 1 None) (-1) (-2);
        kl_penalty_at (Build_Args "abs" 0.1 (Some 1) 1 1 false 0.2 2 1 None) (-2) (-1)
        + clip_reward_score (Build_Args "abs" 0.1 (Some 1) 1 1 false 0.2 2 1 None) 5]] /\
    scores = [clip_reward_score (Build_Args "abs" 0.1 (Some 1) 1 1 false 0.2 2 1 None) 5].
Proof.
  pose (args := Build_Args "abs" 0.1 (Some 1) 1 1 false 0.2 2 1 None).
  assert (Hshape : forall i value a r m,
             [[0; 0; 5]] !! i = Some value -> [[-1; -2]] !! i = Some a ->
             [[-2; -1]] !! i = Some r -> [[0; 1; 1]%Z] !! i = Some m ->
             length value = length m /\
             length a = length (drop 1 m) /\ length r = length (drop 1 m) /\
             exists j x, drop 1 m !! j = Some x /\ x <> 0%Z).
  { intros [| i] value a r m Hv Ha Hr Hm; [| destruct i; discriminate].
    injection Hv as <-. injection Ha as <-. injection Hr as <-. injection Hm as <-.
    repeat split. exists 0%nat, 1%Z. split; [reflexivity | discriminate]. }
  assert (Hne : [[0; 0; 5]] <> []) by discriminate.
  split; [exact Hne |].
  repeat (split; [reflexivity |]).
  destruct (compute_rewards_with_kl_penalty_placement args
              [[0; 0; 5]] [[-1; -2]] [[-2; -1]] [[0; 1; 1]%Z]
              Hne eq_refl eq_refl eq_refl Hshape)
    as (_ & rewards & kl_all & scores & Heq & _).
  exists rewards, kl_all, scores. split; [exact Heq |].
  cbn in Heq. injection Heq as <- _ <-. split; reflexivity.
Defined.

End RewardsFacts.

(** ** Generalised advantage estimation *)

Section AdvantagesFacts.
Import FloatTensor Whiten Advantages.
Local Open Scope R_scope.

Lemma hd_default_lookup (l : list R) : hd 0 l = default 0 (l !! 0%nat).
Proof. destruct l; reflexivity. Qed.

Lemma gae_spec_length (args : Args) (values rewards : list R) :
  length values = length rewards ->
  length (gae_spec args values rewards) = length rewards.
Proof.
  revert values. induction rewards as [| r rs IH]; intros [| v vs] Hlen;
    simpl in *; try lia. rewrite IH by lia. reflexivity.
Qed.

(** The recursion holds pointwise, with [0] past the last step. *)
Lemma gae_spec_lookup (args : Args) (values rewards : list R) (t : nat) (r v : R) :
  rewards !! t = Some r -> values !! t = Some v ->
  gae_spec args values rewards !! t
  = Some (r + gamma args * default 0 (values !! S t) - v
          + gamma args * lam args
            * default 0 (gae_spec args values rewards !! S t)).
Proof.
  revert values rewards.
  induction t as [| t IH]; intros [| v0 vs] [| r0 rs] Hr Hv;
    simpl in Hr, Hv; try discriminate.
  - injection Hr as ->. injection Hv as ->. simpl.
    rewrite !hd_default_lookup. reflexivity.
  - simpl. apply IH; assumption.
Qed.

Lemma gae_step_spec (args : Args) (values rewards : list R) (t : nat) (r v : R) :
  length values = length rewards ->
  rewards !! t = Some r -> values !! t = Some v ->
  gae_step args (length rewards) values rewards t
           (default 0 (gae_spec args values rewards !! S t))
  = gae_spec args values rewards !! t.
Proof.
  intros Hlen Hr Hv. rewrite (gae_spec_lookup args values rewards t r v Hr Hv).
  unfold gae_step. rewrite Hr, Hv.
  apply lookup_lt_Some in Hr.
  destruct (decide (t < length rewards - 1)%nat) as [Hlt | Hge].
  - destruct (lookup_lt_is_Some_2 values (t + 1)) as [nv Hnv]; [lia |].
    rewrite Hnv. replace (S t) with (t + 1)%nat by lia. rewrite Hnv. reflexivity.
  - rewrite (lookup_ge_None_2 values (S t)) by lia. reflexivity.
Qed.

Lemma gae_loop_spec (args : Args) (values rewards : list R) (k : nat)
    (advantages_reversed : list R) :
  length values = length rewards ->
  (k <= length rewards)%nat ->
  gae_loop args (length rewards) values rewards (reverse (seq 0 k))
           (default 0 (gae_spec args values rewards !! k)) advantages_reversed
  = Some (advantages_reversed ++ reverse (take k (gae_spec args values rewards))).
Proof.
  intros Hlen. revert advantages_reversed.
  induction k as [| k IH]; intros acc Hk.
  - simpl. rewrite take_0, reverse_nil, app_nil_r. reflexivity.
  - rewrite seq_S, reverse_app. simpl.
    destruct (lookup_lt_is_Some_2 rewards k) as [r Hr]; [lia |].
    destruct (lookup_lt_is_Some_2 values k) as [v Hv]; [lia |].
    rewrite (gae_step_spec args values rewards k r v Hlen Hr Hv).
    destruct (lookup_lt_is_Some_2 (gae_spec args values rewards) k) as [g Hg].
    { rewrite gae_spec_length by assumption. lia. }
    rewrite Hg. simpl.
    replace g with (default 0 (gae_spec args values rewards !! k))
      at 1 by (rewrite Hg; reflexivity).
    rewrite IH by lia.
    rewrite (take_S_r _ _ _ Hg), reverse_app, <- app_assoc. reflexivity.
Qed.

Lemma gae_row_spec (args : Args) (values rewards : list R) :
  length values = length rewards ->
  rewards <> [] ->
  gae_row args values rewards = Some (gae_spec args values rewards).
Proof.
  intros Hlen Hne. unfold gae_row.
  pose proof (gae_loop_spec args values rewards (length rewards) [] Hlen) as Hloop.
  rewrite (lookup_ge_None_2 (gae_spec args values rewards) (length rewards)) in Hloop
    by (rewrite gae_spec_length by assumption; lia).
  simpl in Hloop. rewrite Hloop by lia. simpl.
  rewrite reverse_involutive, take_ge
    by (rewrite gae_spec_length by assumption; lia).
  apply stack_returns. intros Hnil.
  apply (f_equal length) in Hnil. rewrite gae_spec_length in Hnil by assumption.
  destruct rewards; [congruence | discriminate].
Qed.

(** With no time step, [torch.stack] is given an empty list and raises. *)
Lemma gae_row_no_step (args : Args) (values : list R) :
  gae_row args values [] = None.
Proof. reflexivity. Qed.

Lemma gae_row_inv (args : Args) (values rewards advantages : list R) :
  length values = length rewards ->
  gae_row args values rewards = Some advantages ->
  rewards <> [] /\ advantages = gae_spec args values rewards.
Proof.
  intros Hlen Hrun.
  destruct rewards as [| r rewards]; [rewrite gae_row_no_step in Hrun; discriminate |].
  rewrite gae_row_spec in Hrun by (assumption || discriminate).
  injection Hrun as <-. split; [discriminate | reflexivity].
Qed.

Lemma gae_batch_spec (args : Args) (values rewards : list (list R)) :
  Forall2 (fun v r => length v = length r) values rewards ->
  Forall (fun r => r <> []) rewards ->
  gae_batch args values rewards = Some (zip_with (gae_spec args) values rewards).
Proof.
  intros Hshape Hsteps. unfold gae_batch.
  rewrite decide_True by (eapply Forall2_length; exact Hshape).
  induction Hshape as [| v r vs rs Hlen _ IH]; [reflexivity |].
  apply Forall_cons in Hsteps. destruct Hsteps as [Hr Hrs].
  cbn [zip zip_with]. rewrite mapM_cons_eq. cbn [fst snd].
  rewrite gae_row_spec by assumption. simpl.
  change (zip_with pair vs rs) with (zip vs rs). rewrite (IH Hrs). reflexivity.
Qed.

Lemma gae_batch_inv (args : Args) (values rewards advantages : list (list R)) :
  Forall2 (fun v r => length v = length r) values rewards ->
  gae_batch args values rewards = Some advantages ->
  Forall (fun r => r <> []) rewards /\
  advantages = zip_with (gae_spec args) values rewards.
Proof.
  intros Hshape. unfold gae_batch.
  rewrite decide_True by (eapply Forall2_length; exact Hshape).
  revert advantages.
  induction Hshape as [| v r vs rs Hlen _ IH]; intros advantages Hrun.
  - injection Hrun as <-. split; [constructor | reflexivity].
  - cbn [zip zip_with] in Hrun. rewrite mapM_cons_eq in Hrun. cbn [fst snd] in Hrun.
    destruct (gae_row args v r) as [g |] eqn:Hg; [| discriminate].
    simpl in Hrun.
    change (zip_with pair vs rs) with (zip vs rs) in Hrun.
    destruct (mapM (fun vr : list R * list R => gae_row args vr.1 vr.2) (zip vs rs))
      as [gs |] eqn:Hgs; [| discriminate].
    simpl in Hrun. injection Hrun as <-.
    destruct (gae_row_inv args v r g Hlen Hg) as [Hr ->].
    destruct (IH gs eq_refl) as [Hrs ->].
    split; [constructor; assumption | reflexivity].
Qed.

Lemma tensor_add_gae (args : Args) (values rewards : list (list R)) :
  Forall2 (fun v r => length v = length r) values rewards ->
  tensor_add (zip_with (gae_spec args) values rewards) values
  = Some (zip2d Rplus (zip_with (gae_spec args) values rewards) values).
Proof.
  intros Hshape. unfold tensor_add. rewrite decide_True; [reflexivity |].
  induction Hshape as [| v r vs rs Hlen _ IH]; [reflexivity |].
  cbn [zip_with fmap list_fmap]. f_equal; [| exact IH].
  rewrite gae_spec_length by assumption. symmetry. exact Hlen.
Qed.

(** What [get_advantages_and_returns] returns on values and rewards of one
    shape, and that it returns when every row has a time step. *)
Lemma get_advantages_and_returns_unfold
    (args : Args) (values rewards : list (list R)) (responses_mask : list (list Z)) :
  Forall2 (fun v r => length v = length r) values rewards ->
  is_Some (get_advantages_and_returns args values rewards responses_mask) ->
  get_advantages_and_returns args values rewards responses_mask
  = Some (if use_advantage_norm args
          then masked_whiten (zip_with (gae_spec args) values rewards)
                 ((fun row : list Z => drop 1 row) <$> responses_mask) true
          else zip_with (gae_spec args) values rewards,
          zip2d Rplus (zip_with (gae_spec args) values rewards) values).
Proof.
  intros Hshape [result Hrun]. unfold get_advantages_and_returns in *.
  destruct (gae_batch args values rewards) as [advantages |] eqn:Hgae;
    [| discriminate].
  destruct (gae_batch_inv args values rewards advantages Hshape Hgae) as [_ ->].
  simpl. rewrite (tensor_add_gae args values rewards Hshape). reflexivity.
Qed.

Lemma get_advantages_and_returns_returns
    (args : Args) (values rewards : list (list R)) (responses_mask : list (list Z)) :
  Forall2 (fun v r => length v = length r) values rewards ->
  Forall (fun r => r <> []) rewards ->
  is_Some (get_advantages_and_returns args values rewards responses_mask).
Proof.
  intros Hshape Hsteps. unfold get_advantages_and_returns.
  rewrite (gae_batch_spec args values rewards Hshape Hsteps). simpl.
  rewrite (tensor_add_gae args values rewards Hshape). simpl. eauto.
Qed.


Lemma gae_spec_nil_l (args : Args) (rewards : list R) :
  gae_spec args [] rewards = [].
Proof. destruct rewards; reflexivity. Qed.

Lemma gae_spec_nil_r (args : Args) (values : list R) :
  gae_spec args values [] = [].
Proof. destruct values; reflexivity. Qed.

Lemma gae_spec_drop (args : Args) (values rewards : list R) (t : nat) :
  drop t (gae_spec args values rewards)
  = gae_spec args (drop t values) (drop t rewards).
Proof.
  revert values rewards.
  induction t as [| t IH]; intros values rewards; [reflexivity |].
  destruct rewards as [| r rs].
  { rewrite drop_nil, !gae_spec_nil_r. apply drop_nil. }
  destruct values as [| v vs].
  { rewrite drop_nil, !gae_spec_nil_l. apply drop_nil. }
  simpl. apply IH.
Qed.




Lemma zip2d_entry {A B C} (f : A -> B -> C) (x : list (list A)) (y : list (list B))
    (i t : nat) (a : A) (b : B) :
  entry x i t = Some a -> entry y i t = Some b ->
  entry (zip2d f x y) i t = Some (f a b).
Proof.
  unfold entry, zip2d. intros Hx Hy. rewrite lookup_zip_with.
  destruct (x !! i) as [rx |]; [| discriminate].
  destruct (y !! i) as [ry |]; [| discriminate].
  simpl in *. rewrite lookup_zip_with, Hx. simpl. rewrite Hy. reflexivity.
Qed.






End AdvantagesFacts.

(** ** Whitening *)

Section WhitenFacts.
Import FloatTensor Whiten.
Local Open Scope R_scope.
Local Arguments row_sum : simpl never.
Local Arguments tensor_sum : simpl never.
Local Arguments mask_sum : simpl never.

Lemma map2d_ext {A B} (f g : A -> B) (x : list (list A)) :
  (forall a, f a = g a) -> map2d f x = map2d g x.
Proof.
  intros Hfg. unfold map2d. apply list_fmap_ext. intros _ row _.
  apply list_fmap_ext. intros _ a _. apply Hfg.
Qed.

Lemma map2d_compose {A B C} (f : A -> B) (g : B -> C) (x : list (list A)) :
  map2d g (map2d f x) = map2d (fun a => g (f a)) x.
Proof.
  unfold map2d. rewrite <- list_fmap_compose. apply list_fmap_ext.
  intros _ row _. simpl. rewrite <- list_fmap_compose. reflexivity.
Qed.

Lemma tensor_sum_cons (row : list R) (x : list (list R)) :
  tensor_sum (row :: x) = row_sum row + tensor_sum x.
Proof. reflexivity. Qed.

Lemma row_sum_cons (d : R) (row : list R) : row_sum (d :: row) = d + row_sum row.
Proof. reflexivity. Qed.

(** Masked sums commute with scaling ... *)
Lemma row_sum_scale (k : R) (g : R -> R) (row : list R) (mrow : list Z) :
  row_sum (zip_with (fun d m => d * IZR m) ((fun d => k * g d) <$> row) mrow)
  = k * row_sum (zip_with (fun d m => d * IZR m) (g <$> row) mrow).
Proof.
  revert mrow. induction row as [| d row IH]; intros [| m mrow]; simpl;
    try (unfold row_sum; simpl; lra).
  rewrite !row_sum_cons, IH. unfold fmap. ring.
Qed.

Lemma tensor_sum_scale (k : R) (g : R -> R) (data : list (list R)) (mask : list (list Z)) :
  tensor_sum (mul_mask (map2d (fun d => k * g d) data) mask)
  = k * tensor_sum (mul_mask (map2d g data) mask).
Proof.
  revert mask. induction data as [| row data IH]; intros [| mrow mask]; simpl;
    try (unfold tensor_sum, row_sum; simpl; lra).
  unfold mul_mask, zip2d in *. simpl.
  rewrite !tensor_sum_cons, IH, row_sum_scale. unfold map2d, fmap. ring.
Qed.

(** ... and, on tensors of one shape, with affine maps. *)
Lemma row_sum_affine (k c : R) (row : list R) (mrow : list Z) :
  length row = length mrow ->
  row_sum (zip_with (fun d m => d * IZR m) ((fun d => k * d + c) <$> row) mrow)
  = k * row_sum (zip_with (fun d m => d * IZR m) row mrow)
    + c * row_sum (IZR <$> mrow).
Proof.
  revert mrow. induction row as [| d row IH]; intros [| m mrow] Hlen;
    simpl in Hlen; try lia.
  - unfold row_sum. simpl. lra.
  - simpl. rewrite !row_sum_cons, IH by lia. unfold fmap. ring.
Qed.

Lemma tensor_sum_affine (k c : R) (data : list (list R)) (mask : list (list Z)) :
  Forall2 (fun row mrow => length row = length mrow) data mask ->
  tensor_sum (mul_mask (map2d (fun d => k * d + c) data) mask)
  = k * tensor_sum (mul_mask data mask) + c * mask_sum mask.
Proof.
  induction 1 as [| row mrow data mask Hlen _ IH].
  - unfold tensor_sum, mask_sum, tensor_sum, row_sum. simpl. lra.
  - unfold mul_mask, zip2d, mask_sum in *. simpl.
    rewrite !tensor_sum_cons, IH, row_sum_affine by assumption.
    unfold map2d, fmap. ring.
Qed.

Lemma row_sum_masked_squares_nonneg (c : R) (row : list R) (mrow : list Z) :
  Forall (fun m => m = 0%Z \/ m = 1%Z) mrow ->
  0 <= row_sum (zip_with (fun d m => d * IZR m) ((fun d => (d - c) ^ 2) <$> row) mrow).
Proof.
  intros Hmask. revert row.
  induction Hmask as [| m mrow Hm _ IH]; intros [| d row];
    try (unfold row_sum; simpl; lra).
  cbn [fmap list_fmap zip_with]. rewrite row_sum_cons.
  specialize (IH row). unfold fmap in *.
  pose proof (pow2_ge_0 (d - c)).
  destruct Hm as [-> | ->]; nra.
Qed.

Lemma tensor_sum_masked_squares_nonneg (c : R) (data : list (list R))
    (mask : list (list Z)) :
  Forall (Forall (fun m => m = 0%Z \/ m = 1%Z)) mask ->
  0 <= tensor_sum (mul_mask (map2d (fun d => (d - c) ^ 2) data) mask).
Proof.
  intros Hmask. revert data.
  induction Hmask as [| mrow mask Hm _ IH]; intros [| row data];
    try (unfold tensor_sum, row_sum; simpl; lra).
  unfold mul_mask, zip2d, map2d in *.
  cbn [fmap list_fmap zip_with]. rewrite tensor_sum_cons.
  pose proof (row_sum_masked_squares_nonneg c row mrow Hm) as Hrow.
  specialize (IH data). unfold fmap in *. lra.
Qed.

Lemma rsqrt_sqr (x : R) : 0 < x -> rsqrt x * rsqrt x = / x.
Proof.
  intros Hx. unfold rsqrt.
  rewrite <- Rinv_mult, sqrt_sqrt by lra. reflexivity.
Qed.

Lemma whitened_sum (k c : R) (data : list (list R)) (mask : list (list Z)) :
  Forall2 (fun row mrow => length row = length mrow) data mask ->
  tensor_sum (mul_mask data mask) = tensor_sum data ->
  mask_sum mask <> 0 ->
  tensor_sum
    (mul_mask (map2d (fun d => (d - whiten_mean data mask) * k + c) data) mask)
  = c * mask_sum mask.
Proof.
  intros Hshape Hsum Hmask.
  rewrite (map2d_ext _ (fun d => k * d + (c - whiten_mean data mask * k)))
    by (intros; ring).
  rewrite tensor_sum_affine, Hsum by assumption.
  unfold whiten_mean. field. exact Hmask.
Qed.

Lemma whitened_squares (k c : R) (data : list (list R)) (mask : list (list Z)) :
  mask_sum mask <> 0 ->
  tensor_sum
    (mul_mask
       (map2d (fun w => (w - c) ^ 2)
              (map2d (fun d => (d - whiten_mean data mask) * k + c) data)) mask)
  / mask_sum mask
  = k * k * whiten_var data mask.
Proof.
  intros Hmask. rewrite map2d_compose.
  rewrite (map2d_ext _ (fun d => k * k * (d - whiten_mean data mask) ^ 2))
    by (intros; ring).
  rewrite tensor_sum_scale. unfold whiten_var. field. exact Hmask.
Qed.

Lemma whiten_var_nonneg (data : list (list R)) (mask : list (list Z)) :
  Forall (Forall (fun m => m = 0%Z \/ m = 1%Z)) mask ->
  0 < mask_sum mask ->
  0 <= whiten_var data mask.
Proof.
  intros H01 Hpos. unfold whiten_var.
  apply Rmult_le_pos;
    [now apply tensor_sum_masked_squares_nonneg
    | apply Rlt_le, Rinv_0_lt_compat, Hpos].
Qed.

Lemma masked_whiten_shifted (data : list (list R)) (mask : list (list Z)) :
  masked_whiten data mask true
  = map2d (fun d => (d - whiten_mean data mask)
                    * rsqrt (whiten_var data mask + 1e-6) + 0) data.
Proof.
  unfold masked_whiten. simpl. apply map2d_ext. intros. ring.
Qed.

Lemma masked_whiten_unshifted (data : list (list R)) (mask : list (list Z)) :
  masked_whiten data mask false
  = map2d (fun d => (d - whiten_mean data mask)
                    * rsqrt (whiten_var data mask + 1e-6)
                    + whiten_mean data mask) data.
Proof. unfold masked_whiten. simpl. apply map2d_compose. Qed.

(** With [shift_mean=False] the mean is added back. *)
Lemma masked_whiten_unshifted_mean (data : list (list R)) (mask : list (list Z)) :
  Forall2 (fun row mrow => length row = length mrow) data mask ->
  tensor_sum (mul_mask data mask) = tensor_sum data ->
  mask_sum mask <> 0 ->
  exact_masked_mean (masked_whiten data mask false) mask = whiten_mean data mask.
Proof.
  intros Hshape Hsum Hmask. unfold exact_masked_mean.
  rewrite masked_whiten_unshifted, whitened_sum by assumption.
  field. exact Hmask.
Qed.

Lemma masked_whiten_shifted_mean (data : list (list R)) (mask : list (list Z)) :
  Forall2 (fun row mrow => length row = length mrow) data mask ->
  tensor_sum (mul_mask data mask) = tensor_sum data ->
  mask_sum mask <> 0 ->
  exact_masked_mean (masked_whiten data mask true) mask = 0.
Proof.
  intros Hshape Hsum Hmask. unfold exact_masked_mean.
  rewrite masked_whiten_shifted, whitened_sum by assumption.
  field. exact Hmask.
Qed.

(** C6 fails on the code: on the data [1, 3] with both positions valid,
    [masked_whiten] with [shift_mean=False] returns a tensor whose masked
    mean is 2, the mean of the data, which is not close to 0. *)
Lemma masked_whiten_unshifted_counterexample :
  2 <= mask_sum [[1; 1]%Z] /\
  exact_masked_mean (masked_whiten [[1; 3]] [[1; 1]%Z] false) [[1; 1]%Z] = 2 /\
  ~ Rabs (exact_masked_mean (masked_whiten [[1; 3]] [[1; 1]%Z] false) [[1; 1]%Z]) <= 1.
Proof.
  assert (Hm : mask_sum [[1; 1]%Z] = 2)
    by (unfold mask_sum, tensor_sum, row_sum; simpl; lra).
  assert (Hmean : exact_masked_mean (masked_whiten [[1; 3]] [[1; 1]%Z] false)
                                    [[1; 1]%Z] = 2).
  { rewrite masked_whiten_unshifted_mean.
    - unfold whiten_mean. rewrite Hm. unfold tensor_sum, row_sum. simpl. lra.
    - repeat constructor.
    - unfold tensor_sum, row_sum. simpl. lra.
    - rewrite Hm. lra. }
  split; [rewrite Hm; lra |]. split; [exact Hmean |].
  rewrite Hmean, Rabs_right by lra. lra.
Qed.

(** C6, amended. For a data tensor and a 0/1 mask of its shape with at
    least 2 valid positions, the data summing to the same total over the
    valid positions as over all positions: the output of [masked_whiten]
    with [shift_mean=True] has masked mean 0 and masked variance
    [var / (var + 1e-6)], where [var] is the masked variance of the data;
    with [shift_mean=False] the mean is added back, so the output has the
    masked mean of the data and the same masked variance. *)
Theorem masked_whiten_statistics (data : list (list R)) (mask : list (list Z)) :
  Forall2 (fun row mrow => length row = length mrow) data mask ->
  Forall (Forall (fun m => m = 0%Z \/ m = 1%Z)) mask ->
  2 <= mask_sum mask ->
  tensor_sum (mul_mask data mask) = tensor_sum data ->
  whiten_mean data mask = exact_masked_mean data mask /\
  whiten_var data mask = exact_masked_var data mask /\
  exact_masked_mean (masked_whiten data mask true) mask = 0 /\
  exact_masked_var (masked_whiten data mask true) mask
  = whiten_var data mask / (whiten_var data mask + 1e-6) /\
  masked_whiten data mask false
  = map2d (fun w => w + whiten_mean data mask) (masked_whiten data mask true) /\
  exact_masked_mean (masked_whiten data mask false) mask = whiten_mean data mask /\
  exact_masked_var (masked_whiten data mask false) mask
  = whiten_var data mask / (whiten_var data mask + 1e-6).
Proof.
  intros Hshape H01 Hvalid Hsum.
  assert (Hmask : mask_sum mask <> 0) by lra.
  assert (Hmean : whiten_mean data mask = exact_masked_mean data mask)
    by (unfold whiten_mean, exact_masked_mean; rewrite Hsum; reflexivity).
  pose proof (whiten_var_nonneg data mask H01 ltac:(lra)) as Hvar.
  assert (Hrho : forall v, 0 <= v -> rsqrt (v + 1e-6) * rsqrt (v + 1e-6) * v
                                     = v / (v + 1e-6)).
  { intros v Hv. rewrite rsqrt_sqr by lra. field. lra. }
  split; [exact Hmean |].
  split; [unfold whiten_var, exact_masked_var; rewrite Hmean; reflexivity |].
  split; [now apply masked_whiten_shifted_mean |].
  split.
  { unfold exact_masked_var.
    rewrite masked_whiten_shifted_mean by assumption.
    rewrite masked_whiten_shifted, whitened_squares by assumption.
    now apply Hrho. }
  split; [reflexivity |].
  split; [now apply masked_whiten_unshifted_mean |].
  unfold exact_masked_var.
  rewrite masked_whiten_unshifted_mean by assumption.
  rewrite masked_whiten_unshifted, whitened_squares by assumption.
  now apply Hrho.
Qed.

Lemma masked_whiten_statistics_witness :
  Forall2 (fun (row : list R) (mrow : list Z) => length row = length mrow)
          [[1; 3]] [[1; 1]%Z] /\
  Forall (Forall (fun m => m = 0%Z \/ m = 1%Z)) [[1; 1]%Z] /\
  2 <= mask_sum [[1; 1]%Z] /\
  tensor_sum (mul_mask [[1; 3]] [[1; 1]%Z]) = tensor_sum [[1; 3]] /\
  exact_masked_mean (masked_whiten [[1; 3]] [[1; 1]%Z] true) [[1; 1]%Z] = 0.
Proof.
  assert (H1 : Forall2 (fun (row : list R) (mrow : list Z) => length row = length mrow)
                       [[1; 3]] [[1; 1]%Z]) by (repeat constructor).
  assert (H2 : Forall (Forall (fun m => m = 0%Z \/ m = 1%Z)) [[1; 1]%Z])
    by (repeat constructor; right; reflexivity).
  assert (H3 : 2 <= mask_sum [[1; 1]%Z])
    by (unfold mask_sum, tensor_sum, row_sum; simpl; lra).
  assert (H4 : tensor_sum (mul_mask [[1; 3]] [[1; 1]%Z]) = tensor_sum [[1; 3]])
    by (unfold tensor_sum, row_sum; simpl; lra).
  repeat (split; [assumption |]).
  apply (masked_whiten_statistics [[1; 3]] [[1; 1]%Z] H1 H2 H3 H4).
Defined.

End WhitenFacts.

(** ** Clipped surrogate *)

Section ActorLossFacts.
Import FloatTensor Whiten ActorLoss.
Local Open Scope R_scope.

Lemma zip2d_entry_inv {A B C} (f : A -> B -> C) (x : list (list A)) (y : list (list B))
    (i t : nat) (c : C) :
  entry (zip2d f x y) i t = Some c ->
  exists a b, entry x i t = Some a /\ entry y i t = Some b /\ c = f a b.
Proof.
  unfold entry, zip2d. rewrite lookup_zip_with.
  destruct (x !! i) as [rx |]; [| discriminate].
  destruct (y !! i) as [ry |]; [| discriminate].
  simpl. rewrite lookup_zip_with.
  destruct (rx !! t) as [a |]; [| discriminate].
  destruct (ry !! t) as [b |]; [| discriminate].
  simpl. intros [= <-]. exists a, b. repeat split.
Qed.

Lemma loss_terms_entry (args : Args) (advantages ratio : list (list R))
    (i t : nat) (a r term : R) :
  entry advantages i t = Some a -> entry ratio i t = Some r ->
  entry (loss_terms args advantages ratio) i t = Some term ->
  term = Rmax (- a * r)
              (- a * clamp r (1.0 - ratio_clip args) (1.0 + ratio_clip args)).
Proof.
  intros Ha Hr Hterm. unfold loss_terms in Hterm.
  apply zip2d_entry_inv in Hterm as (l1 & l2 & H1 & H2 & ->).
  apply zip2d_entry_inv in H1 as (a1 & r1 & Ha1 & Hr1 & ->).
  apply zip2d_entry_inv in H2 as (a2 & r2 & Ha2 & Hr2 & ->).
  congruence.
Qed.

Lemma clamp_above (r lo hi : R) : hi < r -> clamp r lo hi = hi.
Proof.
  intros Hr. unfold clamp, Rmin, Rmax.
  destruct (Rle_dec r lo); destruct (Rle_dec _ hi); lra.
Qed.

Lemma clamp_below (r lo hi : R) : r < lo -> lo <= hi -> clamp r lo hi = lo.
Proof.
  intros Hr Hle. unfold clamp, Rmin, Rmax.
  destruct (Rle_dec r lo); destruct (Rle_dec _ hi); lra.
Qed.

(** C8. For every advantage [a] and ratio [r] that [actor_loss] computes at
    a position, the loss term there, [max(-a*r, -a*clamp(r, 1-eps, 1+eps))],
    is at least the unclipped [-a*r] whenever [a > 0] and [r > 1+eps], and
    whenever [a < 0] and [r < 1-eps]; it is then the clipped term
    [-a*(1+eps)] (respectively [-a*(1-eps)], for [eps >= 0]). The loss is the
    masked mean of these terms. *)
Theorem actor_loss_pessimistic
    (args : Args)
    (actor_log_probs mini_batch_actor_log_probs advantages : list (list R))
    (mask : list (list Z)) (i t : nat) (a r term : R) :
  entry advantages i t = Some a ->
  entry (actor_loss args actor_log_probs mini_batch_actor_log_probs advantages mask).2
        i t = Some r ->
  entry (loss_terms args advantages
           (actor_loss args actor_log_probs mini_batch_actor_log_probs advantages mask).2)
        i t = Some term ->
  (0 < a /\ 1 + ratio_clip args < r) \/ (a < 0 /\ r < 1 - ratio_clip args) ->
  (actor_loss args actor_log_probs mini_batch_actor_log_probs advantages mask).1
  = masked_mean
      (loss_terms args advantages
         (actor_loss args actor_log_probs mini_batch_actor_log_probs advantages mask).2)
      mask /\
  term = Rmax (- a * r)
              (- a * clamp r (1 - ratio_clip args) (1 + ratio_clip args)) /\
  - a * r <= term /\
  (0 < a -> 1 + ratio_clip args < r -> term = - a * (1 + ratio_clip args)) /\
  (a < 0 -> r < 1 - ratio_clip args -> 0 <= ratio_clip args ->
   term = - a * (1 - ratio_clip args)).
Proof.
  intros Ha Hr Hterm Hcase.
  pose proof (loss_terms_entry args _ _ i t a r term Ha Hr Hterm) as Heq.
  replace 1.0 with 1 in Heq by lra.
  split; [reflexivity |]. split; [exact Heq |].
  split; [rewrite Heq; apply Rmax_l |].
  split.
  - intros Hpos Hbig. rewrite Heq, clamp_above by lra.
    apply Rmax_right. nra.
  - intros Hneg Hsmall Heps. rewrite Heq, clamp_below by lra.
    apply Rmax_right. nra.
Qed.

Lemma actor_loss_pessimistic_witness :
  entry [[2]] 0 0 = Some 2 /\
  entry (actor_loss (Build_Args "identity" 0.1 None 1 1 false 0.2 2 1 None)
                    [[0]] [[1]] [[2]] [[1%Z]]).2 0 0 = Some (exp ((1 - 0) * 1)) /\
  (0 < 2 /\ 1 + 0.2 < exp ((1 - 0) * 1)) /\
  - 2 * exp ((1 - 0) * 1)
  <= Rmax (- 2 * exp ((1 - 0) * 1))
          (- 2 * clamp (exp ((1 - 0) * 1)) (1.0 - 0.2) (1.0 + 0.2)).
Proof.
  pose (args := Build_Args "identity" 0.1 None 1 1 false 0.2 2 1 None).
  assert (Ha : entry [[2]] 0 0 = Some 2) by reflexivity.
  assert (Hr : entry (actor_loss args [[0]] [[1]] [[2]] [[1%Z]]).2 0 0
               = Some (exp ((1 - 0) * 1))) by reflexivity.
  assert (Hterm : entry (loss_terms args [[2]]
                           (actor_loss args [[0]] [[1]] [[2]] [[1%Z]]).2) 0 0
                  = Some (Rmax (- 2 * exp ((1 - 0) * 1))
                               (- 2 * clamp (exp ((1 - 0) * 1))
                                        (1.0 - 0.2) (1.0 + 0.2))))
    by reflexivity.
  assert (Hcase : 0 < 2 /\ 1 + ratio_clip args < exp ((1 - 0) * 1)).
  { split; [lra |]. simpl.
    pose proof (exp_ineq1 ((1 - 0) * 1) ltac:(lra)). lra. }
  split; [exact Ha |]. split; [exact Hr |]. split; [exact Hcase |].
  apply (actor_loss_pessimistic args [[0]] [[1]] [[2]] [[1%Z]] 0 0 2
           (exp ((1 - 0) * 1)) _ Ha Hr Hterm (or_introl Hcase)).
Defined.

End ActorLossFacts.

(** ** Auxiliary-loss weight *)

Section WarmupFacts.
Import Warmup.
Local Open Scope R_scope.

Lemma py_int_IZR (z : Z) : py_int (IZR z) = z.
Proof.
  unfold py_int. destruct (Rle_dec 0 (IZR z)) as [Hpos | Hneg].
  - symmetry. apply Int_part_spec. lra.
  - rewrite <- opp_IZR.
    rewrite <- (Int_part_spec (IZR (- z)) (- z)%Z) by lra. lia.
Qed.

Lemma post_warmup_weight (fmul : R -> R -> R) (args : Args) (max_steps ratio : R) (step : Z) :
  extra_warmup_steps_ratio args = Some ratio ->
  (py_int (fmul ratio max_steps) <= step)%Z ->
  extra_loss_weight_warmup fmul args max_steps step
  = Rpower (extra_loss_weight args) 1.001.
Proof.
  intros Hratio Hstep. unfold extra_loss_weight_warmup. rewrite Hratio.
  destruct (Z.ltb_spec step (py_int (fmul ratio max_steps))); [lia | reflexivity].
Qed.

(** C7 fails on the code: with a target weight of 2 and 2 warm-up steps
    (ratio 0.5 of 4 steps; the product [0.5 * 4] is exact in floating
    point), the weights used at the consecutive post-warm-up steps 2 and 3
    are both [2 ** 1.001]; the weight does not grow from one step to the
    next. *)
Lemma extra_loss_weight_growth_counterexample :
  1 < extra_loss_weight (Build_Args "identity" 0.1 None 1 1 false 0.2 2 2 (Some 0.5)) /\
  py_int (0.5 * 4) = 2%Z /\
  extra_loss_weight_warmup Rmult
    (Build_Args "identity" 0.1 None 1 1 false 0.2 2 2 (Some 0.5)) 4 3
  = extra_loss_weight_warmup Rmult
      (Build_Args "identity" 0.1 None 1 1 false 0.2 2 2 (Some 0.5)) 4 2 /\
  ~ extra_loss_weight_warmup Rmult
      (Build_Args "identity" 0.1 None 1 1 false 0.2 2 2 (Some 0.5)) 4 2
    < extra_loss_weight_warmup Rmult
        (Build_Args "identity" 0.1 None 1 1 false 0.2 2 2 (Some 0.5)) 4 3.
Proof.
  assert (Hws : py_int (0.5 * 4) = 2%Z).
  { replace (0.5 * 4) with (IZR 2) by lra. apply py_int_IZR. }
  assert (Heq : forall step, (2 <= step)%Z ->
            extra_loss_weight_warmup Rmult
              (Build_Args "identity" 0.1 None 1 1 false 0.2 2 2 (Some 0.5)) 4 step
            = Rpower 2 1.001).
  { intros step Hstep.
    rewrite (post_warmup_weight Rmult _ 4 0.5 step); [reflexivity | reflexivity |].
    rewrite Hws. exact Hstep. }
  split; [simpl; lra |]. split; [exact Hws |].
  rewrite !Heq by lia. split; [reflexivity | apply Rlt_irrefl].
Qed.

(** C7, amended. When [extra_warmup_steps_ratio] is configured, with
    [warmup_steps = int(extra_warmup_steps_ratio * max_steps)], the product
    being the one the machine computes ([fmul], whatever its rounding): at every
    step [s] below [warmup_steps] the auxiliary loss weight is
    [s / warmup_steps * extra_loss_weight]; at every step at or after
    [warmup_steps] it is [extra_loss_weight ** 1.001], the same at each such
    step (it does not grow from step to step), which for a target weight
    greater than 1 is above the target weight. *)
Theorem extra_loss_weight_schedule
    (fmul : R -> R -> R) (args : Args) (max_steps ratio : R) (step : Z) :
  extra_warmup_steps_ratio args = Some ratio ->
  0 < extra_loss_weight args ->
  ((step < py_int (fmul ratio max_steps))%Z ->
   extra_loss_weight_warmup fmul args max_steps step
   = IZR step / IZR (py_int (fmul ratio max_steps)) * extra_loss_weight args) /\
  ((py_int (fmul ratio max_steps) <= step)%Z ->
   extra_loss_weight_warmup fmul args max_steps step
   = Rpower (extra_loss_weight args) 1.001 /\
   extra_loss_weight_warmup fmul args max_steps (step + 1)
   = extra_loss_weight_warmup fmul args max_steps step /\
   (1 < extra_loss_weight args ->
    extra_loss_weight args < extra_loss_weight_warmup fmul args max_steps step)).
Proof.
  intros Hratio _. split.
  - intros Hstep. unfold extra_loss_weight_warmup. rewrite Hratio.
    destruct (Z.ltb_spec step (py_int (fmul ratio max_steps))); [reflexivity | lia].
  - intros Hstep.
    rewrite (post_warmup_weight fmul args max_steps ratio step Hratio Hstep).
    rewrite (post_warmup_weight fmul args max_steps ratio (step + 1) Hratio) by lia.
    split; [reflexivity |]. split; [reflexivity |].
    intros Hw.
    rewrite <- (Rpower_1 (extra_loss_weight args)) at 1 by lra.
    apply Rpower_lt; lra.
Qed.

Lemma extra_loss_weight_schedule_witness :
  extra_warmup_steps_ratio
    (Build_Args "identity" 0.1 None 1 1 false 0.2 2 2 (Some 0.5)) = Some 0.5 /\
  0 < extra_loss_weight
        (Build_Args "identity" 0.1 None 1 1 false 0.2 2 2 (Some 0.5)) /\
  (1 < py_int (0.5 * 4))%Z /\
  extra_loss_weight_warmup Rmult
    (Build_Args "identity" 0.1 None 1 1 false 0.2 2 2 (Some 0.5)) 4 1
  = IZR 1 / IZR (py_int (0.5 * 4)) * 2.
Proof.
  assert (Hw : 0 < extra_loss_weight
                     (Build_Args "identity" 0.1 None 1 1 false 0.2 2 2 (Some 0.5)))
    by (simpl; lra).
  assert (Hws : py_int (0.5 * 4) = 2%Z)
    by (replace (0.5 * 4) with (IZR 2) by lra; apply py_int_IZR).
  assert (Hlt : (1 < py_int (0.5 * 4))%Z) by (rewrite Hws; lia).
  split; [reflexivity |]. split; [exact Hw |]. split; [exact Hlt |].
  exact (proj1 (extra_loss_weight_schedule Rmult
                  (Build_Args "identity" 0.1 None 1 1 false 0.2 2 2 (Some 0.5))
                  4 0.5 1 eq_refl Hw) Hlt).
Defined.

End WarmupFacts.

(** ** Role switching *)

Section RoleSwitchFacts.
Import RoleSwitch.
Local Open Scope R_scope.
Context {logits values : Type}.

Lemma bind_returned {S A B} (c : M S A) (k : A -> M S B) (s s' : S) (a : A) :
  c s = (Returned a, s') -> bind c k s = k a s'.
Proof. intros Hc. unfold bind. rewrite Hc. reflexivity. Qed.

Lemma bind_raised {S A B} (c : M S A) (k : A -> M S B) (s s' : S) :
  c s = (Raised, s') -> bind c k s = (Raised, s').
Proof. intros Hc. unfold bind. rewrite Hc. reflexivity. Qed.

Lemma getattr_returned (name : string) (m : value_head_model) (t : nat) :
  buffers m !! name = Some t -> getattr name m = (Returned t, m).
Proof. intros Hb. unfold getattr. rewrite Hb. reflexivity. Qed.

Lemma load_state_dict_returned (d : head_dict) (m : value_head_model) (w b : tensor) :
  storage m !! summary_weight d = Some w ->
  <[summary_weight (v_head m) := w]> (storage m) !! summary_bias d = Some b ->
  load_state_dict d m
  = (Returned tt,
     set_storage (<[summary_bias (v_head m) := b]>
                    (<[summary_weight (v_head m) := w]> (storage m))) m).
Proof. intros Hw Hb. unfold load_state_dict. rewrite Hw, Hb. reflexivity. Qed.

(** Whatever the forward pass under the reward head does, return or raise,
    [reward_pass] leaves the value head holding the weights of the reward
    head: the tensors saved as [critic_head_weight] and [critic_head_bias]
    are the parameters themselves, overwritten by the first
    [load_state_dict], so that loading them back changes nothing. *)
Lemma reward_pass_leaves_reward_head
    (forward : value_head_model -> result values) (m : value_head_model)
    (rw rb : nat) (wr br : tensor) :
  buffers m !! "reward_head_weight"%string = Some rw ->
  buffers m !! "reward_head_bias"%string = Some rb ->
  storage m !! rw = Some wr ->
  storage m !! rb = Some br ->
  rb <> summary_weight (v_head m) ->
  summary_weight (v_head m) <> summary_bias (v_head m) ->
  head_contents (reward_pass (call forward) m).2 = Some (wr, br).
Proof.
  intros Hrw Hrb Hwr Hbr Hne1 Hne2.
  unfold reward_pass.
  erewrite bind_returned by reflexivity.
  erewrite bind_returned by reflexivity.
  erewrite bind_returned by reflexivity.
  erewrite bind_returned
    by (apply getattr_returned; cbn; rewrite !lookup_insert_ne by discriminate;
        exact Hrw).
  erewrite bind_returned
    by (apply getattr_returned; cbn; rewrite !lookup_insert_ne by discriminate;
        exact Hrb).
  erewrite bind_returned
    by (apply load_state_dict_returned; cbn;
        [exact Hwr | rewrite lookup_insert_ne by congruence; exact Hbr]).
  cbn [set_buffers set_storage v_head buffers storage].
  unfold bind at 1. unfold call at 1.
  match goal with |- context [forward ?m'] => destruct (forward m') end.
  - erewrite bind_returned
      by (apply getattr_returned; cbn;
          rewrite lookup_insert_ne by discriminate; apply lookup_insert_eq).
    erewrite bind_returned by (apply getattr_returned; cbn; apply lookup_insert_eq).
    erewrite bind_returned
      by (apply load_state_dict_returned; cbn;
          [ rewrite lookup_insert_ne by congruence; apply lookup_insert_eq
          | rewrite lookup_insert_ne by congruence; apply lookup_insert_eq ]).
    unfold ret, head_contents. cbn.
    rewrite lookup_insert_ne by congruence.
    rewrite !lookup_insert_eq. reflexivity.
  - unfold head_contents. cbn.
    rewrite lookup_insert_ne by congruence.
    rewrite !lookup_insert_eq. reflexivity.
Qed.
End RoleSwitchFacts.

(** C3 fails on the code. On a critic whose value head, ([1.0], [0.0]),
    differs from the reward head, ([2.0], [0.5]):
    - when every forward pass returns, [get_model_output] returns and the
      value head holds the reward head's weights afterwards;
    - when the forward pass under the reward head raises (here: a forward
      that fails while the adapters are disabled), the call raises and the
      value head holds the reward head's weights afterwards, whether or not
      the context manager re-enabled the adapters;
    - the same holds for [get_co_model_output]. *)
Theorem get_model_output_loses_critic_head :
  RoleSwitch.head_contents RoleSwitch.trained_critic = Some ([1], [0])%R /\
  Some ([1], [0])%R <> Some ([2], [0.5])%R /\
  (forall reenable : bool,
      let run := RoleSwitch.get_model_output (logits := unit) (values := unit)
                   reenable
                   (fun _ => RoleSwitch.Returned tt)
                   (fun _ => RoleSwitch.Returned tt)
                   RoleSwitch.trained_models in
      run.1 = RoleSwitch.Returned (tt, tt, tt, tt) /\
      RoleSwitch.head_contents (RoleSwitch.critic_model run.2)
      = Some ([2], [0.5])%R) /\
  (forall reenable : bool,
      let run := RoleSwitch.get_model_output (logits := unit) (values := unit)
                   reenable
                   (fun _ => RoleSwitch.Returned tt)
                   (fun m => if RoleSwitch.adapters_enabled m
                             then RoleSwitch.Returned tt else RoleSwitch.Raised)
                   RoleSwitch.trained_models in
      run.1 = RoleSwitch.Raised /\
      RoleSwitch.head_contents (RoleSwitch.critic_model run.2)
      = Some ([2], [0.5])%R /\
      RoleSwitch.adapters_enabled (RoleSwitch.critic_model run.2) = reenable) /\
  (forall reenable multi : bool,
      let run := RoleSwitch.get_co_model_output (logits := unit) (values := unit)
                   reenable
                   (fun _ => RoleSwitch.Returned (tt, tt))
                   multi
                   RoleSwitch.trained_critic in
      run.1 = RoleSwitch.Returned (tt, tt, tt, tt) /\
      RoleSwitch.head_contents run.2 = Some ([2], [0.5])%R).
Proof.
  split; [reflexivity |].
  split; [intros [= H _]; lra |].
  split; [intros []; split; reflexivity |].
  split; [intros []; repeat split; reflexivity |].
  intros [] []; split; reflexivity.
Qed.

(** * Further properties of the trainer *)

(** ** Sequence processing: when it returns, what it lays out *)

Section SequenceLayoutFacts.
Import Tensor SequenceProcessor ResponseMask.

Lemma strip_batch_raises (pad : Z) (prompts_ids responses_ids : list (list Z)) :
  length responses_ids < length prompts_ids ->
  strip_batch pad prompts_ids responses_ids = None.
Proof.
  revert responses_ids.
  induction prompts_ids as [| prompt prompts IH]; intros responses Hlen;
    [simpl in Hlen; lia |].
  destruct responses as [| response responses]; [reflexivity |].
  simpl in Hlen. simpl. rewrite IH by lia. reflexivity.
Qed.

Lemma process_sequences_inv (pad : Z) (prompts_ids responses_ids : list (list Z))
    (ps rs : list (list Z)) (seqs : sequences) :
  process_sequences pad prompts_ids responses_ids = Some (ps, rs, seqs) ->
  prompts_ids <> [] /\ length prompts_ids <= length responses_ids /\
  strip_batch pad prompts_ids responses_ids = Some (ps, rs) /\
  input_ids seqs = pad_sequence pad (zip_with (fun q r => q ++ r) ps rs) /\
  attention_mask seqs = ne_long pad <$> input_ids seqs.
Proof.
  intros Hrun. unfold process_sequences in Hrun.
  destruct (strip_batch pad prompts_ids responses_ids) as [[ps' rs'] |] eqn:Hstrip;
    [| discriminate].
  destruct (decide (length prompts_ids <= length responses_ids)) as [Hle | Hgt];
    [| rewrite strip_batch_raises in Hstrip by lia; discriminate].
  destruct (zip_with (fun q r => q ++ r) ps' rs') as [| row rows] eqn:Hzip;
    [discriminate |].
  injection Hrun as <- <- <-. cbn [input_ids attention_mask]. rewrite Hzip.
  split; [| repeat split; try assumption; reflexivity].
  intros ->. simpl in Hstrip. injection Hstrip as <- <-. discriminate.
Qed.

(** X1. [process_sequences] returns exactly when the batch is non-empty and
    there is a response row for every prompt row; otherwise it raises (an
    empty list of sequences is rejected by [pad_sequence], a missing response
    row by the indexing). *)
Theorem process_sequences_returns_iff
    (pad : Z) (prompts_ids responses_ids : list (list Z)) :
  is_Some (process_sequences pad prompts_ids responses_ids) <->
  prompts_ids <> [] /\ length prompts_ids <= length responses_ids.
Proof.
  split.
  - intros [[[ps rs] seqs] Hrun].
    destruct (process_sequences_inv _ _ _ _ _ _ Hrun) as (Hne & Hle & _).
    split; assumption.
  - intros [Hne Hle].
    destruct (strip_batch_returns pad prompts_ids responses_ids Hle)
      as (ps & rs & Hs & Hlp & Hlr & _).
    unfold process_sequences. rewrite Hs.
    destruct prompts_ids as [| prompt prompts]; [congruence |].
    destruct ps as [| p ps]; [simpl in Hlp; lia |].
    destruct rs as [| r rs]; [simpl in Hlr; lia |].
    simpl. eauto.
Qed.

(** Row by row: what [process_sequences] returns for example [i]. *)
Lemma process_sequences_rows
    (pad : Z) (prompts_ids responses_ids ps rs : list (list Z)) (seqs : sequences) :
  process_sequences pad prompts_ids responses_ids = Some (ps, rs, seqs) ->
  forall i prompt response,
    prompts_ids !! i = Some prompt -> responses_ids !! i = Some response ->
    exists p r row,
      strip_example pad prompt response = (p, r) /\
      ps !! i = Some p /\ rs !! i = Some r /\
      input_ids seqs !! i = Some row /\
      row = p ++ r ++ replicate (length row - length (p ++ r)) pad /\
      length (p ++ r) <= length row /\
      length row = max_list (length <$> zip_with (fun q r => q ++ r) ps rs) /\
      attention_mask seqs !! i = Some (ne_long pad row).
Proof.
  intros Hrun.
  destruct (process_sequences_inv _ _ _ _ _ _ Hrun) as (Hne & Hle & Hs & Hids & Hmask).
  destruct (strip_batch_returns pad prompts_ids responses_ids Hle)
    as (ps' & rs' & Hs' & Hlp & Hlr & Hrows).
  rewrite Hs in Hs'. injection Hs' as <- <-.
  intros i prompt response Hp Hr.
  destruct (Hrows i prompt response Hp Hr) as [Hpi Hri].
  destruct (strip_example pad prompt response) as [p r] eqn:Hstrip.
  simpl in Hpi, Hri.
  set (packed := zip_with (fun q r : list Z => q ++ r) ps rs) in *.
  assert (Hpacked : packed !! i = Some (p ++ r))
    by (unfold packed; rewrite lookup_zip_with, Hpi; simpl; rewrite Hri; reflexivity).
  assert (Hwidth : length (p ++ r) <= max_list (length <$> packed)).
  { apply max_list_elem_of_le, list_elem_of_fmap.
    exists (p ++ r). split; [reflexivity |].
    apply list_elem_of_lookup. exists i. exact Hpacked. }
  set (row := (p ++ r) ++ replicate (max_list (length <$> packed) - length (p ++ r)) pad).
  assert (Hrow : input_ids seqs !! i = Some row)
    by (rewrite Hids; unfold pad_sequence; rewrite list_lookup_fmap, Hpacked;
        reflexivity).
  assert (Hlrow : length row = max_list (length <$> packed))
    by (unfold row; rewrite length_app, length_replicate; lia).
  exists p, r, row. split; [reflexivity |].
  split; [exact Hpi |]. split; [exact Hri |]. split; [exact Hrow |].
  split; [rewrite Hlrow; unfold row; rewrite <- app_assoc; reflexivity |].
  split; [lia |]. split; [exact Hlrow |].
  rewrite Hmask, list_lookup_fmap, Hrow. reflexivity.
Qed.

(** X2. When [process_sequences] returns, the batch keeps its size and its
    order: row [i] of [input_ids] is the stripped prompt of example [i]
    followed by its stripped response and then by padding tokens up to the
    common width, which is the length of the longest packed example; the
    attention mask marks the tokens of that row that differ from the padding
    token. *)
Theorem process_sequences_layout
    (pad : Z) (prompts_ids responses_ids ps rs : list (list Z)) (seqs : sequences) :
  process_sequences pad prompts_ids responses_ids = Some (ps, rs, seqs) ->
  length ps = length prompts_ids /\ length rs = length prompts_ids /\
  length (input_ids seqs) = length prompts_ids /\
  length (attention_mask seqs) = length prompts_ids /\
  forall i prompt response,
    prompts_ids !! i = Some prompt -> responses_ids !! i = Some response ->
    exists p r row,
      strip_example pad prompt response = (p, r) /\
      ps !! i = Some p /\ rs !! i = Some r /\
      input_ids seqs !! i = Some row /\
      row = p ++ r ++ replicate (length row - length (p ++ r)) pad /\
      length (p ++ r) <= length row /\
      length row = max_list (length <$> zip_with (fun q r => q ++ r) ps rs) /\
      attention_mask seqs !! i = Some (ne_long pad row).
Proof.
  intros Hrun.
  destruct (process_sequences_inv _ _ _ _ _ _ Hrun) as (Hne & Hle & Hs & Hids & Hmask).
  destruct (strip_batch_returns pad prompts_ids responses_ids Hle)
    as (ps' & rs' & Hs' & Hlp & Hlr & _).
  rewrite Hs in Hs'. injection Hs' as <- <-.
  assert (Hlz : length (zip_with (fun q r : list Z => q ++ r) ps rs)
                = length prompts_ids) by (rewrite length_zip_with; lia).
  split; [exact Hlp |]. split; [exact Hlr |].
  split; [rewrite Hids; unfold pad_sequence; rewrite length_fmap; exact Hlz |].
  split; [rewrite Hmask, length_fmap, Hids; unfold pad_sequence;
          rewrite length_fmap; exact Hlz |].
  exact (process_sequences_rows _ _ _ _ _ _ Hrun).
Qed.

Lemma process_sequences_layout_witness :
  process_sequences 0 [[0; 0; 5]%Z; [0; 6; 7]%Z] [[8; 9]%Z; [3; 0]%Z]
  = Some ([[5]%Z; [6; 7]%Z], [[8; 9]%Z; [3]%Z],
          {| input_ids := [[5; 8; 9]%Z; [6; 7; 3]%Z];
             attention_mask := [[1; 1; 1]%Z; [1; 1; 1]%Z] |}) /\
  length (input_ids {| input_ids := [[5; 8; 9]%Z; [6; 7; 3]%Z];
                       attention_mask := [[1; 1; 1]%Z; [1; 1; 1]%Z] |}) = 2.
Proof.
  assert (Hrun : process_sequences 0 [[0; 0; 5]%Z; [0; 6; 7]%Z] [[8; 9]%Z; [3; 0]%Z]
                 = Some ([[5]%Z; [6; 7]%Z], [[8; 9]%Z; [3]%Z],
                         {| input_ids := [[5; 8; 9]%Z; [6; 7; 3]%Z];
                            attention_mask := [[1; 1; 1]%Z; [1; 1; 1]%Z] |}))
    by reflexivity.
  split; [exact Hrun |].
  destruct (process_sequences_layout _ _ _ _ _ _ Hrun) as (_ & _ & Hl & _).
  exact Hl.
Defined.

End SequenceLayoutFacts.

(** ** From stripped sequences to the response mask and the reward score *)

Section PipelineFacts.
Import Tensor SequenceProcessor ResponseMask FloatTensor Rewards.

Lemma count_eq_left_padded (pad : Z) (k : nat) (q : list Z) :
  Forall (fun t => t <> pad) q -> count_eq pad (replicate k pad ++ q) = k.
Proof.
  intros Hq. unfold count_eq. rewrite List.filter_app, length_app.
  replace (length (List.filter (fun t => Z.eqb t pad) q)) with 0%nat.
  - induction k as [| k IH]; [reflexivity |].
    simpl. rewrite Z.eqb_refl. simpl. lia.
  - induction Hq as [| t q Ht _ IH]; [reflexivity |].
    simpl. apply Z.eqb_neq in Ht. rewrite Ht. exact IH.
Qed.

Lemma count_ne_right_padded (pad : Z) (m : nat) (r : list Z) :
  Forall (fun t => t <> pad) r -> count_ne pad (r ++ replicate m pad) = length r.
Proof.
  intros Hr. unfold count_ne. rewrite List.filter_app, length_app.
  replace (length (List.filter (fun t => negb (Z.eqb t pad)) (replicate m pad)))
    with 0%nat.
  - induction Hr as [| t r Ht _ IH]; [reflexivity |].
    simpl. apply Z.eqb_neq in Ht. rewrite Ht. simpl. simpl in IH. lia.
  - induction m as [| m IH]; [reflexivity |].
    simpl. rewrite Z.eqb_refl. simpl. exact IH.
Qed.

Lemma strip_example_padded (pad : Z) (k m : nat) (q r : list Z) :
  Forall (fun t => t <> pad) q -> Forall (fun t => t <> pad) r ->
  strip_example pad (replicate k pad ++ q) (r ++ replicate m pad) = (q, r).
Proof.
  intros Hq Hr. unfold strip_example.
  rewrite count_eq_left_padded, count_ne_right_padded by assumption.
  rewrite drop_app_length' by (rewrite length_replicate; reflexivity).
  rewrite take_app_length. reflexivity.
Qed.

Lemma ne_long_tokens (pad : Z) (x : list Z) :
  Forall (fun t => t <> pad) x -> ne_long pad x = replicate (length x) 1%Z.
Proof.
  unfold ne_long. induction 1 as [| t x Ht _ IH]; [reflexivity |].
  cbn [fmap list_fmap length replicate].
  apply Z.eqb_neq in Ht. rewrite Ht. f_equal. exact IH.
Qed.

Lemma ne_long_padding (pad : Z) (n : nat) :
  ne_long pad (replicate n pad) = replicate n 0%Z.
Proof. unfold ne_long. rewrite fmap_replicate, Z.eqb_refl. reflexivity. Qed.

Lemma ne_long_length (pad : Z) (x : list Z) : length (ne_long pad x) = length x.
Proof. unfold ne_long. apply length_fmap. Qed.

Lemma ne_long_app (pad : Z) (x y : list Z) :
  ne_long pad (x ++ y) = ne_long pad x ++ ne_long pad y.
Proof. unfold ne_long. apply fmap_app. Qed.

Lemma get_responses_mask_lookup (sequences_mask prompts rm : list (list Z))
    (i : nat) (row prompt : list Z) :
  get_responses_mask sequences_mask prompts = Some rm ->
  sequences_mask !! i = Some row -> prompts !! i = Some prompt ->
  rm !! i = Some (response_mask_of row prompt).
Proof.
  intros Hrm Hrow Hp.
  destruct (get_responses_mask_inv _ _ _ Hrm) as (_ & Hle & Hrows).
  destruct (responses_mask_rows_returns sequences_mask prompts Hle)
    as (rows & Hrows' & _ & Hlookup).
  rewrite Hrows in Hrows'. injection Hrows' as <-.
  exact (Hlookup i row prompt Hrow Hp).
Qed.

Lemma last_nonzero_all_zero (x : list Z) :
  Forall (fun m => m = 0%Z) x -> last_nonzero x = None.
Proof.
  intros Hzero. unfold last_nonzero, nonzero. generalize 0%nat.
  induction Hzero as [| m x Hm _ IH]; intros i; [reflexivity |].
  simpl. subst m. simpl. apply IH.
Qed.

(** X3. A prompt that is left-padded and a response that is right-padded,
    their real tokens all different from the padding token, come back from
    [process_sequences] as exactly their real tokens: stripping undoes the
    padding. *)
Theorem process_sequences_strips_padding
    (pad : Z) (prompts_ids responses_ids ps rs : list (list Z)) (seqs : sequences)
    (i k m : nat) (q r : list Z) :
  process_sequences pad prompts_ids responses_ids = Some (ps, rs, seqs) ->
  prompts_ids !! i = Some (replicate k pad ++ q) ->
  responses_ids !! i = Some (r ++ replicate m pad) ->
  Forall (fun t => t <> pad) q -> Forall (fun t => t <> pad) r ->
  ps !! i = Some q /\ rs !! i = Some r /\
  replicate k pad ++ q = replicate (length (replicate k pad ++ q) - length q) pad ++ q.
Proof.
  intros Hrun Hp Hr Hq Hrr.
  pose proof (process_sequences_rows _ _ _ _ _ _ Hrun) as Hrows.
  destruct (Hrows i _ _ Hp Hr) as (p' & r' & row & Hstrip & Hpi & Hri & _).
  rewrite strip_example_padded in Hstrip by assumption.
  injection Hstrip as <- <-.
  split; [exact Hpi |]. split; [exact Hri |].
  rewrite length_app, length_replicate. f_equal. f_equal. lia.
Qed.

Lemma process_sequences_strips_padding_witness :
  process_sequences 0 [[0; 0; 5]%Z; [0; 6; 7]%Z] [[8; 9]%Z; [3; 0]%Z]
  = Some ([[5]%Z; [6; 7]%Z], [[8; 9]%Z; [3]%Z],
          {| input_ids := [[5; 8; 9]%Z; [6; 7; 3]%Z];
             attention_mask := [[1; 1; 1]%Z; [1; 1; 1]%Z] |}) /\
  [[0; 0; 5]%Z; [0; 6; 7]%Z] !! 1%nat = Some (replicate 1 0%Z ++ [6; 7]%Z) /\
  [[8; 9]%Z; [3; 0]%Z] !! 1%nat = Some ([3]%Z ++ replicate 1 0%Z) /\
  Forall (fun t => t <> 0%Z) [6; 7]%Z /\ Forall (fun t => t <> 0%Z) [3]%Z /\
  [[5]%Z; [6; 7]%Z] !! 1%nat = Some [6; 7]%Z /\
  [[8; 9]%Z; [3]%Z] !! 1%nat = Some [3]%Z.
Proof.
  assert (Hrun : process_sequences 0 [[0; 0; 5]%Z; [0; 6; 7]%Z] [[8; 9]%Z; [3; 0]%Z]
                 = Some ([[5]%Z; [6; 7]%Z], [[8; 9]%Z; [3]%Z],
                         {| input_ids := [[5; 8; 9]%Z; [6; 7; 3]%Z];
                            attention_mask := [[1; 1; 1]%Z; [1; 1; 1]%Z] |}))
    by reflexivity.
  assert (Hq : Forall (fun t => t <> 0%Z) [6; 7]%Z) by (repeat constructor; lia).
  assert (Hr : Forall (fun t => t <> 0%Z) [3]%Z) by (repeat constructor; lia).
  split; [exact Hrun |]. split; [reflexivity |]. split; [reflexivity |].
  split; [exact Hq |]. split; [exact Hr |].
  destruct (process_sequences_strips_padding 0 _ _ _ _ _ 1 1 1 [6; 7]%Z [3]%Z
              Hrun eq_refl eq_refl Hq Hr) as (Hp & Hrs & _).
  split; [exact Hp | exact Hrs].
Defined.

(** X4. Composing [process_sequences] with [get_responses_mask]: for a
    left-padded prompt and a right-padded response whose real tokens differ
    from the padding token, the response mask of the example is 0 on the
    prompt tokens, 1 on exactly the response tokens, and 0 on the padding
    that fills the row. *)
Theorem responses_mask_of_packed_batch
    (pad : Z) (prompts_ids responses_ids ps rs rm : list (list Z)) (seqs : sequences)
    (i k m : nat) (q r : list Z) :
  process_sequences pad prompts_ids responses_ids = Some (ps, rs, seqs) ->
  get_responses_mask (attention_mask seqs) ps = Some rm ->
  prompts_ids !! i = Some (replicate k pad ++ q) ->
  responses_ids !! i = Some (r ++ replicate m pad) ->
  Forall (fun t => t <> pad) q -> Forall (fun t => t <> pad) r ->
  exists row,
    input_ids seqs !! i = Some row /\
    length q + length r <= length row /\
    rm !! i = Some (replicate (length q) 0%Z ++ replicate (length r) 1%Z
                    ++ replicate (length row - length q - length r) 0%Z).
Proof.
  intros Hrun Hrm Hp Hr Hq Hrr.
  pose proof (process_sequences_rows _ _ _ _ _ _ Hrun) as Hrows.
  destruct (Hrows i _ _ Hp Hr)
    as (p' & r' & row & Hstrip & Hpi & Hri & Hrow & Heq & Hle & _ & Hmask).
  rewrite strip_example_padded in Hstrip by assumption.
  injection Hstrip as <- <-.
  rewrite length_app in Hle, Heq.
  exists row. split; [exact Hrow |]. split; [exact Hle |].
  rewrite (get_responses_mask_lookup _ _ _ _ _ _ Hrm Hmask Hpi).
  f_equal. unfold response_mask_of, zeros_like. rewrite ne_long_length.
  rewrite take_replicate, Nat.min_l by lia. f_equal.
  rewrite Heq at 1. rewrite !ne_long_app.
  rewrite drop_app_length' by (rewrite ne_long_length; reflexivity).
  rewrite ne_long_tokens, ne_long_padding by assumption.
  do 2 f_equal. lia.
Qed.

Lemma responses_mask_of_packed_batch_witness :
  process_sequences 0 [[0; 0; 5]%Z; [0; 6; 7]%Z] [[8; 9]%Z; [3; 0]%Z]
  = Some ([[5]%Z; [6; 7]%Z], [[8; 9]%Z; [3]%Z],
          {| input_ids := [[5; 8; 9]%Z; [6; 7; 3]%Z];
             attention_mask := [[1; 1; 1]%Z; [1; 1; 1]%Z] |}) /\
  get_responses_mask [[1; 1; 1]%Z; [1; 1; 1]%Z] [[5]%Z; [6; 7]%Z]
  = Some [[0; 1; 1]%Z; [0; 0; 1]%Z] /\
  exists row,
    [[5; 8; 9]%Z; [6; 7; 3]%Z] !! 1%nat = Some row /\
    length [6; 7]%Z + length [3]%Z <= length row /\
    [[0; 1; 1]%Z; [0; 0; 1]%Z] !! 1%nat
    = Some (replicate (length [6; 7]%Z) 0%Z ++ replicate (length [3]%Z) 1%Z
            ++ replicate (length row - length [6; 7]%Z - length [3]%Z) 0%Z).
Proof.
  assert (Hrun : process_sequences 0 [[0; 0; 5]%Z; [0; 6; 7]%Z] [[8; 9]%Z; [3; 0]%Z]
                 = Some ([[5]%Z; [6; 7]%Z], [[8; 9]%Z; [3]%Z],
                         {| input_ids := [[5; 8; 9]%Z; [6; 7; 3]%Z];
                            attention_mask := [[1; 1; 1]%Z; [1; 1; 1]%Z] |}))
    by reflexivity.
  assert (Hrm : get_responses_mask [[1; 1; 1]%Z; [1; 1; 1]%Z] [[5]%Z; [6; 7]%Z]
                = Some [[0; 1; 1]%Z; [0; 0; 1]%Z]) by reflexivity.
  assert (Hq : Forall (fun t => t <> 0%Z) [6; 7]%Z) by (repeat constructor; lia).
  assert (Hr : Forall (fun t => t <> 0%Z) [3]%Z) by (repeat constructor; lia).
  split; [exact Hrun |]. split; [exact Hrm |].
  exact (responses_mask_of_packed_batch 0 _ _ _ _ _ _ 1 1 1 [6; 7]%Z [3]%Z
           Hrun Hrm eq_refl eq_refl Hq Hr).
Defined.

(** X5. An example whose generated response is entirely padding makes the
    experience pipeline fail: its row of the response mask built by
    [process_sequences] and [get_responses_mask] is all zero, so
    [get_last_reward_score] raises on the batch, and with it
    [compute_rewards_with_kl_penalty]. *)
Theorem all_padding_response_raises
    (pad : Z) (prompts_ids responses_ids ps rs rm : list (list Z)) (seqs : sequences)
    (i : nat) (response : list Z) (args : Args)
    (ref_values actor_log_probs ref_log_probs : list (list R)) :
  process_sequences pad prompts_ids responses_ids = Some (ps, rs, seqs) ->
  get_responses_mask (attention_mask seqs) ps = Some rm ->
  (i < length prompts_ids)%nat ->
  responses_ids !! i = Some response ->
  Forall (fun t => t = pad) response ->
  (i < length ref_values)%nat ->
  (exists mask, rm !! i = Some mask /\ Forall (fun x => x = 0%Z) mask) /\
  get_last_reward_score ref_values rm = None /\
  compute_rewards_with_kl_penalty args ref_values actor_log_probs ref_log_probs rm
  = None.
Proof.
  intros Hrun Hrm Hi Hresp Hall Hv.
  destruct (lookup_lt_is_Some_2 prompts_ids i Hi) as [prompt Hp].
  pose proof (process_sequences_rows _ _ _ _ _ _ Hrun) as Hrows.
  destruct (Hrows i _ _ Hp Hresp)
    as (p & r & row & Hstrip & Hpi & Hri & Hrow & Heq & Hle & _ & Hmask).
  assert (Hr : r = [])
    by (rewrite <- (strip_example_all_padding pad prompt response Hall), Hstrip;
        reflexivity).
  subst r. rewrite app_nil_r in Heq, Hle. simpl in Heq.
  pose proof (get_responses_mask_lookup _ _ _ _ _ _ Hrm Hmask Hpi) as Hrmi.
  assert (Hzero : Forall (fun x => x = 0%Z) (response_mask_of (ne_long pad row) p)).
  { unfold response_mask_of, zeros_like. apply Forall_app. split.
    - apply Forall_take, Forall_replicate. reflexivity.
    - rewrite Heq, ne_long_app.
      rewrite drop_app_length' by (rewrite ne_long_length; reflexivity).
      rewrite ne_long_padding. apply Forall_replicate. reflexivity. }
  assert (Hscore : get_last_reward_score ref_values rm = None).
  { unfold get_last_reward_score. apply bind_None. left.
    apply mapM_None_2, Exists_exists.
    exists i. split; [apply elem_of_seq; lia |].
    destruct (lookup_lt_is_Some_2 ref_values i Hv) as [value Hvalue].
    rewrite Hvalue, Hrmi. simpl. unfold last_reward_score_of.
    rewrite last_nonzero_all_zero by exact Hzero. reflexivity. }
  split; [eauto |]. split; [exact Hscore |].
  unfold compute_rewards_with_kl_penalty. rewrite Hscore. reflexivity.
Qed.

Lemma all_padding_response_raises_witness :
  process_sequences 0 [[0; 5]%Z] [[0; 0]%Z]
  = Some ([[5]%Z], [[]],
          {| input_ids := [[5]%Z]; attention_mask := [[1]%Z] |}) /\
  get_responses_mask [[1]%Z] [[5]%Z] = Some [[0]%Z] /\
  get_last_reward_score [[3%R]] [[0]%Z] = None.
Proof.
  assert (Hrun : process_sequences 0 [[0; 5]%Z] [[0; 0]%Z]
                 = Some ([[5]%Z], [[]],
                         {| input_ids := [[5]%Z]; attention_mask := [[1]%Z] |}))
    by reflexivity.
  assert (Hrm : get_responses_mask [[1]%Z] [[5]%Z] = Some [[0]%Z]) by reflexivity.
  split; [exact Hrun |]. split; [exact Hrm |].
  destruct (all_padding_response_raises 0 _ _ _ _ _ _ 0 [0; 0]%Z
              (Build_Args "identity" 0.1 None 1 1 false 0.2 2 1 None)
              [[3%R]] [[1%R]] [[1%R]] Hrun Hrm) as (_ & Hscore & _).
  - simpl. lia.
  - reflexivity.
  - repeat constructor.
  - simpl. lia.
  - exact Hscore.
Defined.

End PipelineFacts.

(** ** Reward scores and the returned penalty series *)

Section RewardScoreFacts.
Import Tensor FloatTensor Rewards.
Local Open Scope R_scope.

Lemma last_nonzero_inv (x : list Z) :
  match last_nonzero x with
  | Some e => is_last_nonzero x e
  | None => Forall (fun m => m = 0%Z) x
  end.
Proof.
  unfold last_nonzero, nonzero.
  pose proof (last_nonzero_from_spec 0 x) as Hspec.
  destruct (last (nonzero_from 0 x)) as [k |]; [| exact Hspec].
  destruct Hspec as (e & -> & He). exact He.
Qed.

Lemma rewards_of_example_inv (args : Args) (reward_score : R)
    (actor_log_prob ref_log_prob : list R) (mask : list Z)
    (y : list R * list R * R) :
  rewards_of_example args reward_score actor_log_prob ref_log_prob mask = Some y ->
  y.1.2 = y.1.1 /\ y.2 = clip_reward_score args reward_score.
Proof.
  unfold rewards_of_example. intros Hy.
  destruct (decide (length actor_log_prob = length ref_log_prob)); [| discriminate].
  destruct (last_nonzero mask) as [end_index |]; [| discriminate]. simpl in Hy.
  destruct (decide (end_index < length _)%nat); [| discriminate].
  injection Hy as <-. split; reflexivity.
Qed.

Lemma clip_reward_score_bounds (args : Args) (c s : R) :
  reward_score_clip args = Some c -> 0 <= c ->
  - c <= clip_reward_score args s <= c.
Proof.
  intros Hc Hpos. unfold clip_reward_score, clamp. rewrite Hc.
  unfold Rmin, Rmax.
  destruct (Rle_dec s (- c)); destruct (Rle_dec _ c); lra.
Qed.

(** X6. Whenever [compute_rewards_with_kl_penalty] returns, the tensor it
    returns as the KL penalty is the reward series itself, terminal reward
    score included (the score is added in place to the tensor already
    appended to [kl_penalty_all]); and when a clip [c >= 0] is configured,
    every returned reward score lies in [[-c, c]]. *)
Theorem compute_rewards_outputs
    (args : Args) (ref_values actor_log_probs ref_log_probs : list (list R))
    (responses_mask : list (list Z))
    (rewards kl_all : list (list R)) (scores : list R) :
  compute_rewards_with_kl_penalty args ref_values actor_log_probs ref_log_probs
    responses_mask = Some (rewards, kl_all, scores) ->
  kl_all = rewards /\
  length rewards = length ref_values /\ length scores = length ref_values /\
  (forall c, reward_score_clip args = Some c -> 0 <= c ->
             Forall (fun s => - c <= s <= c) scores).
Proof.
  unfold compute_rewards_with_kl_penalty. intros Hrun.
  destruct (get_last_reward_score ref_values responses_mask) as [scores0 |] eqn:Hs;
    [| discriminate].
  simpl in Hrun.
  match type of Hrun with
  | context [mapM ?f ?l] => destruct (mapM f l) as [rows |] eqn:Hrows
  end; [| discriminate].
  simpl in Hrun. injection Hrun as <- <- <-.
  destruct (get_last_reward_score_inv _ _ _ Hs) as [_ Hloop].
  pose proof (length_mapM _ _ _ Hloop) as Hl0. rewrite length_seq in Hl0.
  pose proof (length_mapM _ _ _ Hrows) as Hl1. rewrite length_seq in Hl1.
  apply mapM_Some_1 in Hrows.
  assert (Hall : Forall (fun y : list R * list R * R =>
                           y.1.2 = y.1.1 /\
                           exists s, y.2 = clip_reward_score args s) rows).
  { apply Forall_lookup. intros j y Hy.
    destruct (Forall2_lookup_r _ _ _ j y Hrows Hy) as (i & _ & Hbody).
    rewrite list_lookup_fmap in Hbody.
    destruct (responses_mask !! i) as [mask |]; [| discriminate]. simpl in Hbody.
    destruct (actor_log_probs !! i) as [a |]; [| discriminate]. simpl in Hbody.
    destruct (ref_log_probs !! i) as [r |]; [| discriminate]. simpl in Hbody.
    destruct (scores0 !! i) as [s |]; [| discriminate]. simpl in Hbody.
    destruct (rewards_of_example_inv _ _ _ _ _ _ Hbody) as [H1 H2].
    split; [exact H1 | eauto]. }
  split.
  { apply Forall_fmap_ext_1. eapply Forall_impl; [exact Hall |].
    intros y [Hy _]. exact Hy. }
  split; [rewrite length_fmap; lia |]. split; [rewrite length_fmap; lia |].
  intros c Hc Hpos. apply Forall_fmap.
  eapply Forall_impl; [exact Hall |].
  intros y [_ [s Hy]]. simpl. rewrite Hy.
  now apply clip_reward_score_bounds.
Qed.

Lemma compute_rewards_outputs_witness :
  compute_rewards_with_kl_penalty
    (Build_Args "abs" 0.1 (Some 1) 1 1 false 0.2 2 1 None)
    [[0; 0; 5]] [[-1; -2]] [[-2; -1]] [[0; 1; 1]%Z]
  = Some ([[kl_penalty_at (Build_Args "abs" 0.1 (Some 1) 1 1 false 0.2 2 1 None) (-1) (-2);
            kl_penalty_at (Build_Args "abs" 0.1 (Some 1) 1 1 false 0.2 2 1 None) (-2) (-1)
            + clamp 5 (- (1)) 1]],
          [[kl_penalty_at (Build_Args "abs" 0.1 (Some 1) 1 1 false 0.2 2 1 None) (-1) (-2);
            kl_penalty_at (Build_Args "abs" 0.1 (Some 1) 1 1 false 0.2 2 1 None) (-2) (-1)
            + clamp 5 (- (1)) 1]],
          [clamp 5 (- (1)) 1]) /\
  Forall (fun s => - (1) <= s <= 1) [clamp 5 (- (1)) 1].
Proof.
  pose (args := Build_Args "abs" 0.1 (Some 1) 1 1 false 0.2 2 1 None).
  assert (Hrun : compute_rewards_with_kl_penalty args
                   [[0; 0; 5]] [[-1; -2]] [[-2; -1]] [[0; 1; 1]%Z]
                 = Some ([[kl_penalty_at args (-1) (-2);
                           kl_penalty_at args (-2) (-1) + clamp 5 (- (1)) 1]],
                         [[kl_penalty_at args (-1) (-2);
                           kl_penalty_at args (-2) (-1) + clamp 5 (- (1)) 1]],
                         [clamp 5 (- (1)) 1])) by reflexivity.
  split; [exact Hrun |].
  destruct (compute_rewards_outputs args _ _ _ _ _ _ _ Hrun) as (_ & _ & _ & Hclip).
  apply (Hclip 1 eq_refl). lra.
Defined.

Lemma last_reward_score_of_inv (value : list R) (response_mask : list Z) (s : R) :
  last_reward_score_of value response_mask = Some s ->
  exists e, is_last_nonzero response_mask e /\ value !! e = Some s.
Proof.
  unfold last_reward_score_of. intros Hs.
  pose proof (last_nonzero_inv response_mask) as Hlast.
  destruct (last_nonzero response_mask) as [e |]; [| discriminate].
  exists e. split; [exact Hlast | exact Hs].
Qed.

(** X7. On a batch with a mask row for every value row, no mask row longer
    than its value row: [get_last_reward_score] returns exactly when the
    batch is not empty and every example's mask has a nonzero position (it
    raises as soon as one mask row is all zero, and on an empty batch, where
    [torch.stack] is given an empty list), and then the score of each
    example is its value at the last index where its mask is nonzero. *)
Theorem get_last_reward_score_spec
    (values : list (list R)) (responses_mask : list (list Z)) :
  (length values <= length responses_mask)%nat ->
  (forall i v m, values !! i = Some v -> responses_mask !! i = Some m ->
                 (length m <= length v)%nat) ->
  (is_Some (get_last_reward_score values responses_mask) <->
   values <> [] /\
   forall i m, (i < length values)%nat -> responses_mask !! i = Some m ->
               exists j x, m !! j = Some x /\ x <> 0%Z) /\
  (forall scores,
      get_last_reward_score values responses_mask = Some scores ->
      length scores = length values /\
      forall i v m s,
        values !! i = Some v -> responses_mask !! i = Some m ->
        scores !! i = Some s ->
        exists e, is_last_nonzero m e /\ v !! e = Some s).
Proof.
  intros Hlen Hshape.
  assert (Hinv : forall scores,
             get_last_reward_score values responses_mask = Some scores ->
             length scores = length values /\
             forall i v m, values !! i = Some v -> responses_mask !! i = Some m ->
               exists s, scores !! i = Some s /\
                         last_reward_score_of v m = Some s).
  { intros scores Hs. destruct (get_last_reward_score_inv _ _ _ Hs) as [_ Hloop].
    destruct (mapM_seq_lookup _ _ _ Hloop) as [Hl Hat].
    split; [exact Hl |].
    intros i v m Hv Hm.
    destruct (Hat i) as (y & Hy & Hf); [apply lookup_lt_Some in Hv; exact Hv |].
    rewrite Hv, Hm in Hf. simpl in Hf. exists y. split; assumption. }
  split; [split |].
  - intros [scores Hs].
    split; [exact (proj1 (get_last_reward_score_inv _ _ _ Hs)) |].
    intros i m Hi Hm.
    destruct (Hinv scores Hs) as [_ Hat].
    destruct (lookup_lt_is_Some_2 values i Hi) as [v Hv].
    destruct (Hat i v m Hv Hm) as (s & _ & Hscore).
    destruct (last_reward_score_of_inv _ _ _ Hscore) as (e & [(x & Hx & Hnz) _] & _).
    exists e, x. split; assumption.
  - intros [Hne Hnz].
    destruct (mapM_seq_is_Some
                (fun i : nat =>
                   value ← values !! i;
                   response_mask ← responses_mask !! i;
                   last_reward_score_of value response_mask)
                (length values)) as [scores Hloop].
    { intros i Hi.
      destruct (lookup_lt_is_Some_2 values i Hi) as [v Hv].
      destruct (lookup_lt_is_Some_2 responses_mask i) as [m Hm]; [lia |].
      rewrite Hv, Hm. simpl. unfold last_reward_score_of.
      destruct (last_nonzero_Some m (Hnz i m Hi Hm)) as (e & He & Hlast).
      rewrite He. simpl. apply lookup_lt_is_Some_2.
      pose proof (is_last_nonzero_lt _ _ Hlast). pose proof (Hshape i v m Hv Hm). lia. }
    exists scores. now apply get_last_reward_score_returns.
  - intros scores Hs. destruct (Hinv scores Hs) as [Hl Hat].
    split; [exact Hl |].
    intros i v m s Hv Hm Hsi.
    destruct (Hat i v m Hv Hm) as (s' & Hs' & Hscore).
    rewrite Hsi in Hs'. injection Hs' as <-.
    now apply last_reward_score_of_inv.
Qed.

Lemma get_last_reward_score_spec_witness :
  (length [[1; 2; 3]%R; [4; 5; 6]%R] <= length [[0; 1; 0]%Z; [0; 1; 1]%Z])%nat /\
  (forall i v m, [[1; 2; 3]; [4; 5; 6]] !! i = Some v ->
                 [[0; 1; 0]%Z; [0; 1; 1]%Z] !! i = Some m ->
                 (length m <= length v)%nat) /\
  get_last_reward_score [[1; 2; 3]; [4; 5; 6]] [[0; 1; 0]%Z; [0; 1; 1]%Z]
  = Some [2; 6] /\
  length [2; 6] = length [[1; 2; 3]; [4; 5; 6]].
Proof.
  assert (Hlen : (length [[1; 2; 3]%R; [4; 5; 6]%R]
                  <= length [[0; 1; 0]%Z; [0; 1; 1]%Z])%nat) by (simpl; lia).
  assert (Hshape : forall i v m, [[1; 2; 3]; [4; 5; 6]] !! i = Some v ->
                     [[0; 1; 0]%Z; [0; 1; 1]%Z] !! i = Some m ->
                     (length m <= length v)%nat).
  { intros [| [| i]] v m Hv Hm; simpl in Hv, Hm; try discriminate;
      injection Hv as <-; injection Hm as <-; simpl; lia. }
  split; [exact Hlen |]. split; [exact Hshape |]. split; [reflexivity |].
  destruct (get_last_reward_score_spec _ _ Hlen Hshape) as [_ Hscores].
  destruct (Hscores [2; 6] eq_refl) as [Hl _]. exact Hl.
Defined.

End RewardScoreFacts.

(** ** More on advantages and returns *)

Section ReturnsFacts.
Import FloatTensor Whiten Advantages.
Local Open Scope R_scope.

Lemma returns_row (args : Args) (values rewards : list (list R)) (i : nat)
    (values_i rewards_i : list R) :
  values !! i = Some values_i -> rewards !! i = Some rewards_i ->
  zip2d Rplus (zip_with (gae_spec args) values rewards) values !! i
  = Some (zip_with Rplus (gae_spec args values_i rewards_i) values_i).
Proof.
  intros Hv Hr. unfold zip2d.
  rewrite lookup_zip_with, lookup_zip_with, Hv. simpl. rewrite Hr. reflexivity.
Qed.

(** X8. The returns obey the lambda-return recursion
    [return_t = reward_t + gamma * ((1 - lam) * value_{t+1} + lam * return_{t+1})],
    with the value and the return after the last step taken as [0]. *)
Theorem returns_lambda_recursion
    (args : Args) (values rewards : list (list R)) (responses_mask : list (list Z))
    (advantages returns : list (list R))
    (i t : nat) (values_i rewards_i returns_i : list R) (r_t ret_t : R) :
  Forall2 (fun v r => length v = length r) values rewards ->
  get_advantages_and_returns args values rewards responses_mask
  = Some (advantages, returns) ->
  values !! i = Some values_i -> rewards !! i = Some rewards_i ->
  returns !! i = Some returns_i ->
  rewards_i !! t = Some r_t -> returns_i !! t = Some ret_t ->
  ret_t = r_t + gamma args * ((1 - lam args) * default 0 (values_i !! S t)
                              + lam args * default 0 (returns_i !! S t)).
Proof.
  intros Hshape Hrun Hv Hr Hret Hrt Hrett.
  rewrite (get_advantages_and_returns_unfold _ _ _ _ Hshape (mk_is_Some _ _ Hrun))
    in Hrun.
  injection Hrun as _ <-.
  rewrite (returns_row args values rewards i _ _ Hv Hr) in Hret.
  injection Hret as <-.
  pose proof (Forall2_lookup_lr _ _ _ _ _ _ Hshape Hv Hr) as Hlen.
  cbv beta in Hlen.
  rewrite lookup_zip_with in Hrett.
  destruct (gae_spec args values_i rewards_i !! t) as [g |] eqn:Hg; [| discriminate].
  simpl in Hrett.
  destruct (values_i !! t) as [v |] eqn:Hvt; [| discriminate].
  simpl in Hrett. injection Hrett as <-.
  rewrite (gae_spec_lookup args values_i rewards_i t r_t v Hrt Hvt) in Hg.
  injection Hg as <-.
  rewrite lookup_zip_with.
  destruct (gae_spec args values_i rewards_i !! S t) as [g' |] eqn:Hg'.
  - destruct (lookup_lt_is_Some_2 values_i (S t)) as [v' Hv'].
    { apply lookup_lt_Some in Hg'.
      rewrite gae_spec_length in Hg' by assumption. lia. }
    rewrite Hv'. simpl. ring.
  - simpl. rewrite (lookup_ge_None_2 values_i (S t)).
    + simpl. ring.
    + apply lookup_ge_None_1 in Hg'.
      rewrite gae_spec_length in Hg' by assumption. lia.
Qed.

Lemma returns_lambda_recursion_witness :
  Forall2 (fun v r : list R => length v = length r) [[1; 2; 3]] [[1; 1; 1]] /\
  exists advantages returns returns_i ret_t,
    get_advantages_and_returns
      (Build_Args "identity" 0.1 None 0.5 0.5 false 0.2 2 1 None)
      [[1; 2; 3]] [[1; 1; 1]] [[0; 1; 1; 1]%Z]
    = Some (advantages, returns) /\
    returns !! 0%nat = Some returns_i /\ returns_i !! 1%nat = Some ret_t /\
    ret_t = 1 + 0.5 * ((1 - 0.5) * default 0 ([1; 2; 3] !! 2%nat)
                       + 0.5 * default 0 (returns_i !! 2%nat)).
Proof.
  pose (args := Build_Args "identity" 0.1 None 0.5 0.5 false 0.2 2 1 None).
  assert (Hshape : Forall2 (fun v r : list R => length v = length r)
                           [[1; 2; 3]] [[1; 1; 1]])
    by (repeat constructor).
  split; [exact Hshape |].
  assert (Hsteps : Forall (fun r : list R => r <> []) [[1; 1; 1]])
    by (repeat constructor; discriminate).
  pose proof (get_advantages_and_returns_unfold args [[1; 2; 3]] [[1; 1; 1]]
                [[0; 1; 1; 1]%Z] Hshape
                (get_advantages_and_returns_returns args [[1; 2; 3]] [[1; 1; 1]]
                   [[0; 1; 1; 1]%Z] Hshape Hsteps)) as Hrun.
  eexists _, _, _, _. split; [exact Hrun |].
  split; [reflexivity |]. split; [reflexivity |].
  exact (returns_lambda_recursion args [[1; 2; 3]] [[1; 1; 1]] [[0; 1; 1; 1]%Z]
           _ _ 0 1 [1; 2; 3] [1; 1; 1] _ 1 _
           Hshape Hrun eq_refl eq_refl eq_refl eq_refl eq_refl).
Defined.

Lemma gae_batch_shape (args : Args) (values rewards : list (list R)) :
  Forall2 (fun v r => length v = length r) values rewards ->
  Forall2 (fun a r : list R => length a = length r)
          (zip_with (gae_spec args) values rewards) rewards.
Proof.
  induction 1 as [| v r vs rs Hlen _ IH]; [constructor |].
  simpl. constructor; [now apply gae_spec_length | exact IH].
Qed.

Lemma map2d_shape {A B} (f : A -> B) (x : list (list A)) (y : list (list R)) :
  Forall2 (fun a r => length a = length r) x y ->
  Forall2 (fun a r => length a = length r) (map2d f x) y.
Proof.
  induction 1 as [| a r x y Hlen _ IH]; [constructor |].
  unfold map2d in *. cbn [fmap list_fmap]. constructor; [| exact IH].
  rewrite <- Hlen. apply length_fmap.
Qed.

(** X9. On values and rewards of one shape, the advantages and the returns
    that [get_advantages_and_returns] produces have the shape of the
    rewards, with or without advantage normalisation. *)
Theorem advantages_and_returns_shape
    (args : Args) (values rewards : list (list R)) (responses_mask : list (list Z))
    (advantages returns : list (list R)) :
  Forall2 (fun v r => length v = length r) values rewards ->
  get_advantages_and_returns args values rewards responses_mask
  = Some (advantages, returns) ->
  Forall2 (fun a r => length a = length r) advantages rewards /\
  Forall2 (fun q r => length q = length r) returns rewards.
Proof.
  intros Hshape Hrun.
  rewrite (get_advantages_and_returns_unfold _ _ _ _ Hshape (mk_is_Some _ _ Hrun))
    in Hrun.
  injection Hrun as <- <-.
  pose proof (gae_batch_shape args values rewards Hshape) as Hraw.
  split.
  - destruct (use_advantage_norm args); [| exact Hraw].
    unfold masked_whiten. simpl. now apply map2d_shape.
  - clear Hraw. induction Hshape as [| v r vs rs Hlen _ IH]; [constructor |].
    unfold zip2d in *. simpl. constructor; [| exact IH].
    rewrite length_zip_with, gae_spec_length by assumption. lia.
Qed.

Lemma advantages_and_returns_shape_witness :
  Forall2 (fun v r : list R => length v = length r) [[1; 2; 3]] [[1; 1; 1]] /\
  exists advantages returns,
    get_advantages_and_returns
      (Build_Args "identity" 0.1 None 1 1 true 0.2 2 1 None)
      [[1; 2; 3]] [[1; 1; 1]] [[0; 1; 1; 1]%Z]
    = Some (advantages, returns) /\
    Forall2 (fun a r : list R => length a = length r) advantages [[1; 1; 1]].
Proof.
  pose (args := Build_Args "identity" 0.1 None 1 1 true 0.2 2 1 None).
  assert (Hshape : Forall2 (fun v r : list R => length v = length r)
                           [[1; 2; 3]] [[1; 1; 1]])
    by (repeat constructor).
  split; [exact Hshape |].
  assert (Hsteps : Forall (fun r : list R => r <> []) [[1; 1; 1]])
    by (repeat constructor; discriminate).
  pose proof (get_advantages_and_returns_unfold args [[1; 2; 3]] [[1; 1; 1]]
                [[0; 1; 1; 1]%Z] Hshape
                (get_advantages_and_returns_returns args [[1; 2; 3]] [[1; 1; 1]]
                   [[0; 1; 1; 1]%Z] Hshape Hsteps)) as Hrun.
  eexists _, _. split; [exact Hrun |].
  exact (proj1 (advantages_and_returns_shape args _ _ _ _ _ Hshape Hrun)).
Defined.

Lemma gae_row_short_values (args : Args) (values rewards : list R) :
  (length values < length rewards)%nat -> gae_row args values rewards = None.
Proof.
  intros Hlen. unfold gae_row.
  destruct (length rewards) as [| n] eqn:Hn; [lia |].
  rewrite seq_S, reverse_app. simpl.
  unfold gae_step.
  destruct (decide (n < S n - 1)%nat); [lia |]. simpl.
  destruct (rewards !! n); [| reflexivity]. simpl.
  rewrite (lookup_ge_None_2 values n) by lia. reflexivity.
Qed.

(** X10. If some row of the values is shorter than the corresponding row of
    the rewards, [get_advantages_and_returns] raises: the first iteration of
    the backward loop indexes a column of values that does not exist. *)
Theorem get_advantages_and_returns_short_values
    (args : Args) (values rewards : list (list R)) (responses_mask : list (list Z))
    (i : nat) (values_i rewards_i : list R) :
  values !! i = Some values_i -> rewards !! i = Some rewards_i ->
  (length values_i < length rewards_i)%nat ->
  get_advantages_and_returns args values rewards responses_mask = None.
Proof.
  intros Hv Hr Hlen. unfold get_advantages_and_returns.
  replace (gae_batch args values rewards) with (@None (list (list R)));
    [reflexivity |].
  symmetry. unfold gae_batch.
  destruct (decide (length values = length rewards)); [| reflexivity].
  apply mapM_None_2, Exists_exists.
  exists (values_i, rewards_i). split.
  - apply list_elem_of_lookup. exists i.
    rewrite lookup_zip_with, Hv. simpl. rewrite Hr. reflexivity.
  - simpl. now apply gae_row_short_values.
Qed.

Lemma get_advantages_and_returns_short_values_witness :
  [[1; 2]] !! 0%nat = Some [1; 2] /\ [[1; 1; 1]] !! 0%nat = Some [1; 1; 1] /\
  (length [1; 2]%R < length [1; 1; 1]%R)%nat /\
  get_advantages_and_returns
    (Build_Args "identity" 0.1 None 1 1 false 0.2 2 1 None)
    [[1; 2]] [[1; 1; 1]] [[0; 1; 1; 1]%Z] = None.
Proof.
  assert (Hlen : (length [1; 2]%R < length [1; 1; 1]%R)%nat) by (simpl; lia).
  split; [reflexivity |]. split; [reflexivity |]. split; [exact Hlen |].
  exact (get_advantages_and_returns_short_values
           (Build_Args "identity" 0.1 None 1 1 false 0.2 2 1 None)
           [[1; 2]] [[1; 1; 1]] [[0; 1; 1; 1]%Z] 0 [1; 2] [1; 1; 1]
           eq_refl eq_refl Hlen).
Defined.

(** X11. Degenerate discounts. With [gamma = 0] the un-normalised advantage
    at a position is [reward_t - value_t] and the return is the reward
    itself; with [lam = 0] the advantage is the one-step temporal-difference
    error [reward_t + gamma * value_{t+1} - value_t]. *)
Theorem gae_degenerate_discounts
    (args : Args) (values rewards : list (list R)) (responses_mask : list (list Z))
    (advantages returns : list (list R))
    (i t : nat) (values_i rewards_i : list R) (r_t v_t a q : R) :
  Forall2 (fun v r => length v = length r) values rewards ->
  use_advantage_norm args = false ->
  get_advantages_and_returns args values rewards responses_mask
  = Some (advantages, returns) ->
  values !! i = Some values_i -> rewards !! i = Some rewards_i ->
  rewards_i !! t = Some r_t -> values_i !! t = Some v_t ->
  entry advantages i t = Some a -> entry returns i t = Some q ->
  (gamma args = 0 -> a = r_t - v_t /\ q = r_t) /\
  (lam args = 0 -> a = r_t + gamma args * default 0 (values_i !! S t) - v_t).
Proof.
  intros Hshape Hnorm Hrun Hv Hr Hrt Hvt Ha Hq.
  rewrite (get_advantages_and_returns_unfold _ _ _ _ Hshape (mk_is_Some _ _ Hrun))
    in Hrun.
  rewrite Hnorm in Hrun. injection Hrun as <- <-.
  pose proof (gae_spec_lookup args values_i rewards_i t r_t v_t Hrt Hvt) as Hg.
  unfold entry in Ha, Hq.
  rewrite (returns_row args values rewards i _ _ Hv Hr) in Hq. simpl in Hq.
  rewrite lookup_zip_with, Hg in Hq. simpl in Hq. rewrite Hvt in Hq.
  simpl in Hq. injection Hq as <-.
  rewrite lookup_zip_with, Hv in Ha. simpl in Ha. rewrite Hr in Ha. simpl in Ha.
  rewrite Hg in Ha. injection Ha as <-.
  split.
  - intros Hgamma. rewrite Hgamma. split; ring.
  - intros Hlam. rewrite Hlam. ring.
Qed.

Lemma gae_degenerate_discounts_witness :
  Forall2 (fun v r : list R => length v = length r) [[1; 2; 3]] [[4; 5; 6]] /\
  exists advantages returns a q,
    get_advantages_and_returns
      (Build_Args "identity" 0.1 None 0 1 false 0.2 2 1 None)
      [[1; 2; 3]] [[4; 5; 6]] [[0; 1; 1; 1]%Z]
    = Some (advantages, returns) /\
    entry advantages 0 1 = Some a /\ entry returns 0 1 = Some q /\
    a = 5 - 2 /\ q = 5.
Proof.
  pose (args := Build_Args "identity" 0.1 None 0 1 false 0.2 2 1 None).
  assert (Hshape : Forall2 (fun v r : list R => length v = length r)
                           [[1; 2; 3]] [[4; 5; 6]])
    by (repeat constructor).
  split; [exact Hshape |].
  assert (Hsteps : Forall (fun r : list R => r <> []) [[4; 5; 6]])
    by (repeat constructor; discriminate).
  pose proof (get_advantages_and_returns_unfold args [[1; 2; 3]] [[4; 5; 6]]
                [[0; 1; 1; 1]%Z] Hshape
                (get_advantages_and_returns_returns args [[1; 2; 3]] [[4; 5; 6]]
                   [[0; 1; 1; 1]%Z] Hshape Hsteps)) as Hrun.
  eexists _, _, _, _. split; [exact Hrun |].
  split; [reflexivity |]. split; [reflexivity |].
  exact (proj1 (gae_degenerate_discounts args [[1; 2; 3]] [[4; 5; 6]]
                  [[0; 1; 1; 1]%Z] _ _ 0 1 [1; 2; 3] [4; 5; 6] 5 2 _ _
                  Hshape eq_refl Hrun eq_refl eq_refl eq_refl eq_refl
                  eq_refl eq_refl) eq_refl).
Defined.

End ReturnsFacts.

(** ** Masked statistics *)

Section MaskedStatsFacts.
Import FloatTensor Whiten.
Local Open Scope R_scope.
Local Arguments row_sum : simpl never.
Local Arguments tensor_sum : simpl never.
Local Arguments mask_sum : simpl never.

Lemma row_sum_mask_split (row : list R) (mrow : list Z) :
  length row = length mrow ->
  row_sum row
  = row_sum (zip_with (fun d m => d * IZR m) row mrow)
    + row_sum (zip_with (fun d m => d * IZR m) row ((fun m => (1 - m)%Z) <$> mrow)).
Proof.
  revert mrow. induction row as [| d row IH]; intros [| m mrow] Hlen;
    simpl in Hlen; try lia.
  - unfold row_sum. simpl. lra.
  - cbn [fmap list_fmap zip_with]. rewrite !row_sum_cons, (IH mrow) by lia.
    rewrite minus_IZR. unfold fmap. ring.
Qed.

Lemma tensor_sum_mask_split (data : list (list R)) (mask : list (list Z)) :
  Forall2 (fun row mrow => length row = length mrow) data mask ->
  tensor_sum data
  = tensor_sum (mul_mask data mask)
    + tensor_sum (mul_mask data (map2d (fun m => (1 - m)%Z) mask)).
Proof.
  induction 1 as [| row mrow data mask Hlen _ IH].
  - unfold tensor_sum, row_sum. simpl. lra.
  - unfold mul_mask, zip2d, map2d in *. cbn [fmap list_fmap zip_with].
    rewrite !tensor_sum_cons, IH, (row_sum_mask_split row mrow Hlen).
    unfold fmap. ring.
Qed.

(** X12. The mean that [masked_whiten] subtracts is not the masked mean: it
    exceeds the mean of the data over the valid positions by the sum of the
    data at the masked-out positions divided by the number of valid
    positions, because its numerator is [data.sum()] over all positions. *)
Theorem whiten_mean_counts_masked_out (data : list (list R)) (mask : list (list Z)) :
  Forall2 (fun row mrow => length row = length mrow) data mask ->
  mask_sum mask <> 0 ->
  whiten_mean data mask
  = exact_masked_mean data mask
    + tensor_sum (mul_mask data (map2d (fun m => (1 - m)%Z) mask)) / mask_sum mask.
Proof.
  intros Hshape Hmask. unfold whiten_mean, exact_masked_mean.
  rewrite (tensor_sum_mask_split data mask Hshape). field. exact Hmask.
Qed.

Lemma whiten_mean_counts_masked_out_witness :
  Forall2 (fun (row : list R) (mrow : list Z) => length row = length mrow)
          [[4; 1; 3]] [[0; 1; 1]%Z] /\
  mask_sum [[0; 1; 1]%Z] <> 0 /\
  whiten_mean [[4; 1; 3]] [[0; 1; 1]%Z]
  = exact_masked_mean [[4; 1; 3]] [[0; 1; 1]%Z]
    + tensor_sum (mul_mask [[4; 1; 3]] (map2d (fun m => (1 - m)%Z) [[0; 1; 1]%Z]))
      / mask_sum [[0; 1; 1]%Z].
Proof.
  assert (H1 : Forall2 (fun (row : list R) (mrow : list Z) => length row = length mrow)
                       [[4; 1; 3]] [[0; 1; 1]%Z]) by (repeat constructor).
  assert (H2 : mask_sum [[0; 1; 1]%Z] <> 0)
    by (unfold mask_sum, tensor_sum, row_sum; simpl; lra).
  split; [exact H1 |]. split; [exact H2 |].
  exact (whiten_mean_counts_masked_out _ _ H1 H2).
Defined.

Lemma mul_mask_agree (h : R -> R) (data1 data2 : list (list R)) (mask : list (list Z)) :
  length data1 = length data2 ->
  (forall i r1 r2, data1 !! i = Some r1 -> data2 !! i = Some r2 ->
                   length r1 = length r2) ->
  (forall i t d1 d2 m,
      entry data1 i t = Some d1 -> entry data2 i t = Some d2 ->
      entry mask i t = Some m -> m <> 0%Z -> d1 = d2) ->
  mul_mask (map2d h data1) mask = mul_mask (map2d h data2) mask.
Proof.
  intros Hlen Hrows Hagree. apply list_eq. intros i.
  unfold mul_mask, zip2d, map2d. rewrite !lookup_zip_with, !list_lookup_fmap.
  destruct (data1 !! i) as [r1 |] eqn:H1; destruct (data2 !! i) as [r2 |] eqn:H2;
    try reflexivity.
  2: { apply lookup_lt_Some in H1. apply lookup_ge_None_1 in H2. lia. }
  2: { apply lookup_lt_Some in H2. apply lookup_ge_None_1 in H1. lia. }
  simpl. destruct (mask !! i) as [mrow |] eqn:Hm; [| reflexivity].
  simpl. f_equal. apply list_eq. intros t.
  rewrite !lookup_zip_with, !list_lookup_fmap.
  pose proof (Hrows i r1 r2 H1 H2) as Hl.
  destruct (r1 !! t) as [d1 |] eqn:Hd1; destruct (r2 !! t) as [d2 |] eqn:Hd2;
    try reflexivity.
  2: { apply lookup_lt_Some in Hd1. apply lookup_ge_None_1 in Hd2. lia. }
  2: { apply lookup_lt_Some in Hd2. apply lookup_ge_None_1 in Hd1. lia. }
  simpl. destruct (mrow !! t) as [m |] eqn:Hmt; [| reflexivity].
  simpl. f_equal.
  destruct (decide (m = 0%Z)) as [-> | Hnz]; [simpl; ring |].
  rewrite (Hagree i t d1 d2 m); try assumption; try reflexivity.
  - unfold entry. rewrite H1. exact Hd1.
  - unfold entry. rewrite H2. exact Hd2.
  - unfold entry. rewrite Hm. exact Hmt.
Qed.

Lemma map2d_id {A} (x : list (list A)) : map2d (fun a => a) x = x.
Proof.
  unfold map2d. induction x as [| row x IH]; [reflexivity |].
  cbn [fmap list_fmap]. f_equal; [apply list_fmap_id | exact IH].
Qed.

(** X13. [masked_mean] and [masked_var] depend on the data only at the
    positions where the mask is nonzero: two data tensors of one shape that
    agree wherever the mask is nonzero have the same masked mean and the
    same masked variance. *)
Theorem masked_mean_ignores_masked_out
    (data1 data2 : list (list R)) (mask : list (list Z)) :
  length data1 = length data2 ->
  (forall i r1 r2, data1 !! i = Some r1 -> data2 !! i = Some r2 ->
                   length r1 = length r2) ->
  (forall i t d1 d2 m,
      entry data1 i t = Some d1 -> entry data2 i t = Some d2 ->
      entry mask i t = Some m -> m <> 0%Z -> d1 = d2) ->
  masked_mean data1 mask = masked_mean data2 mask /\
  masked_var data1 mask = masked_var data2 mask.
Proof.
  intros Hlen Hrows Hagree.
  assert (Hmean : masked_mean data1 mask = masked_mean data2 mask).
  { unfold masked_mean.
    rewrite <- (map2d_id data1), <- (map2d_id data2).
    rewrite (mul_mask_agree (fun a => a) data1 data2 mask) by assumption.
    reflexivity. }
  split; [exact Hmean |].
  unfold masked_var. rewrite Hmean. unfold masked_mean.
  rewrite !map2d_compose.
  rewrite (mul_mask_agree _ data1 data2 mask) by assumption.
  reflexivity.
Qed.

Lemma masked_mean_ignores_masked_out_witness :
  length [[7; 1; 3]] = length [[9; 1; 3]] /\
  masked_mean [[7; 1; 3]] [[0; 1; 1]%Z] = masked_mean [[9; 1; 3]] [[0; 1; 1]%Z].
Proof.
  split; [reflexivity |].
  refine (proj1 (masked_mean_ignores_masked_out [[7; 1; 3]] [[9; 1; 3]]
                   [[0; 1; 1]%Z] eq_refl _ _)).
  - intros [| i] r1 r2 H1 H2; [| destruct i; discriminate].
    injection H1 as <-. injection H2 as <-. reflexivity.
  - intros [| i] t d1 d2 m H1 H2 Hm Hnz; [| destruct i; discriminate].
    destruct t as [| [| [| t]]]; cbn in H1, H2, Hm; try discriminate.
    + injection Hm as <-. contradiction.
    + injection H1 as <-. injection H2 as <-. reflexivity.
    + injection H1 as <-. injection H2 as <-. reflexivity.
Defined.

Lemma tensor_sum_all_masked (x : list (list R)) (mask : list (list Z)) :
  Forall (Forall (fun m => m = 0%Z)) mask -> tensor_sum (mul_mask x mask) = 0.
Proof.
  intros Hmask. revert x.
  induction Hmask as [| mrow mask Hrow _ IH]; intros [| row x];
    try (unfold tensor_sum, row_sum; simpl; lra).
  unfold mul_mask, zip2d in *. cbn [zip_with]. rewrite tensor_sum_cons, IH.
  clear IH. revert row.
  induction Hrow as [| m mrow Hm _ IHrow]; intros [| d row];
    try (unfold row_sum; simpl; lra).
  cbn [zip_with]. rewrite row_sum_cons. specialize (IHrow row).
  subst m. simpl. lra.
Qed.

(** X14. With a mask that is zero everywhere, [masked_mean] and
    [masked_var] are 0: the [eps] added to the denominator keeps the
    division defined when there is no valid position. *)
Theorem masked_mean_all_masked (data : list (list R)) (mask : list (list Z)) :
  Forall (Forall (fun m => m = 0%Z)) mask ->
  masked_mean data mask = 0 /\ masked_var data mask = 0.
Proof.
  intros Hmask. unfold masked_var, masked_mean.
  rewrite !tensor_sum_all_masked by assumption.
  unfold Rdiv. split; ring.
Qed.

Lemma masked_mean_all_masked_witness :
  Forall (Forall (fun m => m = 0%Z)) [[0; 0]%Z] /\
  masked_mean [[5; 7]] [[0; 0]%Z] = 0.
Proof.
  assert (H : Forall (Forall (fun m => m = 0%Z)) [[0; 0]%Z])
    by (repeat constructor).
  split; [exact H |]. exact (proj1 (masked_mean_all_masked [[5; 7]] _ H)).
Defined.

Lemma mask_sum_nonneg (mask : list (list Z)) :
  Forall (Forall (fun m => m = 0%Z \/ m = 1%Z)) mask -> 0 <= mask_sum mask.
Proof.
  unfold mask_sum, map2d.
  induction 1 as [| mrow mask Hrow _ IH]; [unfold tensor_sum, row_sum; simpl; lra |].
  cbn [fmap list_fmap]. rewrite tensor_sum_cons.
  assert (0 <= row_sum (IZR <$> mrow)); [| unfold fmap in *; lra].
  clear IH. induction Hrow as [| m mrow Hm _ IHrow];
    [unfold row_sum; simpl; lra |].
  cbn [fmap list_fmap]. rewrite row_sum_cons. unfold fmap in *.
  destruct Hm as [-> | ->]; lra.
Qed.

(** X15. For a 0/1 mask, [masked_var] is never negative, whatever the data
    and whether or not any position is valid. *)
Theorem masked_var_nonneg (data : list (list R)) (mask : list (list Z)) :
  Forall (Forall (fun m => m = 0%Z \/ m = 1%Z)) mask ->
  0 <= masked_var data mask.
Proof.
  intros H01. pose proof (mask_sum_nonneg mask H01) as Hsum.
  unfold masked_var. set (mean := masked_mean data mask).
  unfold masked_mean. rewrite map2d_compose.
  apply Rmult_le_pos.
  - apply (tensor_sum_masked_squares_nonneg mean data mask H01).
  - apply Rlt_le, Rinv_0_lt_compat. lra.
Qed.

Lemma masked_var_nonneg_witness :
  Forall (Forall (fun m => m = 0%Z \/ m = 1%Z)) [[0; 1; 1]%Z] /\
  0 <= masked_var [[7; 1; 3]] [[0; 1; 1]%Z].
Proof.
  assert (H : Forall (Forall (fun m => m = 0%Z \/ m = 1%Z)) [[0; 1; 1]%Z])
    by (repeat constructor; auto).
  split; [exact H |]. exact (masked_var_nonneg [[7; 1; 3]] _ H).
Defined.

End MaskedStatsFacts.

(** ** Losses *)

Section LossFacts.
Import FloatTensor Whiten ActorLoss CriticLoss.
Local Open Scope R_scope.

Lemma map2d_entry_inv {A B} (f : A -> B) (x : list (list A)) (i t : nat) (b : B) :
  entry (map2d f x) i t = Some b ->
  exists a, entry x i t = Some a /\ b = f a.
Proof.
  unfold entry, map2d. rewrite list_lookup_fmap.
  destruct (x !! i) as [row |]; [| discriminate]. simpl.
  rewrite list_lookup_fmap.
  destruct (row !! t) as [a |]; [| discriminate]. simpl.
  intros [= <-]. exists a. split; reflexivity.
Qed.

Lemma clamp_inside (x lo hi : R) : lo <= x <= hi -> clamp x lo hi = x.
Proof.
  intros Hx. unfold clamp, Rmin, Rmax.
  destruct (Rle_dec x lo); destruct (Rle_dec _ hi); lra.
Qed.

Lemma error_terms_entry (value_clip : R)
    (critic_values mini_batch_critic_values returns : list (list R))
    (i t : nat) (old new ret term : R) :
  entry critic_values i t = Some old ->
  entry mini_batch_critic_values i t = Some new ->
  entry returns i t = Some ret ->
  entry (error_terms value_clip critic_values mini_batch_critic_values returns) i t
  = Some term ->
  term = Rmax ((new - ret) ^ 2)
              ((clamp new (old - value_clip) (old + value_clip) - ret) ^ 2).
Proof.
  intros Hold Hnew Hret Hterm. unfold error_terms, squared_error in Hterm.
  apply zip2d_entry_inv in Hterm as (e1 & e2 & H1 & H2 & ->).
  apply zip2d_entry_inv in H1 as (n1 & r1 & Hn1 & Hr1 & ->).
  apply zip2d_entry_inv in H2 as (c2 & r2 & Hc2 & Hr2 & ->).
  unfold critic_values_clip in Hc2.
  apply zip2d_entry_inv in Hc2 as (n2 & o2 & Hn2 & Ho2 & ->).
  congruence.
Qed.

(** X16. Each term of the clipped value loss,
    [max((new - ret)^2, (clamp(new, old - c, old + c) - ret)^2)], is at
    least the unclipped squared error and never negative, and it is the
    unclipped squared error whenever the new value is within [c] of the old
    one; the second result of [critic_loss] is the unclipped error. *)
Theorem critic_loss_terms
    (value_clip : R)
    (critic_values mini_batch_critic_values returns : list (list R))
    (mask : list (list Z)) (i t : nat) (old new ret term : R) :
  entry critic_values i t = Some old ->
  entry mini_batch_critic_values i t = Some new ->
  entry returns i t = Some ret ->
  entry (error_terms value_clip critic_values mini_batch_critic_values returns) i t
  = Some term ->
  (new - ret) ^ 2 <= term /\ 0 <= term /\
  (Rabs (new - old) <= value_clip -> term = (new - ret) ^ 2) /\
  entry (critic_loss value_clip critic_values mini_batch_critic_values returns mask).2
        i t = Some ((new - ret) ^ 2).
Proof.
  intros Hold Hnew Hret Hterm.
  pose proof (error_terms_entry _ _ _ _ i t old new ret term Hold Hnew Hret Hterm)
    as Heq.
  pose proof (pow2_ge_0 (new - ret)) as Hsq.
  split; [rewrite Heq; apply Rmax_l |].
  split; [rewrite Heq; eapply Rle_trans; [exact Hsq | apply Rmax_l] |].
  split.
  - intros Hclose. rewrite Heq.
    assert (Hin : old - value_clip <= new <= old + value_clip).
    { unfold Rabs in Hclose. destruct (Rcase_abs (new - old)); lra. }
    rewrite clamp_inside by exact Hin. apply Rmax_left. lra.
  - unfold critic_loss, squared_error. cbn [snd].
    apply (zip2d_entry (fun v r => (v - r) ^ 2) _ _ i t new ret Hnew Hret).
Qed.

Lemma critic_loss_terms_witness :
  entry [[1]] 0 0 = Some 1 /\ entry [[1.1]] 0 0 = Some 1.1 /\
  entry [[3]] 0 0 = Some 3 /\
  entry (error_terms 0.2 [[1]] [[1.1]] [[3]]) 0 0
  = Some (Rmax ((1.1 - 3) ^ 2) ((clamp 1.1 (1 - 0.2) (1 + 0.2) - 3) ^ 2)) /\
  (1.1 - 3) ^ 2
  <= Rmax ((1.1 - 3) ^ 2) ((clamp 1.1 (1 - 0.2) (1 + 0.2) - 3) ^ 2).
Proof.
  repeat (split; [reflexivity |]).
  exact (proj1 (critic_loss_terms 0.2 [[1]] [[1.1]] [[3]] [[1%Z]] 0 0 1 1.1 3 _
                  eq_refl eq_refl eq_refl eq_refl)).
Defined.

Lemma ratio_entry_inv
    (actor_log_probs mini_batch_actor_log_probs : list (list R))
    (mask : list (list Z)) (i t : nat) (r : R) :
  entry (ratio_of actor_log_probs mini_batch_actor_log_probs mask) i t = Some r ->
  exists old new m,
    entry actor_log_probs i t = Some old /\
    entry mini_batch_actor_log_probs i t = Some new /\
    entry mask i t = Some m /\ r = exp ((new - old) * IZR m).
Proof.
  unfold ratio_of, mul_mask. intros Hr.
  apply map2d_entry_inv in Hr as (x & Hx & ->).
  apply zip2d_entry_inv in Hx as (d & m & Hd & Hm & ->).
  apply zip2d_entry_inv in Hd as (new & old & Hnew & Hold & ->).
  exists old, new, m. repeat split; assumption.
Qed.

(** X17. The importance ratio that [actor_loss] returns is positive at every
    position and equals 1 wherever the mask is zero; and wherever the ratio
    lies within [[1 - ratio_clip, 1 + ratio_clip]] the loss term is the
    unclipped surrogate [- advantage * ratio]. *)
Theorem actor_loss_ratio
    (args : Args)
    (actor_log_probs mini_batch_actor_log_probs advantages : list (list R))
    (mask : list (list Z)) (i t : nat) (r : R) :
  entry (actor_loss args actor_log_probs mini_batch_actor_log_probs advantages mask).2
        i t = Some r ->
  0 < r /\
  (entry mask i t = Some 0%Z -> r = 1) /\
  (forall a term,
      entry advantages i t = Some a ->
      entry (loss_terms args advantages
               (actor_loss args actor_log_probs mini_batch_actor_log_probs
                  advantages mask).2) i t = Some term ->
      1 - ratio_clip args <= r <= 1 + ratio_clip args ->
      term = - a * r).
Proof.
  intros Hr. cbn [actor_loss snd] in *.
  destruct (ratio_entry_inv _ _ _ _ _ _ Hr) as (old & new & m & Hold & Hnew & Hm & ->).
  split; [apply exp_pos |]. split.
  - intros Hzero. rewrite Hm in Hzero. injection Hzero as ->.
    rewrite Rmult_0_r. apply exp_0.
  - intros a term Ha Hterm Hin.
    rewrite (loss_terms_entry args _ _ i t a _ term Ha Hr Hterm).
    rewrite clamp_inside by lra. apply Rmax_left. lra.
Qed.

Lemma actor_loss_ratio_witness :
  entry (actor_loss (Build_Args "identity" 0.1 None 1 1 false 0.2 2 1 None)
                    [[0; 3]] [[1; 5]] [[2; 2]] [[1; 0]%Z]).2 0 1
  = Some (exp ((5 - 3) * 0)) /\
  0 < exp ((5 - 3) * 0) /\
  (entry [[1; 0]%Z] 0 1 = Some 0%Z -> exp ((5 - 3) * 0) = 1).
Proof.
  split; [reflexivity |].
  destruct (actor_loss_ratio (Build_Args "identity" 0.1 None 1 1 false 0.2 2 1 None)
              [[0; 3]] [[1; 5]] [[2; 2]] [[1; 0]%Z] 0 1 (exp ((5 - 3) * 0)) eq_refl)
    as (Hpos & Hone & _).
  split; [exact Hpos | exact Hone].
Defined.

(** X18. On-policy minibatch: when the recomputed log-probabilities equal
    the rollout's ([mini_batch_actor_log_probs] is [actor_log_probs]) and
    [ratio_clip] is not negative, every importance ratio is 1 and every loss
    term is minus the advantage at its position. *)
Theorem actor_loss_on_policy
    (args : Args) (actor_log_probs advantages : list (list R))
    (mask : list (list Z)) :
  0 <= ratio_clip args ->
  (forall i t r,
      entry (actor_loss args actor_log_probs actor_log_probs advantages mask).2 i t
      = Some r -> r = 1) /\
  (forall i t a term,
      entry advantages i t = Some a ->
      entry (loss_terms args advantages
               (actor_loss args actor_log_probs actor_log_probs advantages mask).2)
            i t = Some term ->
      term = - a).
Proof.
  intros Heps.
  assert (Hone : forall i t r,
             entry (ratio_of actor_log_probs actor_log_probs mask) i t = Some r ->
             r = 1).
  { intros i t r Hr.
    destruct (ratio_entry_inv _ _ _ _ _ _ Hr) as (old & new & m & Hold & Hnew & _ & ->).
    rewrite Hold in Hnew. injection Hnew as <-.
    replace ((old - old) * IZR m) with 0 by ring. apply exp_0. }
  split; [exact Hone |].
  intros i t a term Ha Hterm. cbn [actor_loss snd] in Hterm.
  pose proof Hterm as Hterm'. unfold loss_terms in Hterm'.
  apply zip2d_entry_inv in Hterm' as (l1 & l2 & H1 & _ & _).
  apply zip2d_entry_inv in H1 as (a1 & r & _ & Hr & _).
  rewrite (loss_terms_entry args _ _ i t a r term Ha Hr Hterm).
  rewrite (Hone i t r Hr), clamp_inside by lra.
  rewrite Rmax_left by lra. ring.
Qed.

Lemma actor_loss_on_policy_witness :
  0 <= ratio_clip (Build_Args "identity" 0.1 None 1 1 false 0.2 2 1 None) /\
  forall term,
    entry (loss_terms (Build_Args "identity" 0.1 None 1 1 false 0.2 2 1 None)
             [[2; 3]]
             (actor_loss (Build_Args "identity" 0.1 None 1 1 false 0.2 2 1 None)
                [[-1; -2]] [[-1; -2]] [[2; 3]] [[1; 1]%Z]).2) 0 1 = Some term ->
    term = - (3).
Proof.
  assert (Heps : 0 <= ratio_clip (Build_Args "identity" 0.1 None 1 1 false 0.2 2 1 None))
    by (simpl; lra).
  split; [exact Heps |].
  intros term Hterm.
  exact (proj2 (actor_loss_on_policy
                  (Build_Args "identity" 0.1 None 1 1 false 0.2 2 1 None)
                  [[-1; -2]] [[2; 3]] [[1; 1]%Z] Heps) 0%nat 1%nat 3 term
               eq_refl Hterm).
Defined.

End LossFacts.

(** ** Log-probabilities and entropy *)

Section LogProbsFacts.
Import FloatTensor Whiten LogProbs.
Local Open Scope R_scope.
Local Arguments row_sum : simpl never.
Local Arguments tensor_sum : simpl never.
Local Arguments mask_sum : simpl never.

Lemma sum_exp_cons (x : R) (logits : list R) :
  sum_exp (x :: logits) = exp x + sum_exp logits.
Proof. reflexivity. Qed.

Lemma sum_exp_nonneg (logits : list R) : 0 <= sum_exp logits.
Proof.
  induction logits as [| x logits IH]; [unfold sum_exp, row_sum; simpl; lra |].
  rewrite sum_exp_cons. pose proof (exp_pos x). lra.
Qed.

Lemma exp_le_sum_exp (logits : list R) :
  Forall (fun x => exp x <= sum_exp logits) logits.
Proof.
  induction logits as [| x logits IH]; [constructor |].
  rewrite sum_exp_cons. constructor.
  - pose proof (sum_exp_nonneg logits). lra.
  - eapply Forall_impl; [exact IH |]. intros y Hy. simpl in Hy.
    pose proof (exp_pos x). lra.
Qed.

Lemma sum_exp_pos (logits : list R) : logits <> [] -> 0 < sum_exp logits.
Proof.
  destruct logits as [| x logits]; [congruence |]. intros _.
  rewrite sum_exp_cons.
  pose proof (exp_pos x). pose proof (sum_exp_nonneg logits). lra.
Qed.

Lemma le_ln (x s : R) : 0 < s -> exp x <= s -> x <= ln s.
Proof.
  intros Hs Hx. apply Rnot_lt_le. intros Hlt.
  apply exp_increasing in Hlt. rewrite exp_ln in Hlt by exact Hs. lra.
Qed.

Lemma gather_row_lookup (log_probs : list (list R)) (labels : list Z)
    (out : list R) (t : nat) (y : R) :
  gather_row log_probs labels = Some out -> out !! t = Some y ->
  exists lp label,
    log_probs !! t = Some lp /\ labels !! t = Some label /\ gather lp label = Some y.
Proof.
  revert log_probs out t.
  induction labels as [| label labels IH]; intros log_probs out t Hrun Hy.
  - destruct log_probs; simpl in Hrun; injection Hrun as <-;
      rewrite lookup_nil in Hy; discriminate.
  - destruct log_probs as [| lp log_probs]; [discriminate |].
    simpl in Hrun.
    destruct (gather lp label) as [x |] eqn:Hx; [| discriminate]. simpl in Hrun.
    destruct (gather_row log_probs labels) as [rest |] eqn:Hrest; [| discriminate].
    simpl in Hrun. injection Hrun as <-.
    destruct t as [| t]; simpl in Hy.
    + injection Hy as <-. exists lp, label. repeat split. exact Hx.
    + destruct (IH log_probs rest t Hrest Hy) as (lp' & l' & H1 & H2 & H3).
      exists lp', l'. repeat split; assumption.
Qed.

Lemma gather_batch_lookup (log_probs : list (list (list R))) (labels : list (list Z))
    (out : list (list R)) (i : nat) (row_out : list R) :
  gather_batch log_probs labels = Some out -> out !! i = Some row_out ->
  exists row row_labels,
    log_probs !! i = Some row /\ labels !! i = Some row_labels /\
    gather_row row row_labels = Some row_out.
Proof.
  revert log_probs out i.
  induction labels as [| row_labels labels IH]; intros log_probs out i Hrun Hy.
  - destruct log_probs; simpl in Hrun; injection Hrun as <-;
      rewrite lookup_nil in Hy; discriminate.
  - destruct log_probs as [| row log_probs]; [discriminate |].
    simpl in Hrun.
    destruct (gather_row row row_labels) as [x |] eqn:Hx; [| discriminate].
    simpl in Hrun.
    destruct (gather_batch log_probs labels) as [rest |] eqn:Hrest; [| discriminate].
    simpl in Hrun. injection Hrun as <-.
    destruct i as [| i]; simpl in Hy.
    + injection Hy as <-. exists row, row_labels. repeat split. exact Hx.
    + destruct (IH log_probs rest i Hrest Hy) as (r' & l' & H1 & H2 & H3).
      exists r', l'. repeat split; assumption.
Qed.

Lemma get_log_probs_inv
    (logits : list (list (list R))) (labels : list (list Z))
    (out : list (list R)) (i t : nat) (lp : R) :
  get_log_probs logits labels = Some out ->
  entry out i t = Some lp ->
  exists position label x,
    entry logits i t = Some position /\ entry labels i t = Some label /\
    (0 <= label < Z.of_nat (length position))%Z /\
    position !! Z.to_nat label = Some x /\
    lp = x - ln (sum_exp position).
Proof.
  unfold get_log_probs, entry. intros Hrun Hlp.
  destruct (out !! i) as [row_out |] eqn:Hrow; [| discriminate]. simpl in Hlp.
  destruct (gather_batch_lookup _ _ _ _ _ Hrun Hrow) as (row & row_labels & H1 & H2 & H3).
  destruct (gather_row_lookup _ _ _ _ _ H3 Hlp) as (lps & label & H4 & H5 & H6).
  rewrite list_lookup_fmap in H1.
  destruct (logits !! i) as [positions |] eqn:Hpos; [| discriminate].
  simpl in H1. injection H1 as <-.
  rewrite list_lookup_fmap in H4.
  destruct (positions !! t) as [position |] eqn:Hp; [| discriminate].
  simpl in H4. injection H4 as <-.
  unfold gather in H6.
  destruct (Z.leb_spec 0 label) as [Hlabel |]; [| discriminate].
  unfold log_softmax in H6. rewrite list_lookup_fmap in H6.
  destruct (position !! Z.to_nat label) as [x |] eqn:Hx; [| discriminate].
  simpl in H6. injection H6 as <-.
  exists position, label, x. simpl.
  split; [exact Hp |]. split; [rewrite H2; exact H5 |].
  split; [apply lookup_lt_Some in Hx; lia |].
  split; [exact Hx | reflexivity].
Qed.

(** X19. Every log-probability that [get_log_probs] returns is the logit of
    the realised token minus the log of the sum of the exponentials of the
    logits at its position; it is never positive, and its exponential is the
    softmax probability of the token. *)
Theorem get_log_probs_entry
    (logits : list (list (list R))) (labels : list (list Z))
    (out : list (list R)) (i t : nat) (lp : R) :
  get_log_probs logits labels = Some out ->
  entry out i t = Some lp ->
  exists position label x,
    entry logits i t = Some position /\ entry labels i t = Some label /\
    position !! Z.to_nat label = Some x /\
    lp = x - ln (sum_exp position) /\
    lp <= 0 /\
    exp lp = exp x / sum_exp position.
Proof.
  intros Hrun Hlp.
  destruct (get_log_probs_inv _ _ _ _ _ _ Hrun Hlp)
    as (position & label & x & Hp & Hl & _ & Hx & ->).
  assert (Hs : 0 < sum_exp position).
  { apply sum_exp_pos. intros ->. rewrite lookup_nil in Hx. discriminate. }
  assert (Hle : exp x <= sum_exp position).
  { pose proof (exp_le_sum_exp position) as Hall.
    rewrite Forall_forall in Hall. apply Hall.
    apply list_elem_of_lookup. exists (Z.to_nat label). exact Hx. }
  exists position, label, x.
  split; [exact Hp |]. split; [exact Hl |]. split; [exact Hx |].
  split; [reflexivity |]. split.
  - pose proof (le_ln x (sum_exp position) Hs Hle). lra.
  - unfold Rminus. rewrite exp_plus, exp_Ropp, exp_ln by exact Hs. reflexivity.
Qed.

Lemma get_log_probs_entry_witness :
  get_log_probs [[[0; 0]; [1; 2]]] [[1; 0]%Z]
  = Some [[0 - ln (sum_exp [0; 0]); 1 - ln (sum_exp [1; 2])]] /\
  entry [[0 - ln (sum_exp [0; 0]); 1 - ln (sum_exp [1; 2])]] 0 1
  = Some (1 - ln (sum_exp [1; 2])) /\
  1 - ln (sum_exp [1; 2]) <= 0.
Proof.
  assert (Hrun : get_log_probs [[[0; 0]; [1; 2]]] [[1; 0]%Z]
                 = Some [[0 - ln (sum_exp [0; 0]); 1 - ln (sum_exp [1; 2])]])
    by reflexivity.
  split; [exact Hrun |]. split; [reflexivity |].
  destruct (get_log_probs_entry _ _ _ 0 1 _ Hrun eq_refl)
    as (position & label & x & _ & _ & _ & _ & Hle & _).
  exact Hle.
Defined.

Lemma gather_row_length (log_probs : list (list R)) (labels : list Z) (out : list R) :
  gather_row log_probs labels = Some out -> length out = length labels.
Proof.
  revert log_probs out.
  induction labels as [| label labels IH]; intros log_probs out Hrun.
  - destruct log_probs; simpl in Hrun; injection Hrun as <-; reflexivity.
  - destruct log_probs as [| lp log_probs]; [discriminate |]. simpl in Hrun.
    destruct (gather lp label) as [x |]; [| discriminate]. simpl in Hrun.
    destruct (gather_row log_probs labels) as [rest |] eqn:Hrest; [| discriminate].
    simpl in Hrun. injection Hrun as <-. simpl. f_equal. apply (IH _ _ Hrest).
Qed.

Lemma get_log_probs_defined
    (logits : list (list (list R))) (labels : list (list Z))
    (out : list (list R)) (i t : nat) (label : Z) :
  get_log_probs logits labels = Some out ->
  entry labels i t = Some label ->
  is_Some (entry out i t).
Proof.
  unfold get_log_probs. generalize ((fun row : list (list R) => log_softmax <$> row) <$> logits).
  intros log_probs. revert log_probs out i.
  induction labels as [| row_labels labels IH]; intros log_probs out i Hrun Hl.
  - unfold entry in Hl. rewrite lookup_nil in Hl. discriminate.
  - destruct log_probs as [| row log_probs]; [discriminate |]. simpl in Hrun.
    destruct (gather_row row row_labels) as [x |] eqn:Hx; [| discriminate].
    simpl in Hrun.
    destruct (gather_batch log_probs labels) as [rest |] eqn:Hrest; [| discriminate].
    simpl in Hrun. injection Hrun as <-.
    destruct i as [| i].
    + unfold entry in *. simpl in *. apply lookup_lt_is_Some_2.
      rewrite (gather_row_length _ _ _ Hx). apply lookup_lt_Some in Hl. exact Hl.
    + apply (IH log_probs rest i Hrest Hl).
Qed.

(** X20. [get_log_probs] returns a tensor of the shape of the labels only if
    every label is a valid vocabulary index: if some label is negative or
    not below the number of logits at its position, or if there are no
    logits at its position, the call raises. *)
Theorem get_log_probs_bad_label
    (logits : list (list (list R))) (labels : list (list Z))
    (i t : nat) (label : Z) :
  entry labels i t = Some label ->
  (forall position, entry logits i t = Some position ->
                    (label < 0 \/ Z.of_nat (length position) <= label)%Z) ->
  get_log_probs logits labels = None.
Proof.
  intros Hl Hbad.
  destruct (get_log_probs logits labels) as [out |] eqn:Hrun; [| reflexivity].
  destruct (get_log_probs_defined _ _ _ _ _ _ Hrun Hl) as [lp Hlp].
  destruct (get_log_probs_inv _ _ _ _ _ _ Hrun Hlp)
    as (position & label' & x & Hp & Hl' & Hrange & _).
  rewrite Hl in Hl'. injection Hl' as <-.
  specialize (Hbad position Hp). lia.
Qed.

Lemma get_log_probs_bad_label_witness :
  entry [[1; 2]%Z] 0 1 = Some 2%Z /\
  (forall position, entry [[[0; 0]; [1; 2]]] 0 1 = Some position ->
                    (2 < 0 \/ Z.of_nat (length position) <= 2)%Z) /\
  get_log_probs [[[0; 0]; [1; 2]]] [[1; 2]%Z] = None.
Proof.
  assert (Hbad : forall position, entry [[[0; 0]; [1; 2]]] 0 1 = Some position ->
                   (2 < 0 \/ Z.of_nat (length position) <= 2)%Z).
  { intros position [= <-]. right. simpl. lia. }
  split; [reflexivity |]. split; [exact Hbad |].
  exact (get_log_probs_bad_label [[[0; 0]; [1; 2]]] [[1; 2]%Z] 0 1 2 eq_refl Hbad).
Defined.

Lemma row_sum_softmax_terms (s : R) (logits : list R) :
  0 < s -> Forall (fun x => exp x <= s) logits ->
  row_sum (zip_with Rmult ((fun x => exp x / s) <$> logits)
                          ((fun x => x - ln s) <$> logits)) <= 0.
Proof.
  intros Hs. induction 1 as [| x logits Hx _ IH];
    [unfold row_sum; simpl; lra |].
  cbn [fmap list_fmap zip_with]. rewrite row_sum_cons. unfold fmap in IH.
  pose proof (le_ln x s Hs Hx) as Hln.
  assert (Hp : 0 < exp x / s)
    by (apply Rdiv_lt_0_compat; [apply exp_pos | exact Hs]).
  assert (exp x / s * (x - ln s) <= 0) by nra.
  unfold fmap. lra.
Qed.

Lemma position_entropy_nonneg (logits : list R) : 0 <= position_entropy logits.
Proof.
  unfold position_entropy, softmax, log_softmax.
  destruct logits as [| x logits]; [unfold row_sum; simpl; lra |].
  assert (Hne : x :: logits <> []) by discriminate.
  pose proof (row_sum_softmax_terms (sum_exp (x :: logits)) (x :: logits)
                (sum_exp_pos _ Hne) (exp_le_sum_exp _)).
  lra.
Qed.

Lemma row_sum_softmax (s : R) (logits : list R) :
  s <> 0 -> row_sum ((fun x => exp x / s) <$> logits) = sum_exp logits / s.
Proof.
  intros Hs. induction logits as [| x logits IH].
  - unfold sum_exp, row_sum. simpl. unfold Rdiv. ring.
  - cbn [fmap list_fmap]. rewrite row_sum_cons, sum_exp_cons.
    unfold fmap in *. rewrite IH. field. exact Hs.
Qed.

Lemma tensor_sum_masked_nonneg (data : list (list R)) (mask : list (list Z)) :
  Forall (Forall (fun d => 0 <= d)) data ->
  Forall (Forall (fun m => m = 0%Z \/ m = 1%Z)) mask ->
  0 <= tensor_sum (mul_mask data mask).
Proof.
  intros Hdata. revert mask.
  induction Hdata as [| row data Hrow _ IH]; intros mask Hmask;
    [unfold tensor_sum, row_sum; simpl; lra |].
  destruct Hmask as [| mrow mask Hmrow Hmask];
    [unfold tensor_sum, row_sum; simpl; lra |].
  unfold mul_mask, zip2d in *. cbn [zip_with]. rewrite tensor_sum_cons.
  specialize (IH mask Hmask).
  assert (0 <= row_sum (zip_with (fun d m => d * IZR m) row mrow)); [| lra].
  clear IH. revert mrow Hmrow.
  induction Hrow as [| d row Hd _ IHrow]; intros mrow Hmrow;
    [unfold row_sum; simpl; lra |].
  destruct Hmrow as [| m mrow Hm Hmrow]; [unfold row_sum; simpl; lra |].
  cbn [zip_with]. rewrite row_sum_cons. specialize (IHrow mrow Hmrow).
  destruct Hm as [-> | ->]; simpl; nra.
Qed.

(** X21. The softmax probabilities at a position with at least one logit
    sum to 1; the entropy [-sum(p * log p)] at a position is never negative;
    and for a 0/1 mask the value of [get_entropy] is never negative. *)
Theorem get_entropy_nonneg
    (logits : list (list (list R))) (mask : list (list Z)) :
  Forall (Forall (fun m => m = 0%Z \/ m = 1%Z)) mask ->
  (forall position, position <> [] -> row_sum (softmax position) = 1) /\
  (forall position, 0 <= position_entropy position) /\
  0 <= get_entropy logits mask.
Proof.
  intros H01. split; [| split].
  - intros position Hne. unfold softmax.
    pose proof (sum_exp_pos position Hne) as Hs.
    rewrite row_sum_softmax by lra. field. lra.
  - apply position_entropy_nonneg.
  - unfold get_entropy, masked_mean. apply Rmult_le_pos.
    + apply tensor_sum_masked_nonneg; [| exact H01].
      unfold map2d. apply Forall_fmap, Forall_forall. intros row _. simpl.
      apply Forall_fmap, Forall_forall. intros position _. simpl.
      apply position_entropy_nonneg.
    + apply Rlt_le, Rinv_0_lt_compat.
      pose proof (mask_sum_nonneg mask H01). lra.
Qed.

Lemma get_entropy_nonneg_witness :
  Forall (Forall (fun m => m = 0%Z \/ m = 1%Z)) [[1; 0]%Z] /\
  0 <= get_entropy [[[0; 0]; [1; 2]]] [[1; 0]%Z].
Proof.
  assert (H : Forall (Forall (fun m => m = 0%Z \/ m = 1%Z)) [[1; 0]%Z])
    by (repeat constructor; auto).
  split; [exact H |].
  exact (proj2 (proj2 (get_entropy_nonneg [[[0; 0]; [1; 2]]] _ H))).
Defined.

End LogProbsFacts.

(** ** Flattening the replay buffer: nothing lost, and when it fails *)

Section FlattenFacts.
Import MiniDataset.
Context {A : Type}.

Lemma concat_slices (size n : nat) (v : list A) :
  concat ((fun j => slice (j * size) size v) <$> seq 0 n) = take (n * size) v.
Proof.
  induction n as [| n IH]; [reflexivity |].
  rewrite seq_S, fmap_app, concat_app, IH. simpl.
  rewrite app_nil_r. unfold slice. rewrite take_take_drop.
  f_equal. lia.
Qed.

Lemma field_of_mini_batch (size index : nat) (it : item A) (k : string) :
  default [] (mini_batch size index it !! k)
  = slice index size (default [] (fields it !! k)).
Proof.
  rewrite mini_batch_lookup. destruct (fields it !! k) as [v |]; [reflexivity |].
  simpl. unfold slice. rewrite drop_nil, take_nil. reflexivity.
Qed.

Lemma field_of_item_minis (batch_size size : nat) (it : item A) (k : string) :
  concat ((fun mb : gmap string (list A) => default [] (mb !! k))
            <$> minis_of_item batch_size size it)
  = take (div_ceil batch_size size * size) (default [] (fields it !! k)).
Proof.
  unfold minis_of_item. rewrite <- list_fmap_compose.
  rewrite <- concat_slices. f_equal. apply list_fmap_ext.
  intros _ j _. simpl. apply field_of_mini_batch.
Qed.

Lemma div_ceil_covers (n d : nat) : 0 < d -> n <= div_ceil n d * d.
Proof.
  intros Hd. unfold div_ceil.
  pose proof (Nat.div_mod_eq (n + d - 1) d) as Hdm.
  pose proof (Nat.mod_upper_bound (n + d - 1) d) as Hmod. nia.
Qed.

Lemma length_minis_of_item (batch_size size : nat) (it : item A) :
  length (minis_of_item batch_size size it) = div_ceil batch_size size.
Proof. unfold minis_of_item. rewrite length_fmap, length_seq. reflexivity. Qed.

(** X22. Flattening loses and duplicates nothing: for a positive minibatch
    size, reading a field off the minibatches that [get_mini_dataset]
    returns, in order, and concatenating gives, record after record, the
    field of the record (cut after the last slice, which lies at or beyond
    the batch size); so a field with at most [batch_size] examples in every
    record comes back whole. *)
Theorem get_mini_dataset_round_trip
    (fuel : nat) (args : Args) (first : item A) (rest : list (item A))
    (sequences_ids : list A) (k : string) :
  0 < per_device_mini_train_batch_size args ->
  exp first !! "sequences_ids"%string = Some sequences_ids ->
  length sequences_ids <= fuel ->
  exists minis,
    get_mini_dataset fuel args (first :: rest) = Returns minis /\
    concat ((fun mb : gmap string (list A) => default [] (mb !! k)) <$> minis)
    = concat ((fun it =>
                 take (div_ceil (length sequences_ids)
                         (per_device_mini_train_batch_size args)
                       * per_device_mini_train_batch_size args)
                      (default [] (fields it !! k)))
                <$> (first :: rest)) /\
    (Forall (fun it => length (default [] (fields it !! k)) <= length sequences_ids)
            (first :: rest) ->
     concat ((fun mb : gmap string (list A) => default [] (mb !! k)) <$> minis)
     = concat ((fun it => default [] (fields it !! k)) <$> (first :: rest))).
Proof.
  set (size := per_device_mini_train_batch_size args).
  set (batch_size := length sequences_ids).
  intros Hsize Hids Hfuel.
  exists (flat_map (minis_of_item batch_size size) (first :: rest)).
  split.
  { unfold get_mini_dataset. rewrite Hids. fold batch_size size.
    rewrite for_items_returns by assumption. reflexivity. }
  assert (Hgen : forall items : list (item A),
             concat ((fun mb : gmap string (list A) => default [] (mb !! k))
                       <$> flat_map (minis_of_item batch_size size) items)
             = concat ((fun it => take (div_ceil batch_size size * size)
                                       (default [] (fields it !! k))) <$> items)).
  { induction items as [| it items IH]; [reflexivity |].
    change (flat_map (minis_of_item batch_size size) (it :: items))
      with (minis_of_item batch_size size it
            ++ flat_map (minis_of_item batch_size size) items).
    rewrite fmap_app, concat_app, fmap_cons, concat_cons, IH.
    f_equal. apply field_of_item_minis. }
  split; [apply Hgen |].
  intros Hshort. rewrite Hgen. f_equal.
  apply Forall_fmap_ext_1. eapply Forall_impl; [exact Hshort |].
  intros it Hit. simpl in Hit. apply take_ge.
  pose proof (div_ceil_covers batch_size size Hsize). lia.
Qed.

(** X23. The number of minibatches that [get_mini_dataset] returns is the
    number of records times the number of slices per record,
    [ceil(batch_size / size)], where [batch_size] is read from the first
    record. *)
Theorem get_mini_dataset_count
    (fuel : nat) (args : Args) (first : item A) (rest : list (item A))
    (sequences_ids : list A) :
  0 < per_device_mini_train_batch_size args ->
  exp first !! "sequences_ids"%string = Some sequences_ids ->
  length sequences_ids <= fuel ->
  exists minis,
    get_mini_dataset fuel args (first :: rest) = Returns minis /\
    length minis
    = length (first :: rest)
      * div_ceil (length sequences_ids) (per_device_mini_train_batch_size args).
Proof.
  intros Hsize Hids Hfuel.
  eexists. split.
  { unfold get_mini_dataset. rewrite Hids.
    rewrite for_items_returns by assumption. reflexivity. }
  apply flat_map_constant_length. intros it _. apply length_minis_of_item.
Qed.

Lemma while_loop_zero_size (fuel batch_size index : nat) (it : item A) :
  index < batch_size -> while_loop fuel batch_size 0 index it = None.
Proof.
  intros Hlt. induction fuel as [| fuel IH]; simpl.
  - rewrite decide_True by exact Hlt. reflexivity.
  - rewrite decide_True by exact Hlt. rewrite Nat.add_0_r, IH. reflexivity.
Qed.

(** X24. When [get_mini_dataset] does not return: on an empty buffer and on
    a first record without the key [sequences_ids] it raises; with a
    minibatch size of 0 and a first record that has examples, the [while]
    loop never advances, so the call does not return whatever the fuel. *)
Theorem get_mini_dataset_failures
    (fuel : nat) (args : Args) (first : item A) (rest : list (item A)) :
  get_mini_dataset (A := A) fuel args [] = Raises /\
  (exp first !! "sequences_ids"%string = None ->
   get_mini_dataset fuel args (first :: rest) = Raises) /\
  (forall sequences_ids,
      exp first !! "sequences_ids"%string = Some sequences_ids ->
      sequences_ids <> [] ->
      per_device_mini_train_batch_size args = 0 ->
      get_mini_dataset fuel args (first :: rest) = OutOfFuel).
Proof.
  split; [reflexivity |]. split.
  - intros Hnone. unfold get_mini_dataset. rewrite Hnone. reflexivity.
  - intros sequences_ids Hids Hne Hzero. unfold get_mini_dataset.
    rewrite Hids, Hzero. simpl.
    rewrite while_loop_zero_size; [reflexivity |].
    destruct sequences_ids; [congruence | simpl; lia].
Qed.

End FlattenFacts.

Lemma get_mini_dataset_round_trip_witness :
  0 < 2 /\
  ({[ "sequences_ids"%string := [10; 11; 12] ]} : gmap string (list nat))
    !! "sequences_ids"%string = Some [10; 11; 12] /\
  length [10; 11; 12] <= 3 /\
  exists minis,
    MiniDataset.get_mini_dataset 3
      (Build_Args "identity" 0.1 None 1 1 false 0.2 2 1 None)
      [ {| MiniDataset.exp := {[ "sequences_ids"%string := [10; 11; 12] ]};
           MiniDataset.extra := None |} ]
    = MiniDataset.Returns minis /\
    concat ((fun mb : gmap string (list nat) =>
               default [] (mb !! "sequences_ids"%string)) <$> minis)
    = [10; 11; 12].
Proof.
  pose (args := Build_Args "identity" 0.1 None 1 1 false 0.2 2 1 None).
  pose (it := {| MiniDataset.exp := {[ "sequences_ids"%string := [10; 11; 12] ]};
                 MiniDataset.extra := None |} : MiniDataset.item nat).
  assert (Hsize : 0 < per_device_mini_train_batch_size args) by (simpl; lia).
  assert (Hids : MiniDataset.exp it !! "sequences_ids"%string = Some [10; 11; 12])
    by apply lookup_singleton_eq.
  assert (Hfuel : length [10; 11; 12] <= 3) by (simpl; lia).
  split; [exact Hsize |]. split; [exact Hids |]. split; [exact Hfuel |].
  destruct (get_mini_dataset_round_trip (A := nat) 3 args it [] [10; 11; 12]
              "sequences_ids" Hsize Hids Hfuel) as (minis & Hrun & _ & Hwhole).
  exists minis. split; [exact Hrun |].
  rewrite Hwhole; [vm_compute; reflexivity |].
  repeat constructor.
Defined.

Lemma get_mini_dataset_count_witness :
  0 < 2 /\
  ({[ "sequences_ids"%string := [10; 11; 12] ]} : gmap string (list nat))
    !! "sequences_ids"%string = Some [10; 11; 12] /\
  length [10; 11; 12] <= 3 /\
  exists minis,
    MiniDataset.get_mini_dataset 3
      (Build_Args "identity" 0.1 None 1 1 false 0.2 2 1 None)
      [ {| MiniDataset.exp := {[ "sequences_ids"%string := [10; 11; 12] ]};
           MiniDataset.extra := None |} ]
    = MiniDataset.Returns minis /\
    length minis = 1 * MiniDataset.div_ceil 3 2.
Proof.
  pose (args := Build_Args "identity" 0.1 None 1 1 false 0.2 2 1 None).
  pose (it := {| MiniDataset.exp := {[ "sequences_ids"%string := [10; 11; 12] ]};
                 MiniDataset.extra := None |} : MiniDataset.item nat).
  assert (Hsize : 0 < per_device_mini_train_batch_size args) by (simpl; lia).
  assert (Hids : MiniDataset.exp it !! "sequences_ids"%string = Some [10; 11; 12])
    by apply lookup_singleton_eq.
  assert (Hfuel : length [10; 11; 12] <= 3) by (simpl; lia).
  split; [exact Hsize |]. split; [exact Hids |]. split; [exact Hfuel |].
  exact (get_mini_dataset_count (A := nat) 3 args it [] [10; 11; 12]
           Hsize Hids Hfuel).
Defined.

(** ** The state dict that is saved *)

Section CheckpointFacts.
Import Checkpoint.
Context {T : Type}.

Lemma v_head_key_inj (k1 k2 : string) :
  ("v_head." +:+ k1)%string = ("v_head." +:+ k2)%string -> k1 = k2.
Proof. intros H. injection H as H. exact H. Qed.

(** X25. The state dict that [get_state_dict] hands to [save_checkpoint]:
    every entry [k] of the value head's state dict is found under the key
    ["v_head." + k], replacing an entry the pretrained model's state dict
    had under that key; every other key holds what the pretrained model's
    state dict holds, and is absent if absent there. *)
Theorem get_state_dict_lookup
    (pretrained_model_state_dict v_head_state_dict : gmap string T) :
  (forall k,
      get_state_dict pretrained_model_state_dict v_head_state_dict
        !! ("v_head." +:+ k)%string
      = match v_head_state_dict !! k with
        | Some v => Some v
        | None => pretrained_model_state_dict !! ("v_head." +:+ k)%string
        end) /\
  (forall key,
      (forall k, is_Some (v_head_state_dict !! k) -> key <> ("v_head." +:+ k)%string) ->
      get_state_dict pretrained_model_state_dict v_head_state_dict !! key
      = pretrained_model_state_dict !! key).
Proof.
  unfold get_state_dict, add_v_head.
  apply (map_fold_weak_ind
           (fun (r : gmap string T) (m : gmap string T) =>
              (forall k, r !! ("v_head." +:+ k)%string
                         = match m !! k with
                           | Some v => Some v
                           | None => pretrained_model_state_dict
                                       !! ("v_head." +:+ k)%string
                           end) /\
              (forall key,
                  (forall k, is_Some (m !! k) -> key <> ("v_head." +:+ k)%string) ->
                  r !! key = pretrained_model_state_dict !! key))).
  - split; [intros k; rewrite lookup_empty; reflexivity | reflexivity].
  - intros i x m r Hi [IHv IHo]. split.
    + intros k. destruct (decide (k = i)) as [-> | Hne].
      * rewrite !lookup_insert_eq. reflexivity.
      * rewrite !lookup_insert_ne
          by (try (intros Heq; apply v_head_key_inj in Heq); congruence).
        apply IHv.
    + intros key Hkey.
      rewrite lookup_insert_ne.
      * apply IHo. intros k Hk. apply Hkey.
        destruct (decide (k = i)) as [-> | Hne];
          [rewrite lookup_insert_eq | rewrite lookup_insert_ne by congruence];
          eauto.
      * intros Heq. apply (Hkey i); [rewrite lookup_insert_eq; eauto | congruence].
Qed.

End CheckpointFacts.

(** ** The weight of the auxiliary loss over the steps *)

Section WarmupRampFacts.
Import Warmup.
Local Open Scope R_scope.

Lemma warmup_weight_below (fmul : R -> R -> R) (args : Args) (max_steps ratio : R) (step : Z) :
  extra_warmup_steps_ratio args = Some ratio ->
  (step < py_int (fmul ratio max_steps))%Z ->
  extra_loss_weight_warmup fmul args max_steps step
  = IZR step * / IZR (py_int (fmul ratio max_steps)) * extra_loss_weight args.
Proof.
  intros Hratio Hstep. unfold extra_loss_weight_warmup. rewrite Hratio.
  destruct (Z.ltb_spec step (py_int (fmul ratio max_steps))); [reflexivity | lia].
Qed.

Lemma Rpower_below_one (w : R) : 0 < w < 1 -> Rpower w 1.001 < w.
Proof.
  intros [Hpos Hlt].
  assert (Hln : ln w < 0) by (rewrite <- ln_1; apply ln_increasing; lra).
  replace 1.001 with (1 + 0.001) by lra.
  rewrite Rpower_plus, Rpower_1 by exact Hpos.
  assert (Hsmall : Rpower w 0.001 < 1).
  { unfold Rpower. rewrite <- exp_0. apply exp_increasing. nra. }
  nra.
Qed.

(** X26. While warming up, the weight of the auxiliary loss rises with the
    step and stays under the configured weight: for a positive configured
    weight and steps [0 <= s1 < s2] below
    [int(extra_warmup_steps_ratio * max_steps)] (the product as the machine
    computes it, [fmul], whatever its rounding),
    [0 <= weight(s1) < weight(s2) < extra_loss_weight]; at step 0 the weight
    is 0. *)
Theorem extra_loss_weight_ramp
    (fmul : R -> R -> R) (args : Args) (max_steps ratio : R) (s1 s2 : Z) :
  extra_warmup_steps_ratio args = Some ratio ->
  0 < extra_loss_weight args ->
  (0 <= s1 < s2)%Z ->
  (s2 < py_int (fmul ratio max_steps))%Z ->
  extra_loss_weight_warmup fmul args max_steps 0 = 0 /\
  0 <= extra_loss_weight_warmup fmul args max_steps s1 /\
  extra_loss_weight_warmup fmul args max_steps s1
  < extra_loss_weight_warmup fmul args max_steps s2 /\
  extra_loss_weight_warmup fmul args max_steps s2 < extra_loss_weight args.
Proof.
  intros Hratio Hw [H0 H12] H2.
  rewrite (warmup_weight_below fmul args max_steps ratio 0 Hratio) by lia.
  rewrite (warmup_weight_below fmul args max_steps ratio s1 Hratio) by lia.
  rewrite (warmup_weight_below fmul args max_steps ratio s2 Hratio) by lia.
  set (W := IZR (py_int (fmul ratio max_steps))).
  assert (Hs1 : 0 <= IZR s1) by (apply IZR_le; lia).
  assert (Hs12 : IZR s1 < IZR s2) by (apply IZR_lt; lia).
  assert (Hs2 : IZR s2 < W) by (apply IZR_lt; lia).
  assert (HW : 0 < W) by lra.
  assert (Hinv : 0 < / W) by (apply Rinv_0_lt_compat; exact HW).
  assert (Hone : W * / W = 1) by (apply Rinv_r; lra).
  assert (Hk : 0 < / W * extra_loss_weight args) by (apply Rmult_lt_0_compat; lra).
  split; [lra |]. split; [| split].
  - rewrite Rmult_assoc. apply Rmult_le_pos; lra.
  - rewrite !Rmult_assoc. apply Rmult_lt_compat_r; lra.
  - rewrite Rmult_assoc.
    replace (extra_loss_weight args) with (W * (/ W * extra_loss_weight args)) at 2
      by (rewrite <- Rmult_assoc, Hone; lra).
    apply Rmult_lt_compat_r; lra.
Qed.

(** X27. With a configured weight strictly between 0 and 1 and a warm-up
    ratio set, the weight of the auxiliary loss never reaches the configured
    weight: at every step [>= 0] it is at least 0 and strictly below
    [extra_loss_weight], during the warm-up ([s / warmup_steps * w]) and
    after it ([w ** 1.001 < w]). *)
Theorem extra_loss_weight_never_reaches_small_target
    (fmul : R -> R -> R) (args : Args) (max_steps ratio : R) (step : Z) :
  extra_warmup_steps_ratio args = Some ratio ->
  0 < extra_loss_weight args < 1 ->
  (0 <= step)%Z ->
  0 <= extra_loss_weight_warmup fmul args max_steps step < extra_loss_weight args.
Proof.
  intros Hratio Hw Hstep.
  destruct (Z.lt_ge_cases step (py_int (fmul ratio max_steps))) as [Hlt | Hge].
  - rewrite (warmup_weight_below fmul args max_steps ratio step Hratio Hlt).
    set (W := IZR (py_int (fmul ratio max_steps))).
    assert (Hs : 0 <= IZR step) by (apply IZR_le; lia).
    assert (Hs2 : IZR step < W) by (apply IZR_lt; lia).
    assert (HW : 0 < W) by lra.
    assert (Hinv : 0 < / W) by (apply Rinv_0_lt_compat; exact HW).
    assert (Hone : W * / W = 1) by (apply Rinv_r; lra).
    assert (Hk : 0 < / W * extra_loss_weight args) by (apply Rmult_lt_0_compat; lra).
    split.
    + rewrite Rmult_assoc. apply Rmult_le_pos; lra.
    + rewrite Rmult_assoc.
      replace (extra_loss_weight args) with (W * (/ W * extra_loss_weight args)) at 2
        by (rewrite <- Rmult_assoc, Hone; lra).
      apply Rmult_lt_compat_r; lra.
  - rewrite (post_warmup_weight fmul args max_steps ratio step Hratio Hge).
    split; [left; apply exp_pos | apply Rpower_below_one; exact Hw].
Qed.

Lemma extra_loss_weight_ramp_witness :
  extra_warmup_steps_ratio
    (Build_Args "identity" 0.1 None 1 1 false 0.2 2 2 (Some 0.5)) = Some 0.5 /\
  0 < extra_loss_weight
        (Build_Args "identity" 0.1 None 1 1 false 0.2 2 2 (Some 0.5)) /\
  (0 <= 1 < 2)%Z /\
  (2 < py_int (0.5 * IZR 8))%Z /\
  extra_loss_weight_warmup Rmult
    (Build_Args "identity" 0.1 None 1 1 false 0.2 2 2 (Some 0.5)) (IZR 8) 1
  < extra_loss_weight_warmup Rmult
      (Build_Args "identity" 0.1 None 1 1 false 0.2 2 2 (Some 0.5)) (IZR 8) 2.
Proof.
  assert (Hw : 0 < extra_loss_weight
                     (Build_Args "identity" 0.1 None 1 1 false 0.2 2 2 (Some 0.5)))
    by (simpl; lra).
  assert (Hs : (0 <= 1 < 2)%Z) by lia.
  assert (Hws : py_int (0.5 * IZR 8) = 4%Z)
    by (replace (0.5 * IZR 8) with (IZR 4) by lra; apply py_int_IZR).
  assert (Hlt : (2 < py_int (0.5 * IZR 8))%Z) by (rewrite Hws; lia).
  split; [reflexivity |]. split; [exact Hw |]. split; [exact Hs |].
  split; [exact Hlt |].
  exact (proj1 (proj2 (proj2
           (extra_loss_weight_ramp Rmult
              (Build_Args "identity" 0.1 None 1 1 false 0.2 2 2 (Some 0.5))
              (IZR 8) 0.5 1 2 eq_refl Hw Hs Hlt)))).
Defined.

Lemma extra_loss_weight_never_reaches_small_target_witness :
  extra_warmup_steps_ratio
    (Build_Args "identity" 0.1 None 1 1 false 0.2 2 0.5 (Some 0.5)) = Some 0.5 /\
  0 < extra_loss_weight
        (Build_Args "identity" 0.1 None 1 1 false 0.2 2 0.5 (Some 0.5)) < 1 /\
  (0 <= 7)%Z /\
  extra_loss_weight_warmup Rmult
    (Build_Args "identity" 0.1 None 1 1 false 0.2 2 0.5 (Some 0.5)) 8 7 < 0.5.
Proof.
  assert (Hw : 0 < extra_loss_weight
                     (Build_Args "identity" 0.1 None 1 1 false 0.2 2 0.5 (Some 0.5)) < 1)
    by (simpl; lra).
  assert (Hs : (0 <= 7)%Z) by lia.
  split; [reflexivity |]. split; [exact Hw |]. split; [exact Hs |].
  exact (proj2 (extra_loss_weight_never_reaches_small_target Rmult
                  (Build_Args "identity" 0.1 None 1 1 false 0.2 2 0.5 (Some 0.5))
                  8 0.5 7 eq_refl Hw Hs)).
Defined.

End WarmupRampFacts.

(** ** Which pass computes which output *)

Section RoleSwitchRunFacts.
Import RoleSwitch.
Context {logits values : Type}.

Lemma reload_same_storage (st : gmap nat tensor) (sw sb : nat) (wr br : tensor) :
  sw <> sb ->
  <[sb := br]> (<[sw := wr]> (<[sb := br]> (<[sw := wr]> st)))
  = <[sb := br]> (<[sw := wr]> st).
Proof.
  intros Hne. apply map_eq. intros i.
  destruct (decide (i = sb)) as [-> | Hb]; [rewrite !lookup_insert_eq; reflexivity |].
  rewrite (lookup_insert_ne _ sb i) by congruence.
  destruct (decide (i = sw)) as [-> | Hw].
  - rewrite lookup_insert_eq, lookup_insert_ne by congruence.
    rewrite lookup_insert_eq. reflexivity.
  - rewrite (lookup_insert_ne _ sw i) by congruence. reflexivity.
Qed.

(** The block that reads the reward score, run on any state: the forward
    pass sees the value head loaded with the reward head, the outcome of the
    block is the outcome of that pass, and the state afterwards is the state
    the pass ran on. *)
Lemma reward_pass_run
    (forward : M value_head_model values) (m : value_head_model)
    (rw rb : nat) (wr br : tensor) :
  (forall s, (forward s).2 = s) ->
  buffers m !! "reward_head_weight"%string = Some rw ->
  buffers m !! "reward_head_bias"%string = Some rb ->
  storage m !! rw = Some wr ->
  storage m !! rb = Some br ->
  rb <> summary_weight (v_head m) ->
  summary_weight (v_head m) <> summary_bias (v_head m) ->
  let m1 :=
    set_storage
      (<[summary_bias (v_head m) := br]>
         (<[summary_weight (v_head m) := wr]> (storage m)))
      (set_buffers
         (<["critic_head_bias"%string := summary_bias (v_head m)]>
            (<["critic_head_weight"%string := summary_weight (v_head m)]>
               (buffers m))) m) in
  reward_pass forward m = ((forward m1).1, m1).
Proof.
  intros Hpure Hrw Hrb Hwr Hbr Hne1 Hne2 m1.
  unfold reward_pass.
  erewrite bind_returned by reflexivity.
  erewrite bind_returned by reflexivity.
  erewrite bind_returned by reflexivity.
  erewrite bind_returned
    by (apply getattr_returned; cbn; rewrite !lookup_insert_ne by discriminate;
        exact Hrw).
  erewrite bind_returned
    by (apply getattr_returned; cbn; rewrite !lookup_insert_ne by discriminate;
        exact Hrb).
  erewrite bind_returned
    by (apply load_state_dict_returned; cbn;
        [exact Hwr | rewrite lookup_insert_ne by congruence; exact Hbr]).
  cbn [set_buffers set_storage v_head buffers storage].
  match goal with |- bind forward ?k ?s = _ => change s with m1 end.
  unfold bind at 1.
  pose proof (Hpure m1) as Hs.
  destruct (forward m1) as [[ref_values |] s'] eqn:Hf; simpl in Hs; subst s';
    [| reflexivity].
  erewrite bind_returned
    by (apply getattr_returned; cbn;
        rewrite lookup_insert_ne by discriminate; apply lookup_insert_eq).
  erewrite bind_returned by (apply getattr_returned; cbn; apply lookup_insert_eq).
  erewrite bind_returned
    by (apply load_state_dict_returned; cbn;
        [ rewrite lookup_insert_ne by congruence; apply lookup_insert_eq
        | rewrite lookup_insert_ne by congruence; apply lookup_insert_eq ]).
  unfold ret. cbn [fst]. f_equal.
  unfold m1, set_storage, set_buffers. cbn.
  rewrite reload_same_storage by exact Hne2. reflexivity.
Qed.


Lemma reward_pass_returns
    (f : value_head_model -> values) (m : value_head_model)
    (rw rb : nat) (wr br : tensor) :
  buffers m !! "reward_head_weight"%string = Some rw ->
  buffers m !! "reward_head_bias"%string = Some rb ->
  storage m !! rw = Some wr ->
  storage m !! rb = Some br ->
  rb <> summary_weight (v_head m) ->
  rw <> summary_bias (v_head m) ->
  summary_weight (v_head m) <> summary_bias (v_head m) ->
  exists m1,
    (forall forward : M value_head_model values,
        (forall s, forward s = (Returned (f s), s)) ->
        reward_pass forward m = (Returned (f m1), m1)) /\
    head_contents m1 = Some (wr, br) /\
    reward_head_contents m1 = Some (wr, br) /\
    adapters_enabled m1 = adapters_enabled m /\
    active_adapter m1 = active_adapter m.
Proof.
  intros Hrw Hrb Hwr Hbr Hne1 Hne3 Hne2.
  eexists. split; [| split; [| split; [| split]]].
  - intros forward Hf.
    rewrite (reward_pass_run forward m rw rb wr br)
      by (assumption || (intros s; rewrite Hf; reflexivity)).
    rewrite Hf. reflexivity.
  - unfold head_contents. cbn.
    rewrite lookup_insert_ne by congruence. rewrite !lookup_insert_eq. reflexivity.
  - unfold reward_head_contents. cbn.
    rewrite !lookup_insert_ne by discriminate. rewrite Hrw, Hrb.
    assert (Hw' : <[summary_bias (v_head m) := br]>
                    (<[summary_weight (v_head m) := wr]> (storage m)) !! rw
                  = Some wr).
    { rewrite lookup_insert_ne by congruence.
      destruct (decide (summary_weight (v_head m) = rw)) as [<- | Hw];
        [apply lookup_insert_eq | rewrite lookup_insert_ne by exact Hw; exact Hwr]. }
    assert (Hb' : <[summary_bias (v_head m) := br]>
                    (<[summary_weight (v_head m) := wr]> (storage m)) !! rb
                  = Some br).
    { destruct (decide (summary_bias (v_head m) = rb)) as [<- | Hb];
        [apply lookup_insert_eq |].
      rewrite !lookup_insert_ne by congruence. exact Hbr. }
    rewrite Hw', Hb'. reflexivity.
  - reflexivity.
  - reflexivity.
Qed.

(** X28. [get_co_model_output] on a model whose reward head buffers hold
    tensors other than the value head's parameters, with a forward pass that
    returns: the actor logits come from the model as it is, the critic values
    from the model under the adapter ["critic"] when [use_multi_adapters] is
    set, the reference logits from a pass with the adapters disabled and the
    value head still in place, the reference values from a pass with the
    adapters disabled and the reward head loaded; afterwards the adapters are
    enabled, the active adapter is ["default"] when [use_multi_adapters] is
    set and unchanged otherwise, and the frozen reward head holds the same
    weights. *)
Theorem get_co_model_output_passes
    (reenable_on_raise use_multi_adapters : bool)
    (f : value_head_model -> logits * values) (m : value_head_model)
    (rw rb : nat) (wr br : tensor) :
  buffers m !! "reward_head_weight"%string = Some rw ->
  buffers m !! "reward_head_bias"%string = Some rb ->
  storage m !! rw = Some wr ->
  storage m !! rb = Some br ->
  rb <> summary_weight (v_head m) ->
  rw <> summary_bias (v_head m) ->
  summary_weight (v_head m) <> summary_bias (v_head m) ->
  exists m_ref m_reward,
    adapters_enabled m_ref = false /\
    head_contents m_ref = head_contents m /\
    adapters_enabled m_reward = false /\
    head_contents m_reward = Some (wr, br) /\
    let run := get_co_model_output reenable_on_raise (fun s => Returned (f s))
                 use_multi_adapters m in
    run.1 = Returned ((f m).1,
                      (f (if use_multi_adapters
                          then set_active_adapter "critic" m else m)).2,
                      (f m_ref).1, (f m_reward).2) /\
    adapters_enabled run.2 = true /\
    active_adapter run.2
    = (if use_multi_adapters then "default"%string else active_adapter m) /\
    reward_head_contents run.2 = Some (wr, br).
Proof.
  intros Hrw Hrb Hwr Hbr Hne1 Hne3 Hne2.
  set (m' := if use_multi_adapters then set_active_adapter "default" m else m).
  set (m_dis := set_adapters_enabled false m').
  assert (Hsame : buffers m_dis = buffers m /\ storage m_dis = storage m /\
                  v_head m_dis = v_head m)
    by (unfold m_dis, m'; destruct use_multi_adapters; repeat split).
  destruct Hsame as (Hb & Hst & Hv).
  destruct (reward_pass_returns (fun s => (f s).2) m_dis rw rb wr br)
    as (m1 & Hrun & Hhead & Hreward & Hen & Hact);
    rewrite ?Hb, ?Hst, ?Hv; try assumption.
  exists m_dis, m1.
  split; [reflexivity |].
  split; [unfold head_contents; rewrite Hst, Hv; reflexivity |].
  split; [rewrite Hen; reflexivity |].
  split; [exact Hhead |].
  assert (Hfinal : get_co_model_output reenable_on_raise (fun s => Returned (f s))
                     use_multi_adapters m
                   = (Returned ((f m).1,
                                (f (if use_multi_adapters
                                    then set_active_adapter "critic" m else m)).2,
                                (f m_dis).1, (f m1).2),
                      set_adapters_enabled true m1)).
  { unfold get_co_model_output.
    erewrite bind_returned by reflexivity.
    rewrite (bind_returned _ _ m m'
               (f (if use_multi_adapters
                   then set_active_adapter "critic" m else m)).2)
      by (unfold m'; destruct use_multi_adapters; reflexivity).
    unfold bind at 1. unfold with_disable_adapter. fold m_dis.
    erewrite bind_returned by reflexivity.
    erewrite bind_returned by (apply Hrun; reflexivity).
    reflexivity. }
  cbv zeta. rewrite Hfinal. cbn [fst snd].
  split; [reflexivity |]. split; [reflexivity |].
  split.
  - cbn. rewrite Hact. unfold m_dis, m'. destruct use_multi_adapters; reflexivity.
  - unfold reward_head_contents in *. exact Hreward.
Qed.

(** X29. [get_model_output] with forward passes that return, on a critic
    whose reward head buffers hold tensors other than the value head's
    parameters: the actor logits and critic values come from the models as
    they are, the reference logits from the actor with its adapters
    disabled, the reference values from the critic with its adapters
    disabled and the reward head loaded; afterwards both models have their
    adapters enabled, and the critic's active adapter and its frozen reward
    head are unchanged. *)
Theorem get_model_output_passes
    (reenable_on_raise : bool)
    (fa : bool -> logits) (fc : value_head_model -> values) (s : models)
    (rw rb : nat) (wr br : tensor) :
  buffers (critic_model s) !! "reward_head_weight"%string = Some rw ->
  buffers (critic_model s) !! "reward_head_bias"%string = Some rb ->
  storage (critic_model s) !! rw = Some wr ->
  storage (critic_model s) !! rb = Some br ->
  rb <> summary_weight (v_head (critic_model s)) ->
  rw <> summary_bias (v_head (critic_model s)) ->
  summary_weight (v_head (critic_model s)) <> summary_bias (v_head (critic_model s)) ->
  exists m_reward,
    adapters_enabled m_reward = false /\
    head_contents m_reward = Some (wr, br) /\
    let run := get_model_output reenable_on_raise
                 (fun enabled => Returned (fa enabled))
                 (fun c => Returned (fc c)) s in
    run.1 = Returned (fa (actor_adapters_enabled s), fc (critic_model s),
                      fa false, fc m_reward) /\
    actor_adapters_enabled run.2 = true /\
    adapters_enabled (critic_model run.2) = true /\
    active_adapter (critic_model run.2) = active_adapter (critic_model s) /\
    reward_head_contents (critic_model run.2) = Some (wr, br).
Proof.
  intros Hrw Hrb Hwr Hbr Hne1 Hne3 Hne2.
  set (m := critic_model s) in *.
  set (m_dis := set_adapters_enabled false m).
  destruct (reward_pass_returns fc m_dis rw rb wr br)
    as (m1 & Hrun & Hhead & Hreward & Hen & Hact); try assumption.
  exists m1.
  split; [rewrite Hen; reflexivity |].
  split; [exact Hhead |].
  assert (Hfinal : get_model_output reenable_on_raise
                     (fun enabled => Returned (fa enabled))
                     (fun c => Returned (fc c)) s
                   = (Returned (fa (actor_adapters_enabled s), fc m, fa false, fc m1),
                      {| actor_adapters_enabled := true;
                         critic_model := set_adapters_enabled true m1 |})).
  { unfold get_model_output.
    erewrite bind_returned by reflexivity.
    erewrite bind_returned by reflexivity.
    erewrite bind_returned by reflexivity.
    unfold bind at 1. unfold with_disable_adapter, on_critic.
    cbn [set_critic_enabled set_actor_enabled critic_model actor_adapters_enabled].
    fold m. fold m_dis.
    rewrite (Hrun (call (fun c => Returned (fc c)))) by reflexivity.
    reflexivity. }
  cbv zeta. rewrite Hfinal. cbn [fst snd critic_model actor_adapters_enabled].
  split; [reflexivity |]. split; [reflexivity |]. split; [reflexivity |].
  split; [cbn; rewrite Hact; reflexivity |].
  unfold reward_head_contents in *. exact Hreward.
Qed.

End RoleSwitchRunFacts.

Lemma get_co_model_output_passes_witness :
  RoleSwitch.buffers RoleSwitch.trained_critic !! "reward_head_weight"%string = Some 2 /\
  RoleSwitch.buffers RoleSwitch.trained_critic !! "reward_head_bias"%string = Some 3 /\
  RoleSwitch.storage RoleSwitch.trained_critic !! 2 = Some [2%R] /\
  RoleSwitch.storage RoleSwitch.trained_critic !! 3 = Some [0.5%R] /\
  (RoleSwitch.get_co_model_output (logits := bool)
     (values := option (RoleSwitch.tensor * RoleSwitch.tensor)) true
     (fun s => RoleSwitch.Returned
                 (RoleSwitch.adapters_enabled s, RoleSwitch.head_contents s))
     true RoleSwitch.trained_critic).1
  = RoleSwitch.Returned (true, Some ([1%R], [0%R]), false, Some ([2%R], [0.5%R])).
Proof.
  assert (Hrw : RoleSwitch.buffers RoleSwitch.trained_critic
                  !! "reward_head_weight"%string = Some 2) by reflexivity.
  assert (Hrb : RoleSwitch.buffers RoleSwitch.trained_critic
                  !! "reward_head_bias"%string = Some 3) by reflexivity.
  assert (Hwr : RoleSwitch.storage RoleSwitch.trained_critic !! 2 = Some [2%R])
    by reflexivity.
  assert (Hbr : RoleSwitch.storage RoleSwitch.trained_critic !! 3 = Some [0.5%R])
    by reflexivity.
  split; [exact Hrw |]. split; [exact Hrb |]. split; [exact Hwr |].
  split; [exact Hbr |].
  destruct (get_co_model_output_passes (logits := bool)
              (values := option (RoleSwitch.tensor * RoleSwitch.tensor))
              true true
              (fun s => (RoleSwitch.adapters_enabled s, RoleSwitch.head_contents s))
              RoleSwitch.trained_critic 2 3 [2%R] [0.5%R] Hrw Hrb Hwr Hbr)
    as (m_ref & m_reward & Hd1 & Hh1 & Hd2 & Hh2 & Hrun & _);
    [simpl; lia | simpl; lia | simpl; lia |].
  cbv zeta in Hrun. rewrite Hrun. cbn [fst snd].
  rewrite Hd1, Hh2. reflexivity.
Defined.

Lemma get_model_output_passes_witness :
  RoleSwitch.buffers RoleSwitch.trained_critic !! "reward_head_weight"%string = Some 2 /\
  RoleSwitch.buffers RoleSwitch.trained_critic !! "reward_head_bias"%string = Some 3 /\
  RoleSwitch.storage RoleSwitch.trained_critic !! 2 = Some [2%R] /\
  RoleSwitch.storage RoleSwitch.trained_critic !! 3 = Some [0.5%R] /\
  (RoleSwitch.get_model_output (logits := bool)
     (values := option (RoleSwitch.tensor * RoleSwitch.tensor)) true
     (fun enabled => RoleSwitch.Returned enabled)
     (fun c => RoleSwitch.Returned (RoleSwitch.head_contents c))
     RoleSwitch.trained_models).1
  = RoleSwitch.Returned (true, Some ([1%R], [0%R]), false, Some ([2%R], [0.5%R])).
Proof.
  assert (Hrw : RoleSwitch.buffers RoleSwitch.trained_critic
                  !! "reward_head_weight"%string = Some 2) by reflexivity.
  assert (Hrb : RoleSwitch.buffers RoleSwitch.trained_critic
                  !! "reward_head_bias"%string = Some 3) by reflexivity.
  assert (Hwr : RoleSwitch.storage RoleSwitch.trained_critic !! 2 = Some [2%R])
    by reflexivity.
  assert (Hbr : RoleSwitch.storage RoleSwitch.trained_critic !! 3 = Some [0.5%R])
    by reflexivity.
  split; [exact Hrw |]. split; [exact Hrb |]. split; [exact Hwr |].
  split; [exact Hbr |].
  destruct (get_model_output_passes (logits := bool)
              (values := option (RoleSwitch.tensor * RoleSwitch.tensor))
              true (fun enabled => enabled) RoleSwitch.head_contents
              RoleSwitch.trained_models 2 3 [2%R] [0.5%R] Hrw Hrb Hwr Hbr)
    as (m_reward & Hd & Hh & Hrun & _);
    [simpl; lia | simpl; lia | simpl; lia |].
  cbv zeta in Hrun. rewrite Hrun. rewrite Hh. reflexivity.
Defined.

(** ** A batch of experience: nothing after the response *)

Section ExperienceFacts.
Import Tensor FloatTensor SequenceProcessor ResponseMask Rewards Advantages LogProbs.
Import Experience.
Local Open Scope R_scope.

Variable pad_token_id : Z.
Variable generate : list (list Z) -> option (list (list Z)).
Variable model_output :
  sequences ->
  option (list (list (list R)) * list (list R) * list (list (list R)) * list (list R)).

Lemma get_experience_data_inv (args : Args) (prompts : list (list Z)) (e : experience) :
  get_experience_data pad_token_id generate model_output args prompts = Some e ->
  exists (values rewards : list (list R)),
    critic_values e
    = mul_mask (drop_last_column values) (drop_first_column (responses_mask e)) /\
    rewards_with_kl_penalty e
    = mul_mask rewards (drop_first_column (responses_mask e)) /\
    get_responses_mask (sequences_mask e) (prompts_ids e) = Some (responses_mask e) /\
    get_advantages_and_returns args (critic_values e) (rewards_with_kl_penalty e)
      (responses_mask e)
    = Some (advantages e, returns e).
Proof.
  intros Hrun. unfold get_experience_data in Hrun.
  destruct (generate prompts) as [responses |]; [| discriminate].
  simpl in Hrun.
  destruct (process_sequences pad_token_id prompts responses)
    as [[[ps rs] seqs] |]; [| discriminate].
  simpl in Hrun.
  destruct (model_output seqs) as [[[[al cv] rl] rv] |]; [| discriminate].
  simpl in Hrun.
  destruct (get_log_probs (drop_last_column al) (drop_first_column (input_ids seqs)))
    as [alp |]; [| discriminate].
  simpl in Hrun.
  destruct (get_log_probs (drop_last_column rl) (drop_first_column (input_ids seqs)))
    as [rlp |]; [| discriminate].
  simpl in Hrun.
  destruct (get_responses_mask (attention_mask seqs) ps) as [rm |] eqn:Hrm;
    [| discriminate].
  simpl in Hrun.
  destruct (compute_rewards_with_kl_penalty args rv alp rlp rm)
    as [[[rw kl] score] |]; [| discriminate].
  simpl in Hrun.
  destruct (get_advantages_and_returns args
              (mul_mask (drop_last_column cv) (drop_first_column rm))
              (mul_mask rw (drop_first_column rm)) rm)
    as [[adv ret] |] eqn:Hgae; [| discriminate].
  simpl in Hrun. injection Hrun as <-. cbn.
  exists cv, rw. repeat split; assumption.
Qed.

Lemma mul_mask_lookup (x : list (list R)) (mask : list (list Z)) (i : nat)
    (row : list R) :
  mul_mask x mask !! i = Some row ->
  exists x_i mask_i,
    x !! i = Some x_i /\ mask !! i = Some mask_i /\
    row = zip_with (fun d m => d * IZR m) x_i mask_i.
Proof.
  unfold mul_mask, zip2d. rewrite lookup_zip_with.
  destruct (x !! i) as [x_i |]; [| discriminate].
  destruct (mask !! i) as [mask_i |]; [| discriminate].
  simpl. intros [= <-]. eauto.
Qed.

Lemma masked_row_zero (x : list R) (mask : list Z) :
  Forall (fun m => m = 0%Z) mask ->
  Forall (fun d => d = 0) (zip_with (fun d m => d * IZR m) x mask).
Proof.
  intros Hmask. revert x.
  induction Hmask as [| m mask Hm _ IH]; intros [| d x]; simpl; constructor.
  - subst m. lra.
  - apply IH.
Qed.

Lemma gae_spec_zero (args : Args) (values rewards : list R) :
  Forall (fun d => d = 0) values -> Forall (fun d => d = 0) rewards ->
  Forall (fun d => d = 0) (gae_spec args values rewards).
Proof.
  intros Hv. revert rewards.
  induction Hv as [| v values Hv0 Hvs IH]; intros rewards Hr.
  - rewrite gae_spec_nil_l. constructor.
  - destruct Hr as [| r rewards Hr0 Hrs]; [constructor |].
    simpl. specialize (IH rewards Hrs). constructor; [| exact IH].
    subst v r.
    assert (Hhv : hd 0 values = 0) by (destruct Hvs; [reflexivity | assumption]).
    assert (Hhg : hd 0 (gae_spec args values rewards) = 0)
      by (destruct IH; [reflexivity | assumption]).
    rewrite Hhv, Hhg. lra.
Qed.

Lemma masked_row_after (x : list (list R)) (mask : list (list Z)) (i t : nat)
    (row : list R) (mask_i : list Z) :
  mul_mask x (drop_first_column mask) !! i = Some row ->
  mask !! i = Some mask_i ->
  Forall (fun m => m = 0%Z) (drop (S t) mask_i) ->
  Forall (fun d => d = 0) (drop t row).
Proof.
  intros Hrow Hmask Hzero.
  destruct (mul_mask_lookup _ _ _ _ Hrow) as (x_i & m_i & _ & Hm & ->).
  unfold drop_first_column in Hm. rewrite list_lookup_fmap, Hmask in Hm.
  injection Hm as <-.
  rewrite zip_with_drop. apply masked_row_zero.
  rewrite drop_drop. replace (t + 1)%nat with (S t) by lia. exact Hzero.
Qed.

(** X30. In the experience [get_experience_data] returns (values and rewards
    of one shape), nothing is left after the response: for an example whose
    response mask is zero from column [t + 1] on (the padding that fills the
    row), the stored critic values, the stored rewards, the returns and,
    without advantage normalisation, the advantages are all zero from
    column [t] on. *)
Theorem experience_zero_after_response
    (args : Args) (prompts : list (list Z)) (e : experience) (i t : nat)
    (mask_i : list Z) :
  get_experience_data pad_token_id generate model_output args prompts = Some e ->
  Forall2 (fun v r : list R => length v = length r)
          (critic_values e) (rewards_with_kl_penalty e) ->
  responses_mask e !! i = Some mask_i ->
  Forall (fun m => m = 0%Z) (drop (S t) mask_i) ->
  (forall row, critic_values e !! i = Some row -> Forall (fun d => d = 0) (drop t row)) /\
  (forall row, rewards_with_kl_penalty e !! i = Some row ->
               Forall (fun d => d = 0) (drop t row)) /\
  (forall row, returns e !! i = Some row -> Forall (fun d => d = 0) (drop t row)) /\
  (use_advantage_norm args = false ->
   forall row, advantages e !! i = Some row -> Forall (fun d => d = 0) (drop t row)).
Proof.
  intros Hrun Hshape Hmask Hzero.
  destruct (get_experience_data_inv args prompts e Hrun)
    as (values & rewards & Hcv & Hrw & _ & Hgae).
  rewrite (get_advantages_and_returns_unfold args _ _ _ Hshape (mk_is_Some _ _ Hgae))
    in Hgae.
  injection Hgae as Hadv Hret.
  assert (Hv0 : forall row, critic_values e !! i = Some row ->
                            Forall (fun d => d = 0) (drop t row)).
  { intros row Hrow. rewrite Hcv in Hrow.
    exact (masked_row_after _ _ _ _ _ _ Hrow Hmask Hzero). }
  assert (Hr0 : forall row, rewards_with_kl_penalty e !! i = Some row ->
                            Forall (fun d => d = 0) (drop t row)).
  { intros row Hrow. rewrite Hrw in Hrow.
    exact (masked_row_after _ _ _ _ _ _ Hrow Hmask Hzero). }
  assert (Hg0 : forall row,
             zip_with (gae_spec args) (critic_values e) (rewards_with_kl_penalty e)
               !! i = Some row ->
             Forall (fun d => d = 0) (drop t row)).
  { intros row Hrow. rewrite lookup_zip_with in Hrow.
    destruct (critic_values e !! i) as [v_i |] eqn:Hvi; [| discriminate].
    destruct (rewards_with_kl_penalty e !! i) as [r_i |] eqn:Hri; [| discriminate].
    simpl in Hrow. injection Hrow as <-.
    rewrite gae_spec_drop. apply gae_spec_zero; [apply Hv0 | apply Hr0]; reflexivity. }
  split; [exact Hv0 |]. split; [exact Hr0 |]. split.
  - intros row Hrow. rewrite <- Hret in Hrow. unfold zip2d in Hrow.
    rewrite lookup_zip_with in Hrow.
    destruct (zip_with (gae_spec args) (critic_values e) (rewards_with_kl_penalty e)
                !! i) as [g_i |] eqn:Hgi; [| discriminate].
    destruct (critic_values e !! i) as [v_i |] eqn:Hvi; [| discriminate].
    simpl in Hrow. injection Hrow as <-.
    rewrite zip_with_drop.
    specialize (Hg0 g_i eq_refl). specialize (Hv0 v_i eq_refl).
    revert Hv0. generalize (drop t v_i).
    induction Hg0 as [| g gs Hg _ IH]; intros vs Hvs; [constructor |].
    destruct Hvs as [| v vs Hv Hvs]; [constructor |].
    simpl. constructor; [lra | apply IH; exact Hvs].
  - intros Hnorm row Hrow. rewrite Hnorm in Hadv. rewrite <- Hadv in Hrow.
    apply Hg0. exact Hrow.
Qed.

End ExperienceFacts.

Lemma experience_zero_after_response_witness :
  exists e,
    Experience.get_experience_data 0
      (fun _ => Some [[2; 1]%Z; [1; 0]%Z])
      (fun _ => Some (replicate 2 (replicate 3 [0; 0; 0]%R),
                      [[1; 1; 1]%R; [1; 1; 1]%R],
                      replicate 2 (replicate 3 [0; 0; 0]%R),
                      [[1; 1; 1]%R; [1; 1; 1]%R]))
      (Build_Args "identity" 0.1 None 1 1 false 0.2 2 1 None)
      [[1]%Z; [2]%Z]
    = Some e /\
    Forall2 (fun v r : list R => length v = length r)
            (Experience.critic_values e) (Experience.rewards_with_kl_penalty e) /\
    Experience.responses_mask e !! 1%nat = Some [0; 1; 0]%Z /\
    Forall (fun m => m = 0%Z) (drop 2 [0; 1; 0]%Z) /\
    is_Some (Experience.returns e !! 1%nat) /\
    (forall row, Experience.returns e !! 1%nat = Some row ->
                 Forall (fun d => d = 0%R) (drop 1 row)).
Proof.
  eexists.
  match goal with
  | |- ?run = Some ?e /\ _ => assert (Hrun : run = Some e) by reflexivity
  end.
  split; [exact Hrun |].
  match type of Hrun with _ = Some ?x => set (e := x) in * end.
  assert (Hshape : Forall2 (fun v r : list R => length v = length r)
                     (Experience.critic_values e)
                     (Experience.rewards_with_kl_penalty e))
    by (repeat constructor).
  assert (Hmask : Experience.responses_mask e !! 1%nat = Some [0; 1; 0]%Z)
    by reflexivity.
  assert (Hzero : Forall (fun m => m = 0%Z) (drop 2 [0; 1; 0]%Z))
    by (repeat constructor).
  split; [exact Hshape |]. split; [exact Hmask |]. split; [exact Hzero |].
  split; [eexists; reflexivity |].
  exact (proj1 (proj2 (proj2
           (experience_zero_after_response _ _ _ _ _ e 1 1 [0; 1; 0]%Z
              Hrun Hshape Hmask Hzero)))).
Defined.

Lemma get_mini_dataset_failures_witness :
  MiniDataset.get_mini_dataset (A := nat) 5
    (Build_Args "identity" 0.1 None 1 1 false 0.2 2 1 None) [] = MiniDataset.Raises /\
  MiniDataset.get_mini_dataset (A := nat) 5
    (Build_Args "identity" 0.1 None 1 1 false 0.2 0 1 None)
    [ {| MiniDataset.exp := {[ "sequences_ids"%string := [10; 11; 12] ]};
         MiniDataset.extra := None |} ]
  = MiniDataset.OutOfFuel.
Proof.
  pose (it := {| MiniDataset.exp := {[ "sequences_ids"%string := [10; 11; 12] ]};
                 MiniDataset.extra := None |} : MiniDataset.item nat).
  assert (Hids : MiniDataset.exp it !! "sequences_ids"%string = Some [10; 11; 12])
    by apply lookup_singleton_eq.
  destruct (get_mini_dataset_failures (A := nat) 5
              (Build_Args "identity" 0.1 None 1 1 false 0.2 0 1 None) it [])
    as (_ & _ & Hloop).
  split.
  - exact (proj1 (get_mini_dataset_failures (A := nat) 5
                    (Build_Args "identity" 0.1 None 1 1 false 0.2 2 1 None) it [])).
  - apply (Hloop [10; 11; 12] Hids); [discriminate | reflexivity].
Defined.
